(** * VideoClipChatbot: clip curation and assembly engine

    A shallow embedding of the timestamp parser, the video-file resolver,
    the curator, the frame extractor (all in [server.js]) and the
    assembler's normalisation and de-duplication steps
    ([video_generator.js]), with the properties the specification states
    about them.

    Conventions of the embedding.

    - A JavaScript number is a [num]: an exact rational, [NaN] or one of
      the two infinities.  Rounding to binary64, overflow in arithmetic
      and the sign of zero are abstracted; every comparison, [Math.max],
      [Math.min] and [||] treats [NaN] the way JavaScript does, and
      [JSON.parse] reads a literal outside the range of binary64 as [0]
      or an infinity.  A statement that gives the value of a
      computation is made for numbers binary64 holds exactly.  The one
      place where the code's result is decided by binary64 arithmetic
      itself ([cosineSimilarity]) is modelled on Rocq's primitive floats.
    - A JavaScript string is a [string] of 8-bit characters, the code
      units below 256: white space includes the no-break space, and
      [toLowerCase] covers the capital letters of that range.
    - A value that comes out of [JSON.parse] is a [value]; a missing
      property is [VUndefined].  The fields of an object are kept in
      the order of its own properties.  No object carries a property
      named [toString] or [valueOf] of its own, so that the conversion
      of a value to a string or a number never throws.
    - External collaborators (the LLM, the embedding service, the
      transcoder, the file system) are arguments of the functions that
      call them. *)

From Stdlib Require Import ZArith QArith Qround Qabs Lqa Lia List String Ascii Bool.
From Stdlib Require DecimalString DecimalZ DecimalNat.
From Stdlib Require Import Floats.
From Stdlib Require Import Sorted Permutation.
Import ListNotations.

Set Implicit Arguments.

(** ** JavaScript numbers *)

Module JSNum.

Inductive num : Type :=
| NaN
| PInf
| NInf
| Fin (q : Q).

Definition zero : num := Fin 0.

Definition isNaN (n : num) : bool :=
  match n with NaN => true | _ => false end.

Definition isFinite (n : num) : bool :=
  match n with Fin _ => true | _ => false end.

Definition Qltb (x y : Q) : bool := negb (Qle_bool y x).

Definition neg (a : num) : num :=
  match a with
  | NaN => NaN
  | PInf => NInf
  | NInf => PInf
  | Fin x => Fin (- x)
  end.

Definition add (a b : num) : num :=
  match a, b with
  | NaN, _ | _, NaN => NaN
  | PInf, NInf | NInf, PInf => NaN
  | PInf, _ | _, PInf => PInf
  | NInf, _ | _, NInf => NInf
  | Fin x, Fin y => Fin (x + y)
  end.

Definition sub (a b : num) : num := add a (neg b).

(** The infinity of the sign of [q], or [NaN] for [0 * Infinity]. *)
Definition inf_times (positive : bool) (q : Q) : num :=
  if Qeq_bool q 0 then NaN
  else if Qltb 0 q then (if positive then PInf else NInf)
  else (if positive then NInf else PInf).

Definition mul (a b : num) : num :=
  match a, b with
  | NaN, _ | _, NaN => NaN
  | PInf, PInf | NInf, NInf => PInf
  | PInf, NInf | NInf, PInf => NInf
  | PInf, Fin y | Fin y, PInf => inf_times true y
  | NInf, Fin y | Fin y, NInf => inf_times false y
  | Fin x, Fin y => Fin (x * y)
  end.

Definition div (a b : num) : num :=
  match a, b with
  | NaN, _ | _, NaN => NaN
  | (PInf | NInf), (PInf | NInf) => NaN
  | PInf, Fin y => if Qltb y 0 then NInf else PInf
  | NInf, Fin y => if Qltb y 0 then PInf else NInf
  | Fin _, (PInf | NInf) => Fin 0
  | Fin x, Fin y =>
      if Qeq_bool y 0
      then (if Qeq_bool x 0 then NaN else if Qltb 0 x then PInf else NInf)
      else Fin (x / y)
  end.

(** [a < b] and [a <= b]; both are false when an operand is [NaN]. *)
Definition ltb (a b : num) : bool :=
  match a, b with
  | NaN, _ | _, NaN => false
  | _, NInf => false
  | NInf, _ => true
  | PInf, _ => false
  | _, PInf => true
  | Fin x, Fin y => Qltb x y
  end.

Definition leb (a b : num) : bool :=
  match a, b with
  | NaN, _ | _, NaN => false
  | NInf, _ => true
  | _, PInf => true
  | _, NInf => false
  | PInf, _ => false
  | Fin x, Fin y => Qle_bool x y
  end.

Definition gtb (a b : num) : bool := ltb b a.
Definition geb (a b : num) : bool := leb b a.

(** [a === b] on numbers. *)
Definition eqb (a b : num) : bool :=
  match a, b with
  | PInf, PInf | NInf, NInf => true
  | Fin x, Fin y => Qeq_bool x y
  | _, _ => false
  end.

(** [Math.max(a, b)] and [Math.min(a, b)]. *)
Definition max (a b : num) : num :=
  match a, b with
  | NaN, _ | _, NaN => NaN
  | _, _ => if ltb a b then b else a
  end.

Definition min (a b : num) : num :=
  match a, b with
  | NaN, _ | _, NaN => NaN
  | _, _ => if ltb b a then b else a
  end.

(** [Math.abs], [Math.round] (half up), [Math.ceil]. *)
Definition abs (a : num) : num :=
  match a with
  | NaN => NaN
  | PInf | NInf => PInf
  | Fin x => Fin (Qabs x)
  end.

Definition round (a : num) : num :=
  match a with
  | Fin x => Fin (inject_Z (Qfloor (x + (1 # 2))))
  | other => other
  end.

Definition ceil (a : num) : num :=
  match a with
  | Fin x => Fin (inject_Z (Qceiling x))
  | other => other
  end.

(** Truthiness of a number: [0] and [NaN] are falsy. *)
Definition truthy (n : num) : bool :=
  match n with
  | NaN => false
  | Fin q => negb (Qeq_bool q 0)
  | _ => true
  end.

(** [n || d] for a number [n]. *)
Definition or_default (n d : num) : num := if truthy n then n else d.

Definition of_Z (z : Z) : num := Fin (inject_Z z).
Definition of_nat (n : nat) : num := of_Z (Z.of_nat n).

(** Equality of numbers up to the representation of the rational. *)
Definition num_eq (a b : num) : Prop :=
  match a, b with
  | NaN, NaN | PInf, PInf | NInf, NInf => True
  | Fin x, Fin y => x == y
  | _, _ => False
  end.

End JSNum.

Export JSNum.

Declare Scope num_scope.
Delimit Scope num_scope with num.
Bind Scope num_scope with num.
Infix "+" := add : num_scope.
Infix "-" := sub : num_scope.
Infix "*" := mul : num_scope.
Infix "/" := div : num_scope.
Infix "<?" := ltb : num_scope.
Infix "<=?" := leb : num_scope.
Infix ">?" := gtb : num_scope.
Infix ">=?" := geb : num_scope.
Infix "=n=" := num_eq (at level 70, no associativity) : type_scope.

(** ** JavaScript strings *)

Module JSString.

Definition chars (s : string) : list ascii := list_ascii_of_string s.
Definition str (l : list ascii) : string := string_of_list_ascii l.

Definition code (c : ascii) : nat := nat_of_ascii c.
Definition chr (n : nat) : ascii := ascii_of_nat n.

Definition dquote : ascii := chr 34.
Definition backslash : ascii := chr 92.
Definition LF : ascii := chr 10.
Definition CR : ascii := chr 13.

(** String literals of this development write a double quote as an
    apostrophe; [qq] puts the double quotes back. *)
Definition qq (s : string) : string :=
  str (map (fun c => if Ascii.eqb c "'"%char then dquote else c) (chars s)).

(** White space and line terminators of the 8-bit range ([\s], [trim],
    the white space [parseFloat], [parseInt] and [Number] skip): the
    codes 9 to 13, the space and the no-break space. *)
Definition isSpace (c : ascii) : bool :=
  let n := code c in
  ((9 <=? n) && (n <=? 13) || (n =? 32) || (n =? 160))%nat.

Definition isDigit (c : ascii) : bool :=
  let n := code c in ((48 <=? n) && (n <=? 57))%nat.

Definition digit_of (c : ascii) : Z := Z.of_nat (code c) - 48.

(** [toLowerCase] on one character: the letters [A] to [Z] and the
    capital letters of the upper half of the 8-bit range (192 to 222,
    the multiplication sign 215 apart). *)
Definition toLower (c : ascii) : ascii :=
  let n := code c in
  if ((65 <=? n) && (n <=? 90) ||
      (192 <=? n) && (n <=? 222) && negb (n =? 215))%nat
  then chr (n + 32) else c.

Definition toLowerCase (s : list ascii) : list ascii := map toLower s.

Fixpoint dropWhile (p : ascii -> bool) (s : list ascii) : list ascii :=
  match s with
  | c :: r => if p c then dropWhile p r else s
  | [] => []
  end.

Fixpoint takeWhile (p : ascii -> bool) (s : list ascii) : list ascii :=
  match s with
  | c :: r => if p c then c :: takeWhile p r else []
  | [] => []
  end.

Definition trimStart (s : list ascii) : list ascii := dropWhile isSpace s.
Definition trimEnd (s : list ascii) : list ascii := rev (dropWhile isSpace (rev s)).
Definition trim (s : list ascii) : list ascii := trimEnd (trimStart s).

Definition ascii_list_eqb (a b : list ascii) : bool :=
  String.eqb (str a) (str b).

(** [s.startsWith(p)], returning what follows the prefix. *)
Fixpoint stripPrefix (p s : list ascii) : option (list ascii) :=
  match p, s with
  | [], _ => Some s
  | a :: p', b :: s' => if Ascii.eqb a b then stripPrefix p' s' else None
  | _ :: _, [] => None
  end.

Definition startsWith (p s : list ascii) : bool :=
  match stripPrefix p s with Some _ => true | None => false end.

Definition endsWith (p s : list ascii) : bool := startsWith (rev p) (rev s).

(** [s.includes(p)]. *)
Fixpoint includes (p s : list ascii) : bool :=
  startsWith p s ||
  match s with
  | [] => false
  | _ :: r => includes p r
  end.

(** [s.split(c)] for a one-character separator. *)
Fixpoint split_on (sep : ascii) (s : list ascii) : list (list ascii) :=
  match s with
  | [] => [[]]
  | c :: r =>
      if Ascii.eqb c sep then [] :: split_on sep r
      else match split_on sep r with
           | p :: ps => (c :: p) :: ps
           | [] => [[c]]
           end
  end.

(** [s.split(/\r?\n/)]. *)
Fixpoint split_lines (s : list ascii) : list (list ascii) :=
  match s with
  | [] => [[]]
  | c :: r =>
      if Ascii.eqb c LF then [] :: split_lines r
      else if Ascii.eqb c CR && startsWith [LF] r then
        match split_lines r with
        | _ :: ps => [] :: ps
        | [] => [[]]
        end
      else match split_lines r with
           | p :: ps => (c :: p) :: ps
           | [] => [[c]]
           end
  end.

(** [s.replace(p, r)] for a string pattern [p]: the first occurrence only. *)
Fixpoint replaceFirst (p r s : list ascii) : list ascii :=
  match stripPrefix p s with
  | Some rest => r ++ rest
  | None =>
      match s with
      | [] => []
      | c :: s' => c :: replaceFirst p r s'
      end
  end.

(** [s.replace(/p/g, r)] for a pattern [p] that is a fixed, non-empty
    sequence of characters: every occurrence, left to right. *)
Fixpoint replaceAll_fuel (fuel : nat) (p r s : list ascii) : list ascii :=
  match fuel with
  | O => s
  | S fuel' =>
      match s with
      | [] => []
      | c :: s' =>
          match stripPrefix p s with
          | Some rest => r ++ replaceAll_fuel fuel' p r rest
          | None => c :: replaceAll_fuel fuel' p r s'
          end
      end
  end.

Definition replaceAll (p r s : list ascii) : list ascii :=
  replaceAll_fuel (List.length s) p r s.

(** [s.substring(0, n)]. *)
Definition substring0 (n : nat) (s : list ascii) : list ascii := firstn n s.

(** A property key that is an array index: decimal digits without a
    leading zero, of a value below [2^32 - 1]. *)
Fixpoint digits_value (acc : N) (s : string) : option N :=
  match s with
  | EmptyString => Some acc
  | String c rest =>
      let code := N_of_ascii c in
      if ((48 <=? code) && (code <=? 57))%N
      then digits_value (10 * acc + (code - 48))%N rest
      else None
  end.

Definition array_index (key : string) : option N :=
  match key with
  | EmptyString => None
  | String "0"%char EmptyString => Some 0%N
  | String "0"%char _ => None
  | _ =>
      match digits_value 0%N key with
      | Some n => if (n <? 4294967295)%N then Some n else None
      | None => None
      end
  end.

(** Value of a sequence of decimal digits, most significant first. *)
Definition digits_val (ds : list ascii) : Z :=
  fold_left (fun acc c => 10 * acc + digit_of c)%Z ds 0%Z.

(** [m * 10^e] as a rational. *)
Definition scale10 (m e : Z) : Q :=
  if (0 <=? e)%Z then inject_Z (m * 10 ^ e)
  else Qmake m (Z.to_pos (10 ^ (- e))).

(** An optional sign: [(negative, rest)]. *)
Definition scan_sign (s : list ascii) : bool * list ascii :=
  match s with
  | c :: r =>
      if Ascii.eqb c "-"%char then (true, r)
      else if Ascii.eqb c "+"%char then (false, r)
      else (false, s)
  | [] => (false, s)
  end.

(** The exponent part [e], [E] with an optional sign and at least one
    digit; [(0, s)] when there is none. *)
Definition scan_exponent (s : list ascii) : Z * list ascii :=
  match s with
  | c :: r =>
      if Ascii.eqb c "e"%char || Ascii.eqb c "E"%char then
        let '(negative, r1) := scan_sign r in
        let ds := takeWhile isDigit r1 in
        match ds with
        | [] => (0%Z, s)
        | _ =>
            let e := digits_val ds in
            ((if negative then - e else e)%Z, dropWhile isDigit r1)
        end
      else (0%Z, s)
  | [] => (0%Z, s)
  end.

(** The longest prefix of [s] that is an unsigned decimal literal
    (StrUnsignedDecimalLiteral): its value and what follows it. *)
Definition scan_unsigned (s : list ascii) : option (num * list ascii) :=
  match stripPrefix (chars "Infinity") s with
  | Some rest => Some (PInf, rest)
  | None =>
      let ip := takeWhile isDigit s in
      let r1 := dropWhile isDigit s in
      let '(fp, r2) :=
        match r1 with
        | c :: r =>
            if Ascii.eqb c "."%char
            then (takeWhile isDigit r, dropWhile isDigit r)
            else ([], r1)
        | [] => ([], r1)
        end in
      match ip ++ fp with
      | [] => None
      | ds =>
          let '(e, r3) := scan_exponent r2 in
          Some (Fin (scale10 (digits_val ds) (e - Z.of_nat (List.length fp))), r3)
      end
  end.

(** [parseFloat(s)] for a string [s]. *)
Definition parseFloat (s : list ascii) : num :=
  let '(negative, r) := scan_sign (trimStart s) in
  match scan_unsigned r with
  | Some (v, _) => if negative then neg v else v
  | None => NaN
  end.

Definition isHexDigit (c : ascii) : bool :=
  let n := code c in
  (isDigit c || ((65 <=? n) && (n <=? 70)) || ((97 <=? n) && (n <=? 102)))%nat.

Definition hex_of (c : ascii) : Z :=
  let n := code c in
  if isDigit c then digit_of c
  else if (n <=? 70)%nat then Z.of_nat n - 55
  else Z.of_nat n - 87.

Definition radix_val (radix : Z) (digit : ascii -> Z) (ds : list ascii) : Z :=
  fold_left (fun acc c => radix * acc + digit c)%Z ds 0%Z.

Definition strip_hex_prefix (s : list ascii) : option (list ascii) :=
  match stripPrefix (chars "0x") s with
  | Some r => Some r
  | None => stripPrefix (chars "0X") s
  end.

(** [parseInt(s)] for a string [s], no radix given. *)
Definition parseInt (s : list ascii) : num :=
  let '(negative, r) := scan_sign (trimStart s) in
  let v :=
    match strip_hex_prefix r with
    | Some h =>
        match takeWhile isHexDigit h with
        | [] => NaN
        | ds => of_Z (radix_val 16 hex_of ds)
        end
    | None =>
        match takeWhile isDigit r with
        | [] => NaN
        | ds => of_Z (digits_val ds)
        end
    end in
  if negative then neg v else v.

Definition isOctDigit (c : ascii) : bool :=
  let n := code c in ((48 <=? n) && (n <=? 55))%nat.
Definition isBinDigit (c : ascii) : bool :=
  let n := code c in ((48 <=? n) && (n <=? 49))%nat.

Definition all_digits (radix : Z) (ok : ascii -> bool) (digit : ascii -> Z)
    (ds : list ascii) : num :=
  match ds with
  | [] => NaN
  | _ => if forallb ok ds then of_Z (radix_val radix digit ds) else NaN
  end.

(** [Number(s)] for a string [s] (StringToNumber): the whole trimmed
    string must be a numeric literal; the empty string is [0]. *)
Definition toNumber (s : list ascii) : num :=
  let t := trim s in
  match t with
  | [] => Fin 0
  | _ =>
      match strip_hex_prefix t with
      | Some h => all_digits 16 isHexDigit hex_of h
      | None =>
      match stripPrefix (chars "0o") t, stripPrefix (chars "0O") t with
      | Some o, _ | None, Some o => all_digits 8 isOctDigit digit_of o
      | None, None =>
      match stripPrefix (chars "0b") t, stripPrefix (chars "0B") t with
      | Some b, _ | None, Some b => all_digits 2 isBinDigit digit_of b
      | None, None =>
          let '(negative, r) := scan_sign t in
          match scan_unsigned r with
          | Some (v, []) => if negative then neg v else v
          | _ => NaN
          end
      end end end
  end.

(** Decimal rendering of an integer ([String(n)] for an integral [n]). *)
Definition Z_to_chars (z : Z) : list ascii :=
  chars (DecimalString.NilZero.string_of_int (Z.to_int z)).

End JSString.

Export JSString.

(** ** JavaScript values, as [JSON.parse] produces them *)

Module JSValue.

#[local] Unset Elimination Schemes.

Inductive value : Type :=
| VUndefined
| VNull
| VBool (b : bool)
| VNum (n : num)
| VStr (s : string)
| VArr (items : list value)
| VObj (fields : list (string * value)).

#[local] Set Elimination Schemes.

(** [obj.key] on the fields of an object; a missing key is [undefined]. *)
Fixpoint get (key : string) (fields : list (string * value)) : value :=
  match fields with
  | [] => VUndefined
  | (k, v) :: rest => if String.eqb k key then v else get key rest
  end.

(** [v.key] on any parsed value: only objects carry the keys looked up. *)
Definition prop (v : value) (key : string) : value :=
  match v with
  | VObj fields => get key fields
  | _ => VUndefined
  end.

(** [Object.values(obj)]: the fields of an object are kept in the order
    of its own properties ([JSON.set_field]). *)
Definition values (fields : list (string * value)) : list value :=
  map snd fields.

(** Truthiness ([if (v)], [v && ...], [!v]). *)
Definition truthy_value (v : value) : bool :=
  match v with
  | VUndefined | VNull => false
  | VBool b => b
  | VNum n => truthy n
  | VStr s => negb (String.eqb s EmptyString)
  | VArr _ | VObj _ => true
  end.

(** Up to [fuel] digits of the expansion of [r / d], [0 <= r < d]. *)
Fixpoint fraction_digits (fuel : nat) (r d : Z) : list ascii :=
  match fuel with
  | O => []
  | S fuel' =>
      if (r =? 0)%Z then []
      else chr (Z.to_nat (48 + (10 * r) / d)) :: fraction_digits fuel' ((10 * r) mod d) d
  end.

(** [String(n)] for a number in positional notation (JavaScript switches
    to exponent notation below [1e-6] and from [1e21] on; such magnitudes
    are printed positionally here). *)
Definition num_to_chars (n : num) : list ascii :=
  match n with
  | NaN => chars "NaN"
  | PInf => chars "Infinity"
  | NInf => chars "-Infinity"
  | Fin q =>
      let d := Zpos (Qden q) in
      let a := Z.abs (Qnum q) in
      let sign := if (Qnum q <? 0)%Z then chars "-" else [] in
      let frac := fraction_digits 20 (a mod d) d in
      sign ++ Z_to_chars (a / d) ++
      match frac with [] => [] | _ => "."%char :: frac end
  end.

Fixpoint join (sep : list ascii) (parts : list (list ascii)) : list ascii :=
  match parts with
  | [] => []
  | [p] => p
  | p :: rest => p ++ sep ++ join sep rest
  end.

(** [String(v)]. *)
Fixpoint toString (v : value) : list ascii :=
  match v with
  | VUndefined => chars "undefined"
  | VNull => chars "null"
  | VBool true => chars "true"
  | VBool false => chars "false"
  | VNum n => num_to_chars n
  | VStr s => chars s
  | VArr items =>
      join (chars ",")
        (map (fun item =>
                match item with
                | VUndefined | VNull => []
                | _ => toString item
                end) items)
  | VObj _ => chars "[object Object]"
  end.


(** [Number(v)] (ToNumber). *)
Definition toNumber_value (v : value) : num :=
  match v with
  | VUndefined => NaN
  | VNull => Fin 0
  | VBool b => if b then Fin 1 else Fin 0
  | VNum n => n
  | VStr s => toNumber (chars s)
  | VArr _ => toNumber (toString v)
  | VObj _ => NaN
  end.

(** [v || d]. *)
Definition or_value (v d : value) : value :=
  if truthy_value v then v else d.

(** [list.sort(cmp)], stable: [after x y] says that [cmp(x, y) > 0]. *)
Section Sort.
Variable A : Type.
Variable after : A -> A -> bool.

Fixpoint sort_insert (x : A) (l : list A) : list A :=
  match l with
  | [] => [x]
  | y :: rest => if after x y then y :: sort_insert x rest else x :: l
  end.

Definition js_sort (l : list A) : list A := fold_right sort_insert [] l.
End Sort.

End JSValue.

Export JSValue.

(** ** [JSON.parse] *)

Module JSON.

(** JSON white space: space, tab, line feed, carriage return. *)
Definition isWs (c : ascii) : bool :=
  let n := code c in ((n =? 32) || (n =? 9) || (n =? 10) || (n =? 13))%nat.

Definition skip_ws (s : list ascii) : list ascii := dropWhile isWs s.

(** Four hexadecimal digits of a [\u] escape; code points past the 8-bit
    range are kept as a question mark. *)
Definition unicode_escape (s : list ascii) : option (ascii * list ascii) :=
  match s with
  | a :: b :: c :: d :: rest =>
      if forallb isHexDigit [a; b; c; d] then
        let n := Z.to_nat (radix_val 16 hex_of [a; b; c; d]) in
        Some (if (n <? 256)%nat then chr n else "?"%char, rest)
      else None
  | _ => None
  end.

(** The characters of a string literal after its opening quote, up to
    and including the closing quote. *)
Fixpoint string_body (fuel : nat) (s acc : list ascii) : option (list ascii * list ascii) :=
  match fuel with
  | O => None
  | S fuel' =>
      match s with
      | [] => None
      | c :: r =>
          if Ascii.eqb c dquote then Some (List.rev acc, r)
          else if Ascii.eqb c backslash then
            match r with
            | e :: r' =>
                let simple (x : ascii) := string_body fuel' r' (x :: acc) in
                if Ascii.eqb e dquote then simple dquote
                else if Ascii.eqb e backslash then simple backslash
                else if Ascii.eqb e "/"%char then simple "/"%char
                else if Ascii.eqb e "b"%char then simple (chr 8)
                else if Ascii.eqb e "f"%char then simple (chr 12)
                else if Ascii.eqb e "n"%char then simple LF
                else if Ascii.eqb e "r"%char then simple CR
                else if Ascii.eqb e "t"%char then simple (chr 9)
                else if Ascii.eqb e "u"%char then
                  match unicode_escape r' with
                  | Some (x, r'') => string_body fuel' r'' (x :: acc)
                  | None => None
                  end
                else None
            | [] => None
            end
          else if (code c <? 32)%nat then None
          else string_body fuel' r (c :: acc)
      end
  end.

Definition parse_string (s : list ascii) : option (list ascii * list ascii) :=
  string_body (S (List.length s)) s [].

(** The range of binary64: a literal at or above [2^1024 - 2^970] in
    magnitude is read as an infinity, one at or below [2^-1075] as [0]. *)
Definition overflow_threshold : Q := inject_Z (2 ^ 1024 - 2 ^ 970).
Definition underflow_threshold : Q := Qmake 1 (2 ^ 1075).

Definition in_range (q : Q) : num :=
  if Qle_bool overflow_threshold (Qabs q)
  then (if Qltb q 0 then NInf else PInf)
  else if Qle_bool (Qabs q) underflow_threshold then Fin 0
  else Fin q.

(** A JSON number: an optional minus sign, an integer part without
    leading zeros, an optional fraction and an optional exponent. *)
Definition parse_number (s : list ascii) : option (num * list ascii) :=
  let '(negative, r) :=
    match s with
    | c :: r => if Ascii.eqb c "-"%char then (true, r) else (false, s)
    | [] => (false, s)
    end in
  let ip := takeWhile isDigit r in
  let r1 := dropWhile isDigit r in
  let int_ok :=
    match ip with
    | [] => false
    | [_] => true
    | c :: _ => negb (Ascii.eqb c "0"%char)
    end in
  if negb int_ok then None
  else
    let frac :=
      match r1 with
      | c :: r2 =>
          if Ascii.eqb c "."%char then
            match takeWhile isDigit r2 with
            | [] => None
            | fp => Some (fp, dropWhile isDigit r2)
            end
          else Some ([], r1)
      | [] => Some ([], r1)
      end in
    match frac with
    | None => None
    | Some (fp, r3) =>
        let exponent :=
          match r3 with
          | c :: r4 =>
              if Ascii.eqb c "e"%char || Ascii.eqb c "E"%char then
                let '(eneg, r5) := scan_sign r4 in
                match takeWhile isDigit r5 with
                | [] => None
                | ds => Some ((if eneg then - digits_val ds else digits_val ds)%Z,
                              dropWhile isDigit r5)
                end
              else Some (0%Z, r3)
          | [] => Some (0%Z, r3)
          end in
        match exponent with
        | None => None
        | Some (e, rest) =>
            let q := scale10 (digits_val (ip ++ fp)) (e - Z.of_nat (List.length fp)) in
            Some (in_range (if negative then - q else q), rest)
        end
    end.

(** The order of the own properties of an object: the array indices in
    ascending order, then the other keys in the order of their creation.
    [comes_before k k'] says that a new key [k] takes its place before
    the key [k'] that is there. *)
Definition comes_before (k k' : string) : bool :=
  match array_index k, array_index k' with
  | Some m, Some n => (m <? n)%N
  | Some _, None => true
  | None, _ => false
  end.

(** Assignment of a property: a key that is already there keeps its
    place and takes the new value; a new key takes its place in the
    order of the properties. *)
Fixpoint set_field (k : string) (v : value) (fields : list (string * value))
  : list (string * value) :=
  match fields with
  | [] => [(k, v)]
  | (k', v') :: rest =>
      if String.eqb k' k then (k', v) :: rest
      else if comes_before k k' then (k, v) :: fields
      else (k', v') :: set_field k v rest
  end.

Fixpoint parse_value (fuel : nat) (s : list ascii) {struct fuel}
  : option (value * list ascii) :=
  match fuel with
  | O => None
  | S f =>
      match skip_ws s with
      | [] => None
      | c :: r =>
          if Ascii.eqb c "{"%char then
            match skip_ws r with
            | c' :: r' =>
                if Ascii.eqb c' "}"%char then Some (VObj [], r')
                else parse_members f (c' :: r') []
            | [] => None
            end
          else if Ascii.eqb c "["%char then
            match skip_ws r with
            | c' :: r' =>
                if Ascii.eqb c' "]"%char then Some (VArr [], r')
                else parse_elements f (c' :: r') []
            | [] => None
            end
          else if Ascii.eqb c dquote then
            match parse_string r with
            | Some (body, rest) => Some (VStr (str body), rest)
            | None => None
            end
          else
            match stripPrefix (chars "true") (c :: r),
                  stripPrefix (chars "false") (c :: r),
                  stripPrefix (chars "null") (c :: r) with
            | Some rest, _, _ => Some (VBool true, rest)
            | _, Some rest, _ => Some (VBool false, rest)
            | _, _, Some rest => Some (VNull, rest)
            | None, None, None =>
                match parse_number (c :: r) with
                | Some (n, rest) => Some (VNum n, rest)
                | None => None
                end
            end
      end
  end
with parse_elements (fuel : nat) (s : list ascii) (acc : list value) {struct fuel}
  : option (value * list ascii) :=
  match fuel with
  | O => None
  | S f =>
      match parse_value f s with
      | Some (v, r) =>
          match skip_ws r with
          | c :: r' =>
              if Ascii.eqb c ","%char then parse_elements f r' (v :: acc)
              else if Ascii.eqb c "]"%char then Some (VArr (List.rev (v :: acc)), r')
              else None
          | [] => None
          end
      | None => None
      end
  end
with parse_members (fuel : nat) (s : list ascii) (acc : list (string * value))
    {struct fuel} : option (value * list ascii) :=
  match fuel with
  | O => None
  | S f =>
      match skip_ws s with
      | c :: r =>
          if Ascii.eqb c dquote then
            match parse_string r with
            | Some (k, r1) =>
                match skip_ws r1 with
                | c1 :: r2 =>
                    if Ascii.eqb c1 ":"%char then
                      match parse_value f r2 with
                      | Some (v, r3) =>
                          let acc' := set_field (str k) v acc in
                          match skip_ws r3 with
                          | c3 :: r4 =>
                              if Ascii.eqb c3 ","%char then parse_members f r4 acc'
                              else if Ascii.eqb c3 "}"%char then Some (VObj acc', r4)
                              else None
                          | [] => None
                          end
                      | None => None
                      end
                    else None
                | [] => None
                end
            | None => None
            end
          else None
      | [] => None
      end
  end.

(** [JSON.parse(s)]; [None] when it throws a [SyntaxError]. *)
Definition parse (s : list ascii) : option value :=
  match parse_value (2 * List.length s + 2) s with
  | Some (v, rest) =>
      match skip_ws rest with
      | [] => Some v
      | _ => None
      end
  | None => None
  end.

End JSON.

(** ** The clip extractor of [server.js] ([IndustryStandardVideoExtractor]) *)

Module Extractor.

(** [CLIP_CONFIG]. *)
(** [0.05], as the binary64 number the literal denotes. *)
Definition MIN_RELEVANCE_SCORE : float := 0x1.999999999999ap-5%float.
Definition MIN_LLM_SCORE : num := Fin (4 # 10).
Definition MIN_DURATION : num := Fin 5.
Definition MAX_DURATION : num := Fin 90.
Definition MAX_CLIPS : nat := 4.
Definition CONTEXT_BUFFER : num := Fin 3.

(** *** Time strings *)

(** [/^\d+(\.\d+)?$/.test(s)]. *)
Definition pure_number (s : list ascii) : bool :=
  match takeWhile isDigit s, dropWhile isDigit s with
  | [], _ => false
  | _ :: _, [] => true
  | _ :: _, c :: r =>
      Ascii.eqb c "."%char &&
      match r with
      | [] => false
      | _ => forallb isDigit r
      end
  end.

(** [parseFloat(part || 0)] and [parseInt(part || '0')]. *)
Definition parseFloat_or0 (part : list ascii) : num :=
  match part with [] => Fin 0 | _ => parseFloat part end.

Definition parseInt_or0 (part : list ascii) : num :=
  match part with [] => parseInt (chars "0") | _ => parseInt part end.

(** The positional decomposition of a colon-separated time string. *)
Definition decompose (parts : list (list ascii)) : num :=
  match parts with
  | [p0] => parseFloat_or0 p0
  | [p0; p1] =>
      let minutes := parseInt_or0 p0 in
      let secs := parseFloat_or0 p1 in
      (minutes * Fin 60 + secs)%num
  | [p0; p1; p2] =>
      let hours := parseInt_or0 p0 in
      let minutes := parseInt_or0 p1 in
      let secs := parseFloat_or0 p2 in
      (hours * Fin 3600 + minutes * Fin 60 + secs)%num
  | _ => Fin 0
  end.

Definition timeToSeconds (timeStr : value) : num :=
  match timeStr with
  | VNum n => max (Fin 0) n
  | _ =>
      if negb (truthy_value timeStr) then Fin 0
      else
        let s := trim (toString timeStr) in
        if pure_number s then max (Fin 0) (parseFloat s)
        else
          let seconds := decompose (split_on ":"%char s) in
          let result := max (Fin 0) seconds in
          if isNaN result then Fin 0 else result
  end.



(** *** Transcript entries and the three parsing strategies *)

Record TranscriptEntry : Type := mkEntry {
  text : string;
  start : num;
  end_ : num;
  confidence : value
}.

(** [obj.confidence || 1.0]. *)
Definition confidence_or (v : value) (d : num) : value :=
  if truthy_value v then v else VNum d.

Definition trim_string (s : string) : string := str (trim (chars s)).

(** [obj.text && obj.start && obj.end] as a condition. *)
Definition has_triple (fields : list (string * value)) : bool :=
  truthy_value (get "text" fields) &&
  truthy_value (get "start" fields) &&
  truthy_value (get "end" fields).

(** The walker pushes onto the caller's array; a [TypeError] (calling
    [trim] on a [text] that is not a string) leaves what was pushed so
    far in place.  The result pairs the array with whether it threw. *)
Fixpoint extractTimestampsFromObject (obj : value) (timestamps : list TranscriptEntry)
    {struct obj} : list TranscriptEntry * bool :=
  match obj with
  | VArr items =>
      (fix each (l : list value) (ts : list TranscriptEntry) :=
         match l with
         | [] => (ts, false)
         | item :: rest =>
             let '(ts', threw) := extractTimestampsFromObject item ts in
             if threw then (ts', true) else each rest ts'
         end) items timestamps
  | VObj fields =>
      if has_triple fields then
        let startTime := timeToSeconds (get "start" fields) in
        let endTime := timeToSeconds (get "end" fields) in
        if (startTime >=? Fin 0)%num && (endTime >? startTime)%num then
          match get "text" fields with
          | VStr t =>
              if (0 <? List.length (trim (chars t)))%nat then
                (timestamps ++
                   [mkEntry (trim_string t) startTime endTime
                      (confidence_or (get "confidence" fields) (Fin 1))],
                 false)
              else (timestamps, false)
          | _ => (timestamps, true)
          end
        else (timestamps, false)
      else
        (fix each (l : list (string * value)) (ts : list TranscriptEntry) :=
           match l with
           | [] => (ts, false)
           | (_, v) :: rest =>
               let '(ts', threw) := extractTimestampsFromObject v ts in
               if threw then (ts', true) else each rest ts'
           end) fields timestamps
  | _ => (timestamps, false)
  end.

(** [timestamps.sort((a, b) => a.start - b.start)]. *)
Definition sort_by_start (l : list TranscriptEntry) : list TranscriptEntry :=
  js_sort (fun a b => (Fin 0 <? start a - start b)%num) l.

(** The first [c] of [s]: what precedes it and what follows it. *)
Fixpoint break_at (c : ascii) (s : list ascii) : option (list ascii * list ascii) :=
  match s with
  | [] => None
  | x :: r =>
      if Ascii.eqb x c then Some ([], r)
      else match break_at c r with
           | Some (before, after) => Some (x :: before, after)
           | None => None
           end
  end.

(** [s.match(/\[.*?\]|\{.*?\}/gs)]: the bracketed substrings, each from
    an opening bracket to the nearest closing one of its kind, left to
    right without overlap. *)
Fixpoint bracketed_fuel (fuel : nat) (s : list ascii) : list (list ascii) :=
  match fuel with
  | O => []
  | S fuel' =>
      match s with
      | [] => []
      | c :: r =>
          let closing :=
            if Ascii.eqb c "["%char then Some "]"%char
            else if Ascii.eqb c "{"%char then Some "}"%char
            else None in
          match closing with
          | Some close =>
              match break_at close r with
              | Some (inside, after) =>
                  (c :: inside ++ [close]) :: bracketed_fuel fuel' after
              | None => bracketed_fuel fuel' r
              end
          | None => bracketed_fuel fuel' r
          end
      end
  end.

Definition bracketed (s : list ascii) : list (list ascii) :=
  bracketed_fuel (List.length s) s.

(** The three clean-up replacements of [parseDirectJSON]. *)
Definition clean_content (content : list ascii) : list ascii :=
  let s1 := replaceAll [backslash; dquote] [dquote] content in
  let s2 := replaceAll [backslash; "r"%char; backslash; "n"%char] [] s1 in
  replaceAll [backslash; backslash] [backslash] s2.

Definition parseDirectJSON (content : list ascii) : list TranscriptEntry :=
  let timestamps :=
    fold_left
      (fun ts m =>
         match JSON.parse m with
         | Some parsed => fst (extractTimestampsFromObject parsed ts)
         | None => ts
         end)
      (bracketed (clean_content content)) [] in
  sort_by_start timestamps.

(** One field pattern (the quoted key, a colon, optional white space and
    a quoted, non-empty run of characters other than the quote) matched
    at the head of [s]: the captured run and what follows the match. *)
Definition notQuote (c : ascii) : bool := negb (Ascii.eqb c dquote).

Definition field_at (key : string) (s : list ascii) : option (list ascii * list ascii) :=
  match stripPrefix (dquote :: chars key ++ [dquote; ":"%char]) s with
  | Some r =>
      match dropWhile isSpace r with
      | q :: r1 =>
          if Ascii.eqb q dquote then
            match takeWhile notQuote r1, dropWhile notQuote r1 with
            | (_ :: _) as captured, _ :: after => Some (captured, after)
            | _, _ => None
            end
          else None
      | [] => None
      end
  | None => None
  end.

(** The first match of the field pattern anywhere in the line: its
    captured run. *)
Fixpoint find_field (key : string) (s : list ascii) : option (list ascii) :=
  match field_at key s with
  | Some (captured, _) => Some captured
  | None =>
      match s with
      | [] => None
      | _ :: r => find_field key r
      end
  end.

Definition extractFromPartialLine (line : list ascii) (timestamps : list TranscriptEntry)
  : list TranscriptEntry :=
  match find_field "text" line, find_field "start" line, find_field "end" line with
  | Some textMatch, Some startMatch, Some endMatch =>
      timestamps ++
        [mkEntry (str (trim textMatch))
           (timeToSeconds (VStr (str startMatch)))
           (timeToSeconds (VStr (str endMatch)))
           (VNum (Fin (7 # 10)))]
  | _, _, _ => timestamps
  end.

(** [trimmed.replace(/,$/, '')]. *)
Definition drop_trailing_comma (s : list ascii) : list ascii :=
  match List.rev s with
  | c :: r => if Ascii.eqb c ","%char then List.rev r else s
  | [] => s
  end.

(** The body of the loop of [parseJSONStream] for one line. *)
Definition parseJSONStream_line (timestamps : list TranscriptEntry) (line : list ascii)
  : list TranscriptEntry :=
  let trimmed := trim line in
  match trimmed with
  | [] => timestamps
  | _ =>
      if negb (includes (chars (qq "'text'")) trimmed) &&
         negb (includes (chars (qq "'start'")) trimmed)
      then timestamps
      else
        match JSON.parse (drop_trailing_comma trimmed) with
        | Some VNull => extractFromPartialLine trimmed timestamps
        | Some obj =>
            if truthy_value (prop obj "text") &&
               truthy_value (prop obj "start") &&
               truthy_value (prop obj "end")
            then
              match prop obj "text" with
              | VStr t =>
                  timestamps ++
                    [mkEntry (trim_string t)
                       (timeToSeconds (prop obj "start"))
                       (timeToSeconds (prop obj "end"))
                       (confidence_or (prop obj "confidence") (Fin 1))]
              | _ => extractFromPartialLine trimmed timestamps
              end
            else timestamps
        | None => extractFromPartialLine trimmed timestamps
        end
  end.

Definition parseJSONStream (content : list ascii) : list TranscriptEntry :=
  sort_by_start (fold_left parseJSONStream_line (split_lines content) []).

(** The pattern of [parseWithValidation] matched at the head of [s]. *)
Definition triple_at (s : list ascii)
  : option (list ascii * list ascii * list ascii * list ascii) :=
  match field_at "text" s with
  | Some (t, r1) =>
      match r1 with
      | c1 :: r2 =>
          if Ascii.eqb c1 ","%char then
            match field_at "start" (dropWhile isSpace r2) with
            | Some (st, r3) =>
                match r3 with
                | c3 :: r4 =>
                    if Ascii.eqb c3 ","%char then
                      match field_at "end" (dropWhile isSpace r4) with
                      | Some (en, r5) => Some (t, st, en, r5)
                      | None => None
                      end
                    else None
                | [] => None
                end
            | None => None
            end
          else None
      | [] => None
      end
  | None => None
  end.

Fixpoint parseWithValidation_fuel (fuel : nat) (s : list ascii)
    (timestamps : list TranscriptEntry) : list TranscriptEntry :=
  match fuel with
  | O => timestamps
  | S fuel' =>
      match triple_at s with
      | Some (t, st, en, rest) =>
          let startTime := timeToSeconds (VStr (str st)) in
          let endTime := timeToSeconds (VStr (str en)) in
          parseWithValidation_fuel fuel' rest
            (if (startTime >=? Fin 0)%num && (endTime >? startTime)%num &&
                (0 <? List.length (trim t))%nat
             then timestamps ++
                    [mkEntry (str (trim t)) startTime endTime (VNum (Fin (8 # 10)))]
             else timestamps)
      | None =>
          match s with
          | [] => timestamps
          | _ :: r => parseWithValidation_fuel fuel' r timestamps
          end
      end
  end.

Definition parseWithValidation (content : list ascii) : list TranscriptEntry :=
  sort_by_start (parseWithValidation_fuel (S (List.length content)) content []).

Definition parseTimestampsRobustly (content : string) : list TranscriptEntry :=
  let c := chars content in
  match parseDirectJSON c with
  | (_ :: _) as timestamps => timestamps
  | [] =>
      match parseJSONStream c with
      | (_ :: _) as streamParsed => streamParsed
      | [] => parseWithValidation c
      end
  end.


(** *** The video-file resolver *)

Definition videoExtensions : list string :=
  [".mp4"; ".avi"; ".mov"; ".mkv"; ".webm"]%string.

(** [videoExtensions.some(ext => file.toLowerCase().endsWith(ext))]. *)
Definition isVideoFile (file : string) : bool :=
  existsb (fun ext => endsWith (chars ext) (toLowerCase (chars file))) videoExtensions.

(** [findAllVideoFiles]: the directory listing ([None] when [readdir]
    fails) filtered by extension. *)
Definition findAllVideoFiles (readdir : option (list string)) : list string :=
  match readdir with
  | Some files => filter isVideoFile files
  | None => []
  end.

(** [file.replace(/\.(mp4|avi|mov|mkv|webm)$/i, '')]. *)
Definition strip_video_extension (file : list ascii) : list ascii :=
  match find (fun ext => endsWith (chars ext) (toLowerCase file)) videoExtensions with
  | Some ext => firstn (List.length file - String.length ext) file
  | None => file
  end.

(** The last path segment of the URI without its first [_sentences.json]. *)
Definition s3Filename (s3Uri : string) : list ascii :=
  replaceFirst (chars "_sentences.json") []
    (last (split_on "/"%char (chars s3Uri)) []).

Definition findVideoFile (readdir : option (list string)) (s3Uri : option string)
  : option string :=
  match s3Uri with
  | None => None
  | Some uri =>
      if String.eqb uri EmptyString then None
      else
        find (fun file =>
                ascii_list_eqb (strip_video_extension (chars file)) (s3Filename uri))
          (findAllVideoFiles readdir)
  end.


(** *** Cosine similarity (binary64 arithmetic) *)

(** What [cosineSimilarity] does after its guard: it either returns [0]
    at once or evaluates the quotient [dot / denominator]. *)
Inductive CosineStep : Type :=
| ReturnZero
| Divide (dotProduct denominator : float).

(** The loop over the indices of [a]. *)
Fixpoint cosine_loop (a b : list float) (dotProduct normA normB : float)
  : float * float * float :=
  match a, b with
  | x :: a', y :: b' =>
      cosine_loop a' b' (dotProduct + x * y)%float (normA + x * x)%float
        (normB + y * y)%float
  | _, _ => (dotProduct, normA, normB)
  end.

(** A vector is [None] when it is [null] or [undefined]. *)
Definition cosine_step (a b : option (list float)) : CosineStep :=
  match a, b with
  | Some va, Some vb =>
      if negb (List.length va =? List.length vb)%nat then ReturnZero
      else
        let '(dotProduct, normA, normB) := cosine_loop va vb 0%float 0%float 0%float in
        Divide dotProduct (PrimFloat.sqrt normA * PrimFloat.sqrt normB)%float
  | _, _ => ReturnZero
  end.

Definition cosineSimilarity (a b : option (list float)) : float :=
  match cosine_step a b with
  | ReturnZero => 0%float
  | Divide dotProduct denominator => (dotProduct / denominator)%float
  end.

(** The rational (or special value) a binary64 number denotes. *)
Definition num_of_float (f : float) : num :=
  match Prim2SF f with
  | S754_zero _ => Fin 0
  | S754_infinity negative => if negative then NInf else PInf
  | S754_nan => NaN
  | S754_finite negative m e =>
      let z := if negative then Zneg m else Zpos m in
      Fin (if (0 <=? e)%Z then inject_Z (z * 2 ^ e)
           else Qmake z (Z.to_pos (2 ^ (- e))))
  end.


(** *** Segments (windows) *)

Module Segment.
Record t : Type := mk {
  timestamps : list TranscriptEntry;
  similarity : num;
  text : string;
  startTime : num;
  endTime : num
}.
End Segment.

Definition space : list ascii := [chr 32].

(** [window.map(t => t.text).join(' ')]. *)
Definition joined_text (window : list TranscriptEntry) : string :=
  str (join space (map (fun t => chars (text t)) window)).

(** [window[0].start] and [window[window.length - 1].end]; reading a
    field of a missing element does not arise: windows are non-empty. *)
Definition first_start (window : list TranscriptEntry) : num :=
  match window with
  | t :: _ => start t
  | [] => NaN
  end.

Definition last_end (window : list TranscriptEntry) : num :=
  match List.rev window with
  | t :: _ => end_ t
  | [] => NaN
  end.

Fixpoint chunks (fuel size : nat) (l : list TranscriptEntry)
  : list (list TranscriptEntry) :=
  match fuel with
  | O => []
  | S fuel' =>
      match l with
      | [] => []
      | _ => firstn size l :: chunks fuel' size (skipn size l)
      end
  end.

Definition createFallbackSegments (timestamps : list TranscriptEntry) : list Segment.t :=
  map (fun window =>
         Segment.mk window (Fin (1 # 2)) (joined_text window)
           (first_start window) (last_end window))
    (chunks (List.length timestamps) 8 timestamps).

(** [Math.min(...l)] and [Math.max(...l)]. *)
Definition min_of (l : list num) : num := fold_left min l PInf.
Definition max_of (l : list num) : num := fold_left max l NInf.

(** A window is kept when it holds more than one entry and spans time. *)
Definition window_ok (currentWindow : list TranscriptEntry) : bool :=
  (1 <? List.length currentWindow)%nat &&
  (max_of (map end_ currentWindow) >? min_of (map start currentWindow))%num.

(** [!windowStart]: no start yet, or a start that is [0]. *)
Definition no_windowStart (windowStart : option num) : bool :=
  match windowStart with
  | None => true
  | Some n => negb (truthy n)
  end.

(** The state of the loop of [createSlidingWindows]: the windows so far,
    the current window and its start. *)
Definition sliding_step (windowDuration : num)
    (st : list (list TranscriptEntry) * list TranscriptEntry * option num)
    (timestamp : TranscriptEntry)
  : list (list TranscriptEntry) * list TranscriptEntry * option num :=
  let '(windows, currentWindow, windowStart) := st in
  if (end_ timestamp <=? start timestamp)%num then st
  else if no_windowStart windowStart then
    (windows, [timestamp], Some (start timestamp))
  else
    let ws := match windowStart with Some n => n | None => NaN end in
    if (start timestamp - ws <=? windowDuration)%num then
      (windows, currentWindow ++ [timestamp], windowStart)
    else
      ((if window_ok currentWindow then windows ++ [currentWindow] else windows),
       [timestamp], Some (start timestamp)).

Definition createSlidingWindows (timestamps : list TranscriptEntry) (windowDuration : num)
  : list (list TranscriptEntry) :=
  let sortedTimestamps := sort_by_start timestamps in
  let '(windows, currentWindow, _) :=
    fold_left (sliding_step windowDuration) sortedTimestamps ([], [], None) in
  if window_ok currentWindow then windows ++ [currentWindow] else windows.

(** *** Clips *)

Module Clip.
Record t : Type := mk {
  title : value;
  description : value;
  videoPath : string;
  startTime : num;
  endTime : num;
  transcript : option string;
  relevanceScore : value;
  qualityScore : value;
  keyTopics : value;
  sourceId : string;
  aiGenerated : bool;
  reasoning : value;
  isFallback : bool
}.
End Clip.

(** An element of the array the curator returns.  The ranking step
    reads [clips[index]] for whatever the LLM gave as an index: that is
    a clip when the index names a position of the array, and otherwise
    whatever the name finds on the array, its length or a property it
    inherits, which is not a clip and is returned all the same. *)
Inductive Selected : Type :=
| SelectedClip (clip : Clip.t)
| ArrayLength (n : nat)
| InheritedProperty (name : string).

(** [item.isFallback] as a condition: a number and an inherited
    property have no such field. *)
Definition item_isFallback (item : Selected) : bool :=
  match item with
  | SelectedClip clip => Clip.isFallback clip
  | _ => false
  end.

Definition isSentenceEnd (c : ascii) : bool :=
  Ascii.eqb c "."%char || Ascii.eqb c "!"%char || Ascii.eqb c "?"%char.

(** [text.split(/[.!?]+/)]. *)
Fixpoint split_sentences (fuel : nat) (s cur : list ascii) : list (list ascii) :=
  match fuel with
  | O => [List.rev cur]
  | S fuel' =>
      match s with
      | [] => [List.rev cur]
      | c :: r =>
          if isSentenceEnd c
          then List.rev cur :: split_sentences fuel' (dropWhile isSentenceEnd r) []
          else split_sentences fuel' r (c :: cur)
      end
  end.

Definition ellipsis : list ascii := chars "...".

Definition generateFallbackTitle (text : string) : string :=
  let t := chars text in
  let sentences :=
    filter (fun s => (10 <? List.length (trim s))%nat)
      (split_sentences (List.length t) t []) in
  match sentences with
  | s :: _ =>
      let sentence := trim s in
      if (60 <? List.length sentence)%nat
      then str (substring0 60 sentence ++ ellipsis)
      else str sentence
  | [] => str (substring0 60 t ++ ellipsis)
  end.

Definition generateFallbackDescription (text : string) : string :=
  let t := chars text in
  if (200 <? List.length t)%nat then str (substring0 200 t ++ ellipsis) else text.

Definition videos_path (videoFile : string) : string :=
  ("/videos/" ++ videoFile)%string.

Definition createBasicClip (segment : Segment.t) (videoFile : string) : Clip.t :=
  Clip.mk
    (VStr (generateFallbackTitle (Segment.text segment)))
    (VStr (generateFallbackDescription (Segment.text segment)))
    (videos_path videoFile)
    (max (Fin 0) (Segment.startTime segment - Fin 2))
    (Segment.endTime segment + Fin 2)
    (Some (Segment.text segment))
    (VNum (or_default (Segment.similarity segment) (Fin (1 # 2))))
    VUndefined VUndefined videoFile false VUndefined false.

(** [analysis?.field || fallback]. *)
Definition field_or (analysis : value) (key : string) (fallback : value) : value :=
  or_value (prop analysis key) fallback.

Definition createValidClip (segment : Segment.t) (videoFile : string)
    (transcript : string) (analysis : value) : Clip.t :=
  let finalStart := max (Fin 0) (Segment.startTime segment - CONTEXT_BUFFER) in
  let finalEnd := (Segment.endTime segment + CONTEXT_BUFFER)%num in
  Clip.mk
    (field_or analysis "title" (VStr (generateFallbackTitle transcript)))
    (field_or analysis "description" (VStr (generateFallbackDescription transcript)))
    (videos_path videoFile)
    finalStart finalEnd (Some transcript)
    (field_or analysis "relevance_score" (VNum (Fin (7 # 10))))
    (field_or analysis "quality_score" (VNum (Fin (7 # 10))))
    (field_or analysis "key_topics" (VArr []))
    videoFile true
    (VStr "Used original timestamps due to optimization failure")
    false.

(** [enhanceClipWithLLM] once the reply of the LLM, [analysis], is in:
    [hasClient] says whether a Bedrock client is configured.  [None] is
    the [null] of a rejected segment. *)
Definition enhanceClipWithLLM (hasClient : bool) (analysis : value)
    (segment : Segment.t) (videoFile : string) : option Clip.t :=
  if negb hasClient then Some (createBasicClip segment videoFile)
  else
    let transcript := Segment.text segment in
    let duration := (Segment.endTime segment - Segment.startTime segment)%num in
    if (duration <=? Fin 0)%num then None
    else if negb (truthy_value analysis) then None
    else if truthy_value (prop analysis "include_clip") &&
            (toNumber_value (prop analysis "relevance_score") >=? MIN_LLM_SCORE)%num
    then
      let rawStartOffset :=
        max (Fin 0)
          (toNumber_value (or_value (prop analysis "optimal_start_offset") (VNum (Fin 0)))) in
      let rawEndOffset :=
        max (Fin 0)
          (toNumber_value (or_value (prop analysis "optimal_end_offset") (VNum (Fin 0)))) in
      let maxOffset := max (Fin 0) (duration - Fin 5) in
      let startOffset := min rawStartOffset maxOffset in
      let endOffset := min rawEndOffset maxOffset in
      let optimizedStart := (Segment.startTime segment + startOffset)%num in
      let optimizedEnd := (Segment.endTime segment - endOffset)%num in
      if (optimizedEnd <=? optimizedStart)%num
      then Some (createValidClip segment videoFile transcript analysis)
      else
        let finalStart := max (Fin 0) (optimizedStart - CONTEXT_BUFFER) in
        let finalEnd := (optimizedEnd + CONTEXT_BUFFER)%num in
        Some (Clip.mk
                (field_or analysis "title" (VStr (generateFallbackTitle transcript)))
                (field_or analysis "description"
                   (VStr (generateFallbackDescription transcript)))
                (videos_path videoFile)
                finalStart finalEnd (Some transcript)
                (prop analysis "relevance_score")
                (prop analysis "quality_score")
                (field_or analysis "key_topics" (VArr []))
                videoFile true
                (prop analysis "reasoning")
                false)
    else None.


(** *** Collaborators *)

(** What the extractor calls but does not implement.  [judge] and
    [select] stand for [callClaudeViaAWS] on the prompt built from their
    arguments: the per-segment judgment and the ranking, each the value
    the call returns (the parsed reply, or the object the call falls
    back on when it fails).  [arrayInherits name] says whether the
    arrays of the runtime inherit a property of that name (a method of
    [Array.prototype] or of [Object.prototype]). *)
Record Collaborators : Type := {
  hasClient : bool;
  readdir : option (list string);
  getAWSEmbedding : string -> option (list float);
  judge : string -> string -> Segment.t -> value;
  select : string -> string -> list Clip.t -> value;
  arrayInherits : string -> bool
}.

(** *** The segmenter *)

Definition createSemanticSegments (env : Collaborators)
    (timestamps : list TranscriptEntry) (query : string) : list Segment.t :=
  if negb (hasClient env) then createFallbackSegments timestamps
  else
    match getAWSEmbedding env query with
    | None => createFallbackSegments timestamps
    | Some queryEmbedding =>
        let windows := createSlidingWindows timestamps (Fin 45) in
        let scoredWindows :=
          flat_map
            (fun window =>
               let text := joined_text window in
               match getAWSEmbedding env text with
               | Some embedding =>
                   let similarity :=
                     cosineSimilarity (Some queryEmbedding) (Some embedding) in
                   if PrimFloat.ltb MIN_RELEVANCE_SCORE similarity
                   then [Segment.mk window (num_of_float similarity) text
                           (first_start window) (last_end window)]
                   else []
               | None => []
               end)
            windows in
        firstn 6
          (js_sort (fun a b =>
                      (Fin 0 <? Segment.similarity b - Segment.similarity a)%num)
             scoredWindows)
    end.

(** *** The curator *)

Record Reference : Type := {
  content_text : option string;
  s3Uri : option string
}.

Record Event : Type := { retrievedReferences : option (list Reference) }.
Record Trace : Type := { all_events : option (list Event) }.

Definition extractStructuredReferences (trace : Trace) : list Reference :=
  match all_events trace with
  | Some events =>
      flat_map (fun event =>
                  match retrievedReferences event with
                  | Some kbRefs => kbRefs
                  | None => []
                  end) events
  | None => []
  end.

(** The clips of one reference. *)
Definition reference_clips (env : Collaborators) (userQuery agentResponse : string)
    (ref : Reference) : list Clip.t :=
  match content_text ref, s3Uri ref with
  | Some content, Some uri =>
      if String.eqb content EmptyString || String.eqb uri EmptyString then []
      else
        match parseTimestampsRobustly content with
        | [] => []
        | timestamps =>
            match findVideoFile (readdir env) (Some uri) with
            | None => []
            | Some videoFile =>
                flat_map
                  (fun segment =>
                     match enhanceClipWithLLM (hasClient env)
                             (judge env userQuery agentResponse segment)
                             segment videoFile with
                     | Some clip => [clip]
                     | None => []
                     end)
                  (createSemanticSegments env timestamps userQuery)
            end
        end
  | _, _ => []
  end.

Definition createSemanticClips (env : Collaborators) (references : list Reference)
    (userQuery agentResponse : string) : list Clip.t :=
  flat_map (reference_clips env userQuery agentResponse) references.

(** [(b.relevanceScore || 0) - (a.relevanceScore || 0) > 0]. *)
Definition less_relevant (a b : Clip.t) : bool :=
  (Fin 0 <?
     toNumber_value (or_value (Clip.relevanceScore b) (VNum (Fin 0))) -
     toNumber_value (or_value (Clip.relevanceScore a) (VNum (Fin 0))))%num.

(** [clips[index]] followed by the test of [filter(Boolean)]: what the
    index selects, [None] when that is [undefined].  The property key is
    [String(index)]; the string of a number names a position of the
    array or nothing at all. *)
Definition element (env : Collaborators) (clips : list Clip.t) (index : value)
  : option Selected :=
  let key := str (toString index) in
  match array_index key with
  | Some n =>
      if (n <? N.of_nat (List.length clips))%N then
        match nth_error clips (N.to_nat n) with
        | Some clip => Some (SelectedClip clip)
        | None => None
        end
      else None
  | None =>
      match index with
      | VNum _ => None
      | _ =>
          if String.eqb key "length" then
            if (0 <? List.length clips)%nat
            then Some (ArrayLength (List.length clips))
            else None
          else if arrayInherits env key then Some (InheritedProperty key)
          else None
      end
  end.

(** [optimizeClipsWithLLM].  A [selected_clips] that is truthy and no
    array has no [slice], or no [map] on what [slice] returns: the
    [TypeError] is caught and the clips are ranked by relevance, as they
    are when the reply has no [selected_clips]. *)
Definition optimizeClipsWithLLM (env : Collaborators) (clips : list Clip.t)
    (userQuery agentResponse : string) : list Selected :=
  if negb (hasClient env) || (List.length clips =? 0)%nat
  then map SelectedClip (firstn MAX_CLIPS clips)
  else
    let clips :=
      if (8 <? List.length clips)%nat
      then firstn 8 (js_sort less_relevant clips)
      else clips in
    let result := select env userQuery agentResponse clips in
    let ranked := map SelectedClip (firstn MAX_CLIPS (js_sort less_relevant clips)) in
    if truthy_value result && truthy_value (prop result "selected_clips") then
      match prop result "selected_clips" with
      | VArr selected_clips =>
          flat_map (fun index =>
                      match element env clips index with
                      | Some item => [item]
                      | None => []
                      end)
            (firstn MAX_CLIPS selected_clips)
      | _ => ranked
      end
    else ranked.

(** Removal of the first match of a pattern, given as a matcher that
    returns what follows a match at the head of the string. *)
Fixpoint remove_first (matcher : list ascii -> option (list ascii)) (s : list ascii)
  : list ascii :=
  match matcher s with
  | Some rest => rest
  | None =>
      match s with
      | [] => []
      | c :: r => c :: remove_first matcher r
      end
  end.

(** [n] digits at the head of [s]. *)
Fixpoint digits_exactly (n : nat) (s : list ascii) : option (list ascii) :=
  match n with
  | O => Some s
  | S n' =>
      match s with
      | c :: r => if isDigit c then digits_exactly n' r else None
      | [] => None
      end
  end.

(** [/\d{8}_\d{6}/]. *)
Definition date_stamp (s : list ascii) : option (list ascii) :=
  match digits_exactly 8 s with
  | Some (c :: r) => if Ascii.eqb c "_"%char then digits_exactly 6 r else None
  | _ => None
  end.

Definition stripPrefix_ci (p s : list ascii) : option (list ascii) :=
  if ascii_list_eqb (toLowerCase (firstn (List.length p) s)) p
     && (List.length p <=? List.length s)%nat
  then Some (skipn (List.length p) s)
  else None.

(** [/Meeting\s+(Recording|Transcript)/i]. *)
Definition meeting_label (s : list ascii) : option (list ascii) :=
  match stripPrefix_ci (chars "meeting") s with
  | Some (c :: r) =>
      if isSpace c then
        let r' := dropWhile isSpace r in
        match stripPrefix_ci (chars "recording") r' with
        | Some rest => Some rest
        | None => stripPrefix_ci (chars "transcript") r'
        end
      else None
  | _ => None
  end.

Definition getVideoDisplayName (filename : string) : string :=
  let s1 := strip_video_extension (chars filename) in
  let s2 := map (fun c => if Ascii.eqb c "-"%char || Ascii.eqb c "_"%char
                          then chr 32 else c) s1 in
  let s3 := remove_first date_stamp s2 in
  let s4 := remove_first meeting_label s3 in
  str (trim s4).

Definition fallback_clip (userQuery : string) (i : nat) (videoFile : string) : Clip.t :=
  Clip.mk
    (VStr ("Relevant Content: " ++ getVideoDisplayName videoFile))
    (VStr ("This segment may contain information related to: " ++
           String dquote userQuery ++ String dquote EmptyString))
    (videos_path videoFile)
    (of_nat i * Fin 45)%num
    (of_nat i * Fin 45 + Fin 60)%num
    None
    (VNum (Fin (4 # 10) - of_nat i * Fin (1 # 10))%num)
    VUndefined VUndefined videoFile false VUndefined true.

(** The loop [for (i = 0; i < Math.min(videoFiles.length, 2); i++)]. *)
Fixpoint fallback_loop (userQuery : string) (i : nat) (videoFiles : list string)
  : list Clip.t :=
  match videoFiles with
  | [] => []
  | videoFile :: rest =>
      if (i <? 2)%nat
      then fallback_clip userQuery i videoFile :: fallback_loop userQuery (S i) rest
      else []
  end.

Definition createIntelligentFallbacks (env : Collaborators)
    (userQuery agentResponse : string) : list Clip.t :=
  fallback_loop userQuery 0 (findAllVideoFiles (readdir env)).

(** [extractRelevantClips]; [agentTrace] is [None] when it is missing. *)
Definition extractRelevantClips (env : Collaborators) (agentTrace : option Trace)
    (agentResponse userQuery : string) : list Selected :=
  let clips :=
    match agentTrace with
    | Some trace =>
        createSemanticClips env (extractStructuredReferences trace)
          userQuery agentResponse
    | None => []
    end in
  let clips :=
    if (0 <? List.length clips)%nat && hasClient env
    then optimizeClipsWithLLM env clips userQuery agentResponse
    else map SelectedClip clips in
  match clips with
  | [] => map SelectedClip (createIntelligentFallbacks env userQuery agentResponse)
  | _ => clips
  end.

End Extractor.

(** ** The frame extractor of [server.js] ([FrameExtractor]) *)

Module FrameExtractor.

Record Strategy : Type := {
  timestamps : list num;
  name : string
}.

(** The timestamp after the "smart timestamp validation and adjustment"
    and the "minimum timestamp" steps. *)
Definition adjustTimestamp (timestamp duration : num) : num :=
  let adjustedTimestamp :=
    if (timestamp >=? duration)%num then max (Fin 0) (duration - Fin 5) else timestamp in
  max (Fin 1) adjustedTimestamp.

Definition in_video (duration t : num) : bool :=
  (t >? Fin 0)%num && (t <? duration)%num.

Definition extractionStrategies (adjustedTimestamp duration : num) : list Strategy :=
  [ {| timestamps := [adjustedTimestamp]; name := "primary" |};
    {| timestamps :=
         filter (in_video duration)
           [ max (Fin 1) (adjustedTimestamp - Fin 1);
             adjustedTimestamp;
             min (duration - Fin 1) (adjustedTimestamp + Fin 1) ];
       name := "range" |};
    {| timestamps :=
         filter (in_video duration)
           [ max (Fin 1) (duration * Fin (1 # 10));
             max (Fin 1) (duration * Fin (3 # 10));
             max (Fin 1) (duration * Fin (5 # 10)) ];
       name := "safe" |} ].

(** [strategy.timestamps[0]], the argument of [seekInput]; [None] is
    [undefined]. *)
Definition seek (s : Strategy) : option num := hd_error (timestamps s).

(** What one call depends on: the cache entry of the key ([Some None] is
    a cached error), an extraction of the key already in flight, whether
    the file exists, the probed duration ([None] when [ffprobe] fails),
    and whether the transcoder, on a given attempt and strategy, leaves
    a frame of more than 1000 bytes. *)
Record World : Type := {
  cached : option (option string);
  inFlight : option (option string);
  videoExists : bool;
  probe : option num;
  transcode : nat -> Strategy -> bool;
  outputPath : string
}.

(** The strategies tried in order until one succeeds: the seek positions
    handed to the transcoder and whether a frame came out. *)
Fixpoint run_strategies (accept : Strategy -> bool) (l : list Strategy)
  : list (option num) * bool :=
  match l with
  | [] => ([], false)
  | s :: rest =>
      if accept s then ([seek s], true)
      else let '(seeks, ok) := run_strategies accept rest in (seek s :: seeks, ok)
  end.

(** [!duration || duration <= 0]. *)
Definition invalid_duration (duration : num) : bool :=
  negb (truthy duration) || (duration <=? Fin 0)%num.

(** [extractFrame(videoPath, timestamp, retryCount)]: the result and the
    seek positions handed to the transcoder, in order, over the attempt
    and its retries ([retries] is [maxRetries - retryCount]). *)
Fixpoint extractFrame_from (w : World) (timestamp : num) (retryCount retries : nat)
  : option string * list (option num) :=
  match cached w with
  | Some entry => (entry, [])
  | None =>
      match inFlight w with
      | Some result => (result, [])
      | None =>
          if negb (videoExists w) then (None, [])
          else
            match probe w with
            | None => (None, [])
            | Some duration =>
                if invalid_duration duration then (None, [])
                else
                  let adjustedTimestamp := adjustTimestamp timestamp duration in
                  let '(seeks, ok) :=
                    run_strategies (transcode w retryCount)
                      (extractionStrategies adjustedTimestamp duration) in
                  if ok then (Some (outputPath w), seeks)
                  else
                    match retries with
                    | O => (None, seeks)
                    | S retries' =>
                        let '(result, later) :=
                          extractFrame_from w timestamp (S retryCount) retries' in
                        (result, seeks ++ later)
                    end
            end
      end
  end.

Definition maxRetries : nat := 3.

Definition extractFrame (w : World) (timestamp : num) : option string * list (option num) :=
  extractFrame_from w timestamp 0 maxRetries.

End FrameExtractor.

(** ** The assembler of [video_generator.js] ([VideoGenerator]) *)

Module VideoGenerator.

(** *** Timestamp normalisation *)

(** The tail of [normalizeTimestamp], from [Number(timestamp) || 0] on. *)
Definition normalizeNumber (timestamp : num) : num :=
  let n := or_default timestamp (Fin 0) in
  if (n >? Fin 1000000000000)%num then Fin 30
  else if (n >? Fin 10000)%num && (n <? Fin 1000000000)%num then (n / Fin 1000)%num
  else max (Fin 0) n.

Definition normalizeTimestamp (timestamp : value) : num :=
  match timestamp with
  | VStr s =>
      let cs := chars s in
      let parts :=
        if includes [":"%char] cs then map toNumber (split_on ":"%char cs) else [] in
      match parts with
      | [m; sec] => (m * Fin 60 + sec)%num
      | [h; m; sec] => (h * Fin 3600 + m * Fin 60 + sec)%num
      | _ => normalizeNumber (parseFloat cs)
      end
  | _ => normalizeNumber (toNumber_value timestamp)
  end.

(** [Number.isFinite(videoDurationSec) && videoDurationSec > 0]. *)
Definition known_duration (videoDurationSec : num) : bool :=
  isFinite videoDurationSec && (videoDurationSec >? Fin 0)%num.

Definition minDuration : num := Fin 3.
Definition safeEndBuffer : num := Fin 2.

Definition normalizeTimes (rawStart rawEnd : value) (videoDurationSec : num)
  : num * num :=
  let start := normalizeTimestamp rawStart in
  let end_ := normalizeTimestamp rawEnd in
  let end_ := if (end_ <=? start)%num then (start + Fin 5)%num else end_ in
  let end_ := if (end_ - start <? minDuration)%num then (start + minDuration)%num else end_ in
  if known_duration videoDurationSec then
    let maxEnd := (videoDurationSec - safeEndBuffer)%num in
    let '(start, end_) :=
      if (end_ >? maxEnd)%num then
        let segmentDuration := (end_ - start)%num in
        (max (Fin 0) (maxEnd - segmentDuration), maxEnd)
      else (start, end_) in
    let start := max (Fin 0) (min start (maxEnd - minDuration)) in
    let end_ := max (start + minDuration) (min end_ maxEnd) in
    (start, end_)
  else (start, end_).

(** *** De-duplication *)

(** A segment is the object the caller sent: a parsed JSON value. *)
Definition Segment : Type := value.

Definition has_type (segment : Segment) (t : string) : bool :=
  match prop segment "type" with
  | VStr s => String.eqb s t
  | _ => false
  end.

Definition is_special (segment : Segment) : bool :=
  has_type segment "title" || has_type segment "section_title" ||
  has_type segment "transition" || has_type segment "conclusion".

(** [s.replace(/^\/videos\//, '')]. *)
Definition strip_videos_prefix (s : list ascii) : list ascii :=
  match stripPrefix (chars "/videos/") s with
  | Some rest => rest
  | None => s
  end.

(** [getSegmentKey]; [None] when it throws (a [videoPath] or a truthy
    [text] that is not a string has no [replace] or [substring]). *)
Definition getSegmentKey (segment : Segment) : option string :=
  match prop segment "videoPath" with
  | VStr vp =>
      let videoPath := strip_videos_prefix (chars vp) in
      let text :=
        match or_value (prop segment "text") (VStr EmptyString) with
        | VStr t => Some (chars t)
        | _ => None
        end in
      match text with
      | Some t =>
          let timing :=
            num_to_chars (round (toNumber_value (prop segment "startTime"))) ++
            chars "-" ++
            num_to_chars (round (toNumber_value (prop segment "endTime"))) in
          Some (str (videoPath ++ chars ":" ++ timing ++ chars ":" ++ substring0 50 t))
      | None => None
      end
  | _ => None
  end.

Definition optimalDuration : num := Fin 30.

Definition getScore (seg : Segment) : num :=
  let relevance :=
    (toNumber_value (or_value (prop seg "relevanceScore") (VNum (Fin 0))) * Fin 2)%num in
  let quality :=
    (toNumber_value (or_value (prop seg "qualityScore") (VNum (Fin 0))) * Fin 2)%num in
  let duration :=
    (toNumber_value (prop seg "endTime") - toNumber_value (prop seg "startTime"))%num in
  let durationScore :=
    (Fin 1 - min (Fin 1) (abs (duration - optimalDuration) / optimalDuration))%num in
  let hasMetadata :=
    (of_nat (List.length
               (filter (fun k => truthy_value (prop seg k))
                  ["title"; "description"; "keyTopics"]%string)) / Fin 3)%num in
  (Fin 0 + relevance + quality + durationScore + hasMetadata)%num.

Definition isBetterSegment (newSeg existingSeg : Segment) : bool :=
  (getScore newSeg >? getScore existingSeg)%num.

(** The map [seen] and the array [uniqueSegments].  An object is known
    by its position in the input, which stands for its identity:
    [seen] maps a key to the object stored under it, [uniqueSegments]
    holds objects, and [indexOf] compares identities. *)
Definition Obj : Type := (nat * Segment)%type.

Fixpoint seen_get (key : string) (seen : list (string * Obj)) : option Obj :=
  match seen with
  | [] => None
  | (k, o) :: rest => if String.eqb k key then Some o else seen_get key rest
  end.

Fixpoint seen_set (key : string) (o : Obj) (seen : list (string * Obj))
  : list (string * Obj) :=
  match seen with
  | [] => [(key, o)]
  | (k, o') :: rest =>
      if String.eqb k key then (k, o) :: rest else (k, o') :: seen_set key o rest
  end.

(** [uniqueSegments[uniqueSegments.indexOf(existing)] = segment]. *)
Fixpoint replace_object (existing segment : Obj) (uniqueSegments : list Obj)
  : option (list Obj) :=
  match uniqueSegments with
  | [] => None
  | o :: rest =>
      if (fst o =? fst existing)%nat then Some (segment :: rest)
      else match replace_object existing segment rest with
           | Some rest' => Some (o :: rest')
           | None => None
           end
  end.

(** One turn of the loop of [deduplicateSegments]; [None] when
    [getSegmentKey] throws. *)
Definition dedup_step (st : option (list (string * Obj) * list Obj)) (o : Obj)
  : option (list (string * Obj) * list Obj) :=
  match st with
  | None => None
  | Some (seen, uniqueSegments) =>
      let segment := snd o in
      if negb (truthy_value segment) ||
         (has_type segment "content" && negb (truthy_value (prop segment "videoPath")))
      then st
      else if is_special segment then Some (seen, uniqueSegments ++ [o])
      else if has_type segment "content" then
        match getSegmentKey segment with
        | None => None
        | Some key =>
            match seen_get key seen with
            | None => Some (seen_set key o seen, uniqueSegments ++ [o])
            | Some existing =>
                if isBetterSegment segment (snd existing) then
                  match replace_object existing o uniqueSegments with
                  | Some replaced => Some (seen_set key o seen, replaced)
                  | None => st
                  end
                else st
            end
        end
      else st
  end.

Fixpoint number_from (i : nat) (l : list Segment) : list Obj :=
  match l with
  | [] => []
  | s :: rest => (i, s) :: number_from (S i) rest
  end.

Definition deduplicateSegments (segments : list Segment) : option (list Segment) :=
  match fold_left dedup_step (number_from 0 segments) (Some ([], [])) with
  | Some (_, uniqueSegments) => Some (map snd uniqueSegments)
  | None => None
  end.


(** *** Assembly *)

(** The result of a step that may throw. *)
Inductive Outcome (A : Type) : Type :=
| Ok (a : A)
| Throw.
Arguments Throw {A}.

(** The files that make up the output. *)
Inductive PartPath : Type :=
| TitlePath (p : string)
| TransitionPath (p : string)
| CaptionedPath (i : nat).

Record Processed : Type := {
  path : PartPath;
  ptype : value;
  ptext : value;
  stepNumber : value;
  duration : num;
  importance : option num
}.

(** The transcoder and the file system, as [generateVideo] uses them:
    whether the [lavfi] probe succeeded, the transition and the title
    cards it makes ([None] when the command fails), the probed duration
    ([NaN] when unknown), the extraction of a span ([None] when it
    fails or times out) and the final concatenation. *)
Record Transcoder : Type := {
  lavfiSupported : bool;
  makeTransition : num -> option string;
  makeTitleCard : value -> num -> option string;
  getVideoDurationSec : string -> num;
  extractVideoSegment : string -> num -> num -> option string;
  concat : list PartPath -> option string
}.

(** [createTransition(duration)]: [null] without [lavfi]. *)
Definition createTransition (tc : Transcoder) (d : num) : Outcome (option string) :=
  if negb (lavfiSupported tc) then Ok None
  else match makeTransition tc d with
       | Some p => Ok (Some p)
       | None => Throw
       end.

(** [createTitleCard(title, duration)]. *)
Definition createTitleCard (tc : Transcoder) (title : value) (d : num)
  : Outcome (option string) :=
  if lavfiSupported tc then
    match makeTitleCard tc title d with
    | Some p => Ok (Some p)
    | None => Throw
    end
  else createTransition tc d.

(** [segment.text.length]; reading it throws on [undefined] and [null]. *)
Definition text_length (text : value) : Outcome num :=
  match text with
  | VUndefined | VNull => Throw
  | VStr s => Ok (of_nat (String.length s))
  | VArr items => Ok (of_nat (List.length items))
  | VObj fields => Ok (toNumber_value (get "length" fields))
  | _ => Ok NaN
  end.

(** The span cut out of the source video for a content segment. *)
Definition content_span (segment : Segment) (textLength durSec : num) : num * num :=
  let minDuration := Fin 15 in
  let maxDuration := Fin 45 in
  let wordsPerSecond := Fin 2 in
  let baseEstimatedDuration := ceil (textLength / (wordsPerSecond * Fin 5)) in
  let importanceMultiplier :=
    if has_type segment "content" then Fin (12 # 10) else Fin 1 in
  let estimatedDuration := ceil (baseEstimatedDuration * importanceMultiplier) in
  let complexityBuffer := if (textLength >? Fin 200)%num then Fin 5 else Fin 0 in
  let optimalDuration :=
    min maxDuration (max minDuration (estimatedDuration + complexityBuffer)) in
  let leadIn := Fin 3 in
  let leadOut := Fin 3 in
  let totalDuration := (optimalDuration + leadIn + leadOut)%num in
  let centerTimestamp := toNumber_value (prop segment "startTime") in
  let contextWindow := Fin 5 in
  let start := max (Fin 0) (centerTimestamp - totalDuration / Fin 2 - contextWindow) in
  let end_ := min durSec (start + totalDuration + contextWindow * Fin 2) in
  (start, end_).

(** [null] and [undefined]: reading a property of either throws. *)
Definition is_nullish (v : value) : bool :=
  match v with
  | VUndefined | VNull => true
  | _ => false
  end.

(** One turn of the loop over the segments: what it appends to
    [processedSegments], or the exception that ends [generateVideo]
    (the first thing the loop does is to read [segment.type]). *)
Definition process_segment (tc : Transcoder) (transitionPath : option string)
    (i : nat) (segment : Segment) : Outcome (list Processed) :=
  if is_nullish segment then Throw
  else if has_type segment "title" || has_type segment "section_title" ||
     has_type segment "conclusion"
  then
    let d :=
      if has_type segment "title" then Fin 8
      else if has_type segment "section_title" then Fin 5
      else toNumber_value (or_value (prop segment "duration") (VNum (Fin 6))) in
    match createTitleCard tc (prop segment "title") d with
    | Ok (Some titlePath) =>
        Ok [ {| path := TitlePath titlePath; ptype := prop segment "type";
                ptext := prop segment "text"; stepNumber := VUndefined;
                duration := d; importance := None |} ]
    | _ => Ok []
    end
  else if has_type segment "transition" then
    match transitionPath with
    | Some p =>
        Ok [ {| path := TransitionPath p; ptype := VStr "transition";
                ptext := VUndefined; stepNumber := VUndefined;
                duration :=
                  toNumber_value (or_value (prop segment "duration") (VNum (Fin (3 # 2))));
                importance := None |} ]
    | None => Ok []
    end
  else if negb (truthy_value (prop segment "videoPath")) then Ok []
  else
    match prop segment "videoPath" with
    | VStr vp =>
        let rel :=
          match stripPrefix (chars "/videos/") (chars vp),
                stripPrefix (chars "videos/") (chars vp) with
          | Some r, _ | None, Some r => r
          | None, None => chars vp
          end in
        let videoPath := str rel in
        let durSec := getVideoDurationSec tc videoPath in
        match text_length (prop segment "text") with
        | Throw => Throw
        | Ok textLength =>
            let '(start, end_) := content_span segment textLength durSec in
            match extractVideoSegment tc videoPath start end_ with
            | None => Throw
            | Some _ =>
                Ok [ {| path := CaptionedPath i; ptype := VStr "content";
                        ptext := prop segment "text";
                        stepNumber := prop segment "stepNumber";
                        duration := (end_ - start)%num;
                        importance :=
                          Some (if has_type segment "content"
                                then Fin (12 # 10) else Fin 1) |} ]
            end
        end
    | _ => Throw
    end.

Fixpoint process_segments (tc : Transcoder) (transitionPath : option string)
    (i : nat) (segments : list Segment) : Outcome (list Processed) :=
  match segments with
  | [] => Ok []
  | segment :: rest =>
      match process_segment tc transitionPath i segment with
      | Throw => Throw
      | Ok here =>
          match process_segments tc transitionPath (S i) rest with
          | Throw => Throw
          | Ok later => Ok (here ++ later)
          end
      end
  end.

(** [a !== b] on values read from segments: objects and arrays of
    different segments are different objects. *)
Definition strict_neq (a b : value) : bool :=
  match a, b with
  | VUndefined, VUndefined | VNull, VNull => false
  | VBool x, VBool y => negb (Bool.eqb x y)
  | VNum x, VNum y => negb (JSNum.eqb x y)
  | VStr x, VStr y => negb (String.eqb x y)
  | _, _ => true
  end.

Definition needsTransition (prev current : Processed) : bool :=
  strict_neq (ptype prev) (ptype current) ||
  (negb (strict_neq (ptype current) (VStr "content")) &&
   negb (strict_neq (ptype prev) (VStr "content")) &&
   (strict_neq (stepNumber current) (stepNumber prev) ||
    match importance current, importance prev with
    | Some c, Some p => (c >? p)%num
    | _, _ => false
    end)).

(** The list [allParts]: each processed segment, preceded by the
    transition where one is needed. *)
Fixpoint all_parts (transitionPath : option string) (prev : option Processed)
    (processedSegments : list Processed) : list PartPath :=
  match processedSegments with
  | [] => []
  | current :: rest =>
      let lead :=
        match prev, transitionPath with
        | Some p, Some t => if needsTransition p current then [TransitionPath t] else []
        | _, _ => []
        end in
      lead ++ path current :: all_parts transitionPath (Some current) rest
  end.

(** [generateVideo(segments)]: the parts that are concatenated into the
    output file, in order, and the output; [Throw] when it fails. *)
Definition generateVideo (tc : Transcoder) (segments : list Segment)
  : Outcome (list PartPath * string) :=
  match segments with
  | [] => Throw
  | _ =>
      match deduplicateSegments segments with
      | None => Throw
      | Some uniqueSegments =>
          match (if lavfiSupported tc then createTransition tc (Fin 1) else Ok None) with
          | Throw => Throw
          | Ok transitionPath =>
              match process_segments tc transitionPath 0 segments with
              | Throw => Throw
              | Ok processedSegments =>
                  let allParts := all_parts transitionPath None processedSegments in
                  match concat tc allParts with
                  | Some finalOutput => Ok (allParts, finalOutput)
                  | None => Throw
                  end
              end
          end
      end
  end.

End VideoGenerator.

(** ** The first extractor of [server.js] ([VideoClipExtractor]) *)

Module Legacy.

(** The first match of a pattern in [s]: the matched text. *)
Fixpoint first_match (matcher : list ascii -> option (list ascii)) (s : list ascii)
  : option (list ascii) :=
  match matcher s with
  | Some rest => Some (firstn (List.length s - List.length rest) s)
  | None =>
      match s with
      | [] => None
      | _ :: r => first_match matcher r
      end
  end.

(** [/[-_]\d{8}_\d{6}-Meeting\s+(Recording|Transcript)/i]. *)
Definition meeting_suffix (s : list ascii) : option (list ascii) :=
  match s with
  | c :: r =>
      if Ascii.eqb c "-"%char || Ascii.eqb c "_"%char then
        match Extractor.date_stamp r with
        | Some (d :: r') =>
            if Ascii.eqb d "-"%char then Extractor.meeting_label r' else None
        | _ => None
        end
      else None
  | [] => None
  end.

(** A signed 32-bit integer from an integer ([hash & hash]). *)
Definition to_int32 (z : Z) : Z :=
  let m := (z mod 2 ^ 32)%Z in
  if (m <? 2 ^ 31)%Z then m else (m - 2 ^ 32)%Z.

Definition simpleHash (s : list ascii) : Z :=
  Z.abs
    (fold_left
       (fun hash c =>
          to_int32 (to_int32 (Z.shiftl hash 5) - hash + Z.of_nat (code c)))%Z
       s 0%Z).

Definition baseName (s3Uri : list ascii) : list ascii :=
  let s3FileName := last (split_on "/"%char s3Uri) [] in
  trim (toLowerCase
          (Extractor.remove_first meeting_suffix
             (replaceFirst (chars ".json") []
                (replaceFirst (chars "_sentences.json") [] s3FileName)))).

Definition fileBaseName (file : list ascii) : list ascii :=
  trim (toLowerCase
          (Extractor.remove_first meeting_suffix
             (Extractor.strip_video_extension file))).

Definition findVideoFile (readdir : option (list string)) (s3Uri : option string)
  : option string :=
  match s3Uri with
  | None => None
  | Some uri =>
      if String.eqb uri EmptyString then None
      else
        match Extractor.findAllVideoFiles readdir with
        | [] => None
        | files =>
            let exactMatch :=
              match first_match Extractor.date_stamp (chars uri) with
              | Some timestamp => find (fun file => includes timestamp (chars file)) files
              | None => None
              end in
            match exactMatch with
            | Some file => Some file
            | None =>
                let base := baseName (chars uri) in
                let partialMatch :=
                  match base with
                  | [] => None
                  | _ =>
                      find (fun file =>
                              includes base (fileBaseName (chars file)) ||
                              includes (fileBaseName (chars file)) base)
                        files
                  end in
                match partialMatch with
                | Some file => Some file
                | None =>
                    let videoIndex :=
                      Z.to_nat (simpleHash (chars uri) mod Z.of_nat (List.length files)) in
                    nth_error files videoIndex
                end
            end
        end
  end.

End Legacy.

(** ** The resolver as the specification words it *)

Module ResolverSpec.

(** The basename of a path or URI. *)
Definition basename (s : list ascii) : list ascii := last (split_on "/"%char s) [].

(** The name without its extension (the last dot and what follows it). *)
Definition strip_extension (s : list ascii) : list ascii :=
  match Extractor.break_at "."%char (List.rev s) with
  | Some (_, before) => List.rev before
  | None => s
  end.

Definition knownSuffixes : list string :=
  ["_sentences"; "_transcript"; "_timestamped"]%string.

Definition strip_suffix (s : list ascii) : list ascii :=
  match find (fun suffix => endsWith (chars suffix) s) knownSuffixes with
  | Some suffix => firstn (List.length s - String.length suffix) s
  | None => s
  end.

Definition normalize (name : list ascii) : list ascii :=
  toLowerCase (strip_suffix (strip_extension (basename name))).

(** Accept the first candidate such that either normalised name
    contains the other; none when there is no such candidate. *)
Definition resolve (storageUri : string) (availableFiles : list string) : option string :=
  let wanted := normalize (chars storageUri) in
  find (fun file =>
          let candidate := normalize (chars file) in
          includes wanted candidate || includes candidate wanted)
    availableFiles.

End ResolverSpec.

(** ** Text escaping ([escapeDrawtext] of [video_generator.js],
    [sanitizeText] of [server.js]) *)

Module Escaping.

(** [escapeDrawtext(s = '')]: [String(s)] and seven replacements, each
    of every occurrence. *)
Definition escapeDrawtext (s : value) : list ascii :=
  let s0 := match s with VUndefined => [] | _ => toString s end in
  let s1 := replaceAll [backslash] [backslash; backslash] s0 in
  let s2 := replaceAll [":"%char] [backslash; ":"%char] s1 in
  let s3 := replaceAll ["'"%char] [backslash; backslash; "'"%char] s2 in
  let s4 := replaceAll ["["%char] [backslash; "["%char] s3 in
  let s5 := replaceAll ["]"%char] [backslash; "]"%char] s4 in
  let s6 := replaceAll [","%char] [backslash; ","%char] s5 in
  replaceAll [LF] [backslash; "n"%char] s6.

(** [sanitizeText(text)] of [generateDocumentHTML]; [None] when it
    throws (a truthy [text] that is not a string has no [replace]). *)
Definition sanitizeText (text : value) : option (list ascii) :=
  if negb (truthy_value text) then Some []
  else
    match text with
    | VStr s =>
        let s1 := replaceAll ["&"%char] (chars "&amp;") (chars s) in
        let s2 := replaceAll ["<"%char] (chars "&lt;") s1 in
        let s3 := replaceAll [">"%char] (chars "&gt;") s2 in
        let s4 := replaceAll [dquote] (chars "&quot;") s3 in
        Some (replaceAll ["'"%char] (chars "&#39;") s4)
    | _ => None
    end.

End Escaping.

(** ** The process documents of [server.js] *)

Module Documents.

(** [typeof v === 'object'] and [typeof v === 'number']. *)
Definition typeof_object (v : value) : bool :=
  match v with VNull | VArr _ | VObj _ => true | _ => false end.

Definition typeof_number (v : value) : bool :=
  match v with VNum _ => true | _ => false end.

(** [v === true], [v === false], [v === undefined] and [v === null]. *)
Definition is_true (v : value) : bool :=
  match v with VBool true => true | _ => false end.

Definition is_false (v : value) : bool :=
  match v with VBool false => true | _ => false end.

Definition is_undefined (v : value) : bool :=
  match v with VUndefined => true | _ => false end.

Definition is_null (v : value) : bool :=
  match v with VNull => true | _ => false end.

(** The body of the loop over the steps of a section: the count of
    visual steps after the step, or [None] when the step makes
    [validateDocumentStructure] return [false]. *)
Definition check_step (step : value) (visualStepCount : nat) : option nat :=
  if negb (truthy_value step) || negb (typeof_object step) ||
     negb (typeof_number (prop step "number"))
  then None
  else if is_undefined (prop step "needsVisual") then None
  else
    let visualStepCount :=
      if is_true (prop step "needsVisual") then S visualStepCount else visualStepCount in
    if is_true (prop step "needsVisual") &&
       negb (truthy_value (prop step "visualDescription"))
    then None
    else if is_false (prop step "needsVisual") &&
            negb (is_null (prop step "visualDescription"))
    then None
    else Some visualStepCount.

Fixpoint check_steps (steps : list value) (visualStepCount : nat) : option nat :=
  match steps with
  | [] => Some visualStepCount
  | step :: rest =>
      match check_step step visualStepCount with
      | Some count => check_steps rest count
      | None => None
      end
  end.

Fixpoint check_sections (sections : list value) (visualStepCount : nat) : option nat :=
  match sections with
  | [] => Some visualStepCount
  | section :: rest =>
      if negb (truthy_value section) then None
      else
        match prop section "steps" with
        | VArr steps =>
            match check_steps steps visualStepCount with
            | Some count => check_sections rest count
            | None => None
            end
        | _ => None
        end
  end.

Definition validateDocumentStructure (structure : value) : bool :=
  if negb (truthy_value structure) || negb (typeof_object structure) then false
  else
    match prop structure "sections" with
    | VArr sections =>
        match check_sections sections 0 with
        | Some visualStepCount => (visualStepCount =? 4)%nat
        | None => false
        end
    | _ => false
    end.

(** The structure [generateDocumentStructure] falls back on when the
    call of the LLM fails, for the response [kbData.response]. *)
Definition fallbackStructure (response : string) : value :=
  VObj [ ("title", VStr "Process Documentation");
         ("introduction", VStr (str (substring0 200 (chars response) ++ Extractor.ellipsis)));
         ("sections",
          VArr [ VObj [ ("title", VStr "Process Steps");
                        ("steps",
                         VArr [ VObj [ ("number", VNum (Fin 1));
                                       ("text", VStr response);
                                       ("needsVisual", VBool false) ] ]) ] ]);
         ("conclusion", VStr "End of process documentation.") ]%string.





End Documents.

(** ** The keyword clips of the first extractor ([VideoClipExtractor]) *)

Module LegacyClips.

(** [\w]: a letter, a digit or the underscore. *)
Definition isWordChar (c : ascii) : bool :=
  let n := code c in
  ((48 <=? n) && (n <=? 57) || (65 <=? n) && (n <=? 90) ||
   (97 <=? n) && (n <=? 122) || (n =? 95))%nat.

(** [s.split(/\s+/)]. *)
Fixpoint split_spaces (fuel : nat) (s cur : list ascii) : list (list ascii) :=
  match fuel with
  | O => [List.rev cur]
  | S fuel' =>
      match s with
      | [] => [List.rev cur]
      | c :: r =>
          if isSpace c
          then List.rev cur :: split_spaces fuel' (dropWhile isSpace r) []
          else split_spaces fuel' r (c :: cur)
      end
  end.

Definition stopWords : list string :=
  [ "the"; "and"; "but"; "for"; "are"; "was"; "were"; "been"; "have"; "has";
    "had"; "can"; "will"; "would"; "could"; "should"; "this"; "that"; "with";
    "what"; "when"; "where"; "who"; "why"; "how" ]%string.

(** [[...new Set(words)]]: the words in the order of their first
    occurrences; [seen] holds the words met so far. *)
Fixpoint set_of (words seen : list string) : list string :=
  match words with
  | [] => []
  | word :: rest =>
      if existsb (String.eqb word) seen then set_of rest seen
      else word :: set_of rest (word :: seen)
  end.

Definition extractKeywords (text : string) : list string :=
  let cleaned :=
    filter (fun c => isWordChar c || isSpace c) (toLowerCase (chars text)) in
  let words := map str (split_spaces (List.length cleaned) cleaned []) in
  let words := filter (fun word => (2 <? String.length word)%nat) words in
  let words := filter (fun word => negb (existsb (String.eqb word) stopWords)) words in
  set_of words [].

(** An entry as [parseTimestampsFromContent] pushes it. *)
Record Stamp : Type := { text : string; start : num; end_ : num }.

Definition isTimestampRelevant (text : string) (keywords : list string) : bool :=
  let textLower := toLowerCase (chars text) in
  existsb (fun keyword => includes (chars keyword) textLower) keywords.

(** One turn of the loop of [groupRelevantTimestamps] on the groups so
    far, the current group and the end of the last entry. *)
Definition group_step (keywords : list string)
    (st : list (list Stamp) * list Stamp * num) (timestamp : Stamp)
  : list (list Stamp) * list Stamp * num :=
  let '(groups, currentGroup, lastEndTime) := st in
  let isRelevant := isTimestampRelevant (text timestamp) keywords in
  let timeSinceLastGroup := (start timestamp - lastEndTime)%num in
  if (timeSinceLastGroup >? Fin 10)%num || (List.length currentGroup =? 0)%nat then
    ((if (0 <? List.length currentGroup)%nat then groups ++ [currentGroup] else groups),
     (if isRelevant then [timestamp] else []),
     end_ timestamp)
  else if isRelevant then (groups, currentGroup ++ [timestamp], end_ timestamp)
  else (groups, currentGroup, end_ timestamp).

Definition groupRelevantTimestamps (timestamps : list Stamp) (keywords : list string)
  : list (list Stamp) :=
  let '(groups, currentGroup, _) :=
    fold_left (group_step keywords) timestamps ([], [], Fin 0) in
  let groups :=
    if (0 <? List.length currentGroup)%nat then groups ++ [currentGroup] else groups in
  filter (fun group => (0 <? List.length group)%nat) groups.

(** [parts.pop() || '0'] on what is left of the parts, last first. *)
Definition pop_or0 (parts : list (list ascii)) : list ascii :=
  match parts with
  | (_ :: _) as part :: _ => part
  | _ => chars "0"
  end.

(** [timeToSeconds(timeStr)] of the first extractor: no clamping and no
    check of the result. *)
Definition timeToSeconds (timeStr : list ascii) : num :=
  match List.rev (split_on ":"%char timeStr) with
  | [] => NaN
  | last :: parts =>
      let seconds := parseFloat last in
      let minutes := parseInt (pop_or0 parts) in
      let hours := parseInt (pop_or0 (tl parts)) in
      (hours * Fin 3600 + minutes * Fin 60 + seconds)%num
  end.

End LegacyClips.

(** ** The final selection of the first extractor
    ([filterAndImproveClips]) *)

Module LegacySelection.

Record Clip : Type := {
  title : string;
  videoPath : string;
  startTime : num;
  endTime : num;
  relevanceScore : num
}.

(** The test of [isDuplicate]: the same video, and starts and ends less
    than ten seconds apart. *)
Definition near (existing clip : Clip) : bool :=
  String.eqb (videoPath existing) (videoPath clip) &&
  (abs (startTime existing - startTime clip) <? Fin 10)%num &&
  (abs (endTime existing - endTime clip) <? Fin 10)%num.

(** One turn of the first loop, on the array [filtered]. *)
Definition keep_step (filtered : list Clip) (clip : Clip) : list Clip :=
  if existsb (fun existing => near existing clip) filtered
  then filtered
  else filtered ++ [clip].

(** [clipsByVideo] is a plain object: a video path that names a
    property inherited from [Object.prototype] finds that property, which
    is truthy and has no [push], and the call throws. *)
Definition inherited : list string :=
  ["constructor"; "__defineGetter__"; "__defineSetter__"; "hasOwnProperty";
   "__lookupGetter__"; "__lookupSetter__"; "isPrototypeOf";
   "propertyIsEnumerable"; "toString"; "valueOf"; "__proto__";
   "toLocaleString"]%string.

Definition is_inherited (key : string) : bool :=
  existsb (String.eqb key) inherited.

(** [clipsByVideo[clip.videoPath].push(clip)], the key created when it
    is not there; the properties are listed in the order of their
    creation. *)
Fixpoint by_video_add (clip : Clip) (clipsByVideo : list (string * list Clip))
  : list (string * list Clip) :=
  match clipsByVideo with
  | [] => [(videoPath clip, [clip])]
  | (key, videoClips) :: rest =>
      if String.eqb key (videoPath clip)
      then (key, videoClips ++ [clip]) :: rest
      else (key, videoClips) :: by_video_add clip rest
  end.

(** One turn of the second loop; [None] is the thrown [TypeError]. *)
Definition group_step (clipsByVideo : option (list (string * list Clip))) (clip : Clip)
  : option (list (string * list Clip)) :=
  match clipsByVideo with
  | None => None
  | Some groups =>
      if is_inherited (videoPath clip) then None
      else Some (by_video_add clip groups)
  end.

(** A video whose path is an array index ([array_index]). *)
Definition is_index (video : string * list Clip) : bool :=
  match array_index (fst video) with Some _ => true | None => false end.

Definition index_after (a b : string * list Clip) : bool :=
  match array_index (fst a), array_index (fst b) with
  | Some m, Some n => (n <? m)%N
  | _, _ => false
  end.

(** [Object.keys]: the array indices in ascending order, then the other
    keys in the order of their creation. *)
Definition own_keys (clipsByVideo : list (string * list Clip))
  : list (string * list Clip) :=
  js_sort index_after (filter is_index clipsByVideo) ++
  filter (fun video => negb (is_index video)) clipsByVideo.

(** [(b.relevanceScore || 0) - (a.relevanceScore || 0) > 0]. *)
Definition less_relevant (a b : Clip) : bool :=
  (Fin 0 <? or_default (relevanceScore b) (Fin 0) -
            or_default (relevanceScore a) (Fin 0))%num.

(** [clipsByVideo[a].length - clipsByVideo[b].length > 0]. *)
Definition more_clips (a b : string * list Clip) : bool :=
  (Fin 0 <? of_nat (List.length (snd a)) - of_nat (List.length (snd b)))%num.

Definition maxClipsPerVideo : nat := 2.
Definition totalMaxClips : nat := 4.

(** The inner loop: the clips of one video pushed onto [finalClips]
    while it holds fewer than [totalMaxClips]. *)
Definition push_clips (finalClips videoClips : list Clip) : list Clip :=
  fold_left
    (fun final clip =>
       if (List.length final <? totalMaxClips)%nat then final ++ [clip] else final)
    videoClips finalClips.

Definition filterAndImproveClips (clips : list Clip) : option (list Clip) :=
  let filtered := fold_left keep_step clips [] in
  match fold_left group_step filtered (Some []) with
  | None => None
  | Some clipsByVideo =>
      let sortedVideos := js_sort more_clips (own_keys clipsByVideo) in
      let finalClips :=
        fold_left
          (fun final video =>
             push_clips final
               (firstn maxClipsPerVideo (js_sort less_relevant (snd video))))
          sortedVideos [] in
      Some (js_sort less_relevant finalClips)
  end.

End LegacySelection.

(** * Vocabulary of the statements

    The predicates the properties below are stated with, and the
    concrete data their instances are checked on. *)

Module Statements.
Import Extractor FrameExtractor VideoGenerator.

(** The entry invariant of the data model: [end > start >= 0]. *)
Definition well_timed (e : TranscriptEntry) : bool :=
  (start e >=? Fin 0)%num && (end_ e >? start e)%num.

Definition timed (e : TranscriptEntry) : Prop := well_timed e = true.

Definition starts_nonneg (e : TranscriptEntry) : Prop :=
  (start e >=? Fin 0)%num = true.

Definition intro_object : list (string * value) :=
  [ ("text", VStr "Welcome to the course");
    ("start", VNum (Fin 0));
    ("end", VNum (Fin 4)) ]%string.

(** The characters of a sequence of decimal digits. *)
Definition digits (d : Decimal.uint) : list ascii :=
  chars (DecimalString.NilEmpty.string_of_uint d).

(** The time strings [MM:SS] and [HH:MM:SS] over given digit groups. *)
Definition render (d : Decimal.uint) : string :=
  DecimalString.NilEmpty.string_of_uint d.

Definition MM_SS (mm ss : Decimal.uint) : string :=
  (render mm ++ ":" ++ render ss)%string.

Definition HH_MM_SS (hh mm ss : Decimal.uint) : string :=
  (render hh ++ ":" ++ render mm ++ ":" ++ render ss)%string.

(** An integer that binary64 holds exactly, as it does every integer
    up to [2^53]: on such values the exact arithmetic of [num] is the
    arithmetic of the code. *)
Definition exactly_held (n : nat) : Prop := (Z.of_nat n <= 2 ^ 53)%Z.

(** A string, not a plain number, whose positional decomposition is
    [NaN]: one of the groups that are read holds no number. *)
Definition unreadable (s : string) : bool :=
  let t := trim (chars s) in
  negb (pure_number t) && isNaN (decompose (split_on ":"%char t)).

(** A string, not a plain number, whose positional decomposition is
    negative. *)
Definition negative (s : string) : bool :=
  let t := trim (chars s) in
  negb (pure_number t) && (decompose (split_on ":"%char t) <? Fin 0)%num.

(** A window that holds an entry, all of whose entries start at or
    after [0]. *)
Definition sound_window (w : list TranscriptEntry) : Prop :=
  w <> [] /\ Forall starts_nonneg w.

Definition segment_starts_nonneg (seg : Segment.t) : Prop :=
  (Segment.startTime seg >=? Fin 0)%num = true.

(** The references a call of [extractRelevantClips] retrieves. *)
Definition retrieved (agentTrace : option Trace) : list Reference :=
  match agentTrace with
  | Some trace => extractStructuredReferences trace
  | None => []
  end.

(** The string-keyed properties an array inherits from
    [Array.prototype] and [Object.prototype] (ECMAScript 2023). *)
Definition array_properties : list string :=
  [ "constructor"; "at"; "concat"; "copyWithin"; "fill"; "find"; "findIndex";
    "findLast"; "findLastIndex"; "lastIndexOf"; "pop"; "push"; "reverse";
    "shift"; "unshift"; "slice"; "sort"; "splice"; "includes"; "indexOf";
    "join"; "keys"; "entries"; "values"; "forEach"; "filter"; "flat";
    "flatMap"; "map"; "every"; "some"; "reduce"; "reduceRight";
    "toLocaleString"; "toString"; "toReversed"; "toSorted"; "toSpliced";
    "with"; "__defineGetter__"; "__defineSetter__"; "hasOwnProperty";
    "__lookupGetter__"; "__lookupSetter__"; "isPrototypeOf";
    "propertyIsEnumerable"; "valueOf"; "__proto__" ]%string.

Definition inherited_by_arrays (name : string) : bool :=
  existsb (String.eqb name) array_properties.

Definition env_one_video : Collaborators :=
  {| hasClient := true;
     readdir := Some ["intro.mp4"%string];
     getAWSEmbedding := fun _ => None;
     judge := fun _ _ _ => VNull;
     select := fun _ _ _ => VNull;
     arrayInherits := inherited_by_arrays |}.

Definition judgment_8_8 : value :=
  VObj [ ("relevance_score", VNum (Fin (8 # 10)));
         ("quality_score", VNum (Fin (7 # 10)));
         ("title", VStr "Resetting the router");
         ("optimal_start_offset", VNum (Fin 8));
         ("optimal_end_offset", VNum (Fin 8));
         ("include_clip", VBool true) ]%string.

Definition window_20_30 : Segment.t :=
  Segment.mk
    [ mkEntry "Unplug the router." (Fin 20) (Fin 25) (VNum (Fin 1));
      mkEntry "Wait ten seconds." (Fin 25) (Fin 30) (VNum (Fin 1)) ]
    (Fin (1 # 2)) "Unplug the router. Wait ten seconds." (Fin 20) (Fin 30).

(** A string with a colon: [normalizeTimestamp] returns the positional
    value of its two or three groups as it is. *)
Definition colon_string (v : value) : bool :=
  match v with
  | VStr s => includes [":"%char] (chars s)
  | _ => false
  end.

(** A seek position inside the video and before the requested one. *)
Definition inside (d : Q) (timestamp : num) (sk : option num) : Prop :=
  exists t, sk = Some (Fin t) /\ 0 < t /\ t < d /\ (Fin t <? timestamp)%num = true.

(** A video of [d] seconds on which no strategy ever yields a frame. *)
Definition stubborn_video (d : Q) : World :=
  {| cached := None; inFlight := None; videoExists := true;
     probe := Some (Fin d); transcode := fun _ _ => false;
     outputPath := "frames/clip.mp4-200.jpg" |}.

Definition content_segment (startTime endTime relevance : Q) : Segment :=
  VObj [ ("type", VStr "content");
         ("videoPath", VStr "/videos/onboarding.mp4");
         ("text", VStr "Open the settings page and choose a profile.");
         ("startTime", VNum (Fin startTime));
         ("endTime", VNum (Fin endTime));
         ("relevanceScore", VNum (Fin relevance)) ]%string.

(** Two content segments whose keys collide after rounding; the second
    has the higher combined score. *)
Definition first_cut : Segment := content_segment 100 130 (5 # 10).
Definition second_cut : Segment := content_segment (1002 # 10) (1298 # 10) (9 # 10).

(** A transcoder without [lavfi] on which every extraction succeeds. *)
Definition plain_transcoder : Transcoder :=
  {| lavfiSupported := false;
     makeTransition := fun _ => None;
     makeTitleCard := fun _ _ => None;
     getVideoDurationSec := fun _ => Fin 600;
     extractVideoSegment := fun _ _ _ => Some "segment.mp4"%string;
     concat := fun _ => Some "final.mp4"%string |}.

End Statements.

(** * Further vocabulary

    The predicates of the properties that go beyond the specification's
    statements. *)

Module Notions.

(** The comparator [(a, b) => key(a) - key(b)] of an ascending sort, and
    the order it sorts into. *)
Definition ascending_after (A : Type) (key : A -> num) (a b : A) : bool :=
  (Fin 0 <? key a - key b)%num.

Definition key_leb (A : Type) (key : A -> num) (a b : A) : Prop :=
  (key a <=? key b)%num = true.

(** An entry as the validating strategies push it: [end > start >= 0]
    and a text that is not empty. *)
Definition validated (e : Extractor.TranscriptEntry) : Prop :=
  Statements.well_timed e = true /\ Extractor.text e <> EmptyString.

(** What is required of the entries of a window: they come from the
    input and none has [end <= start]. *)
Definition window_entry (input : list Extractor.TranscriptEntry)
    (t : Extractor.TranscriptEntry) : Prop :=
  In t input /\ (Extractor.end_ t <=? Extractor.start t)%num = false.

(** A window as [createSlidingWindows] returns it for the entries
    [input] and the duration [d]: at least two entries, the first of
    which starts at a time that is not [0], the others within [d] of
    it. *)
Definition sliding_window (input : list Extractor.TranscriptEntry) (d : num)
    (w : list Extractor.TranscriptEntry) : Prop :=
  exists first rest,
    w = first :: rest /\ rest <> [] /\
    truthy (Extractor.start first) = true /\
    Forall (window_entry input) w /\
    Forall (fun t => (Extractor.start t - Extractor.start first <=? d)%num = true) rest.

(** The window under construction and its start, in the loop of
    [createSlidingWindows]. *)
Definition growing_window (input : list Extractor.TranscriptEntry) (d : num)
    (currentWindow : list Extractor.TranscriptEntry) (windowStart : option num) : Prop :=
  match currentWindow with
  | [] => windowStart = None
  | first :: rest =>
      windowStart = Some (Extractor.start first) /\
      (rest <> [] -> truthy (Extractor.start first) = true) /\
      Forall (window_entry input) currentWindow /\
      Forall (fun t => (Extractor.start t - Extractor.start first <=? d)%num = true) rest
  end.

(** The order a descending sort on [key] sorts into. *)
Definition key_geb (A : Type) (key : A -> num) (a b : A) : Prop :=
  (key b <=? key a)%num = true.

(** A segment of the embedding path of [createSemanticSegments]: one of
    the sliding windows of the entries, with the similarity that let it
    through. *)
Definition scored_window (timestamps : list Extractor.TranscriptEntry)
    (seg : Extractor.Segment.t) : Prop :=
  In (Extractor.Segment.timestamps seg)
     (Extractor.createSlidingWindows timestamps (Fin 45)) /\
  exists similarity : float,
    Extractor.Segment.similarity seg = Extractor.num_of_float similarity /\
    PrimFloat.ltb Extractor.MIN_RELEVANCE_SCORE similarity = true.

(** Where an item of the ranking comes from: a clip is one of the
    clips given; a length is that of the array of candidates, which are
    some of the clips given; an inherited property is one the arrays of
    the runtime do inherit, under a name that is no index. *)
Definition taken_from (env : Extractor.Collaborators) (clips : list Extractor.Clip.t)
    (item : Extractor.Selected) : Prop :=
  match item with
  | Extractor.SelectedClip clip => In clip clips
  | Extractor.ArrayLength n => (0 < n <= List.length clips)%nat
  | Extractor.InheritedProperty name =>
      array_index name = None /\ Extractor.arrayInherits env name = true
  end.

(** An item that is one of the clips given. *)
Definition clip_of (clips : list Extractor.Clip.t) (item : Extractor.Selected) : Prop :=
  exists clip, item = Extractor.SelectedClip clip /\ In clip clips.

(** A reply whose [selected_clips], when it is an array, holds numbers
    only. *)
Definition numeric_selection (result : value) : Prop :=
  forall indices,
    prop result "selected_clips" = VArr indices ->
    Forall (fun index => exists n, index = VNum n) indices.

(** Two candidate clips, and a curator whose LLM answers the ranking
    with a given reply. *)
Definition candidate (title : string) (relevance : Q) : Extractor.Clip.t :=
  Extractor.Clip.mk (VStr title) (VStr "A step of the procedure.")
    "/videos/router.mp4" (Fin 17) (Fin 33) (Some "Unplug the router."%string)
    (VNum (Fin relevance)) (VNum (Fin (7 # 10))) (VArr [])
    "router.mp4" true VUndefined false.

Definition two_candidates : list Extractor.Clip.t :=
  [candidate "Unplugging" (6 # 10); candidate "Waiting" (8 # 10)].

Definition numeric_reply : value :=
  VObj [ ("selected_clips", VArr [VNum (Fin 1); VNum (Fin 7); VNum (Fin 0)]) ]%string.

Definition naming_reply : value :=
  VObj [ ("selected_clips",
          VArr [VNum (Fin 1); VStr "length"; VStr "map"; VStr "0"]) ]%string.

Definition ranking_env (reply : value) : Extractor.Collaborators :=
  {| Extractor.hasClient := true;
     Extractor.readdir := None;
     Extractor.getAWSEmbedding := fun _ => None;
     Extractor.judge := fun _ _ _ => VNull;
     Extractor.select := fun _ _ _ => reply;
     Extractor.arrayInherits := Statements.inherited_by_arrays |}.

(** [s.replace(/[-_]/g, ' ')]. *)
Definition spaced (s : list ascii) : list ascii :=
  map (fun c => if Ascii.eqb c "-"%char || Ascii.eqb c "_"%char then chr 32 else c) s.

(** The offset the curator reads from a judgment: [analysis.key || 0]
    as a number. *)
Definition offset_of (analysis : value) (key : string) : num :=
  toNumber_value (or_value (prop analysis key) (VNum (Fin 0))).

(** A judgment whose start offset is a string that is not a number. *)
Definition judgment_soon : value :=
  VObj [ ("relevance_score", VNum (Fin (8 # 10)));
         ("optimal_start_offset", VStr "soon");
         ("optimal_end_offset", VNum (Fin 1));
         ("include_clip", VBool true) ]%string.

(** The keys of the content segments of a list, in order. *)
Definition content_keys (l : list VideoGenerator.Segment) : list (option string) :=
  map VideoGenerator.getSegmentKey
    (filter (fun s => VideoGenerator.has_type s "content") l).

(** A segment [deduplicateSegments] does not skip: a special segment,
    or a content segment with a video path and a key. *)
Definition keepable (s : VideoGenerator.Segment) : Prop :=
  VideoGenerator.is_special s = true \/
  (VideoGenerator.is_special s = false /\
   VideoGenerator.has_type s "content" = true /\
   truthy_value (prop s "videoPath") = true /\
   exists k, VideoGenerator.getSegmentKey s = Some k).

Definition special_object (o : VideoGenerator.Obj) : bool :=
  VideoGenerator.is_special (snd o).

(** What the loop of [deduplicateSegments] keeps true of the map [seen]
    and the array [uniqueSegments] once the objects [done] have been
    looked at. *)
Definition dedup_invariant (done : list VideoGenerator.Obj)
    (seen : list (string * VideoGenerator.Obj))
    (uniqueSegments : list VideoGenerator.Obj) : Prop :=
  incl uniqueSegments done /\
  NoDup (map fst uniqueSegments) /\
  Forall (fun o => keepable (snd o)) uniqueSegments /\
  (forall o k,
     In o uniqueSegments -> special_object o = false ->
     VideoGenerator.getSegmentKey (snd o) = Some k ->
     VideoGenerator.seen_get k seen = Some o) /\
  (forall k o,
     VideoGenerator.seen_get k seen = Some o ->
     In o uniqueSegments /\ special_object o = false /\
     VideoGenerator.getSegmentKey (snd o) = Some k) /\
  filter special_object uniqueSegments = filter special_object done.

(** Every content segment looked at so far has, in [seen], an object
    under its key, and is not better than that object. *)
Definition best_so_far (done : list VideoGenerator.Obj)
    (seen : list (string * VideoGenerator.Obj)) : Prop :=
  forall o k,
    In o done ->
    VideoGenerator.has_type (snd o) "content" = true ->
    truthy_value (prop (snd o) "videoPath") = true ->
    VideoGenerator.getSegmentKey (snd o) = Some k ->
    exists kept,
      VideoGenerator.seen_get k seen = Some kept /\
      VideoGenerator.isBetterSegment (snd o) (snd kept) = false.

(** A part that is the captioned cut of a content segment of the input:
    a segment that is not special and has a video path. *)
Definition captioned_cut (segments : list VideoGenerator.Segment)
    (p : VideoGenerator.PartPath) : Prop :=
  exists i segment,
    p = VideoGenerator.CaptionedPath i /\
    nth_error segments i = Some segment /\
    VideoGenerator.is_special segment = false /\
    truthy_value (prop segment "videoPath") = true.

(** A title, a transition and a content segment. *)
Definition storyboard : list VideoGenerator.Segment :=
  [ VObj [("type", VStr "title"); ("title", VStr "Onboarding")];
    VObj [("type", VStr "transition")];
    Statements.first_cut ]%string.

(** What [escapeDrawtext] makes of one character. *)
Definition drawtext_char (c : ascii) : list ascii :=
  if Ascii.eqb c backslash then [backslash; backslash]
  else if Ascii.eqb c ":"%char then [backslash; ":"%char]
  else if Ascii.eqb c "'"%char then [backslash; backslash; "'"%char]
  else if Ascii.eqb c "["%char then [backslash; "["%char]
  else if Ascii.eqb c "]"%char then [backslash; "]"%char]
  else if Ascii.eqb c ","%char then [backslash; ","%char]
  else if Ascii.eqb c LF then [backslash; "n"%char]
  else [c].

(** The character reference [sanitizeText] writes for a character of
    HTML markup. *)
Definition html_char (c : ascii) : list ascii :=
  if Ascii.eqb c "&"%char then chars "&amp;"
  else if Ascii.eqb c "<"%char then chars "&lt;"
  else if Ascii.eqb c ">"%char then chars "&gt;"
  else if Ascii.eqb c dquote then chars "&quot;"
  else if Ascii.eqb c "'"%char then chars "&#39;"
  else [c].

(** A character that opens or closes a tag or an attribute value. *)
Definition markup (c : ascii) : bool :=
  Ascii.eqb c "<"%char || Ascii.eqb c ">"%char ||
  Ascii.eqb c dquote || Ascii.eqb c "'"%char.

(** The steps of a section and of a document structure. *)
Definition steps_of (section : value) : list value :=
  match prop section "steps" with VArr steps => steps | _ => [] end.

Definition all_steps (structure : value) : list value :=
  match prop structure "sections" with
  | VArr sections => flat_map steps_of sections
  | _ => []
  end.

Definition needs_visual (step : value) : bool :=
  Documents.is_true (prop step "needsVisual").

(** A step as [validateDocumentStructure] wants it: an object with a
    numeric [number] and a [needsVisual] that is set, with a
    description when it is [true] and [null] for one when it is
    [false]. *)
Definition valid_step (step : value) : Prop :=
  truthy_value step = true /\ Documents.typeof_object step = true /\
  Documents.typeof_number (prop step "number") = true /\
  prop step "needsVisual" <> VUndefined /\
  (prop step "needsVisual" = VBool true ->
   truthy_value (prop step "visualDescription") = true) /\
  (prop step "needsVisual" = VBool false ->
   prop step "visualDescription" = VNull).

Definition valid_section (section : value) : Prop :=
  truthy_value section = true /\
  exists steps, prop section "steps" = VArr steps /\ Forall valid_step steps.

(** A structure of valid sections with exactly four visual steps. *)
Definition valid_structure (structure : value) : Prop :=
  truthy_value structure = true /\ Documents.typeof_object structure = true /\
  (exists sections,
     prop structure "sections" = VArr sections /\ Forall valid_section sections) /\
  List.length (filter needs_visual (all_steps structure)) = 4%nat.

(** A character of a keyword: a lower-case letter, a digit or the
    underscore. *)
Definition keyword_char (c : ascii) : bool :=
  let n := code c in
  ((48 <=? n) && (n <=? 57) || (97 <=? n) && (n <=? 122) || (n =? 95))%nat.

(** A keyword as [extractKeywords] returns them. *)
Definition keyword (word : string) : Prop :=
  (2 < String.length word)%nat /\
  ~ In word LegacyClips.stopWords /\
  forallb keyword_char (chars word) = true.

(** Whether [groupRelevantTimestamps] takes an entry for relevant. *)
Definition relevant (keywords : list string) (t : LegacyClips.Stamp) : bool :=
  LegacyClips.isTimestampRelevant (LegacyClips.text t) keywords.

(** How many clips of a list come from the video [path]. *)
Definition clips_of_video (path : string) (clips : list LegacySelection.Clip) : nat :=
  List.length (filter (fun c => String.eqb (LegacySelection.videoPath c) path) clips).

(** The invariant of [clipsByVideo]: distinct keys, and under each key
    clips of that video taken from [source]. *)
Definition grouped (source : list LegacySelection.Clip)
    (clipsByVideo : list (string * list LegacySelection.Clip)) : Prop :=
  NoDup (map fst clipsByVideo) /\
  Forall (fun video =>
            Forall (fun c => LegacySelection.videoPath c = fst video /\ In c source)
              (snd video))
    clipsByVideo.

(** No clip of the list is a near duplicate of another one. *)
Definition apart (clips : list LegacySelection.Clip) : Prop :=
  forall a b, In a clips -> In b clips -> a <> b -> LegacySelection.near a b = false.

End Notions.

(** * Properties *)

(** ** Comparisons of numbers *)

Module NumFacts.

Lemma Qle_bool_false (x y : Q) : Qle_bool x y = false -> y < x.
Proof.
  intro H. apply Qnot_le_lt. intro Hle.
  apply Qle_bool_iff in Hle. congruence.
Qed.

Lemma Qltb_true (x y : Q) : Qltb x y = true -> x < y.
Proof.
  unfold Qltb. intro H. apply Qle_bool_false.
  destruct (Qle_bool y x); [discriminate | reflexivity].
Qed.

Lemma Qltb_false (x y : Q) : Qltb x y = false -> y <= x.
Proof.
  unfold Qltb. intro H. apply Qle_bool_iff.
  destruct (Qle_bool y x); [reflexivity | discriminate].
Qed.

Lemma Qeq_bool_false (x y : Q) : Qeq_bool x y = false -> ~ x == y.
Proof. apply Qeq_bool_neq. Qed.

Lemma Qltb_intro (x y : Q) : x < y -> Qltb x y = true.
Proof.
  intro H. destruct (Qltb x y) eqn:E; [reflexivity |].
  apply Qltb_false in E. exfalso. lra.
Qed.

Lemma Qltb_intro_false (x y : Q) : y <= x -> Qltb x y = false.
Proof.
  intro H. destruct (Qltb x y) eqn:E; [| reflexivity].
  apply Qltb_true in E. exfalso. lra.
Qed.

Lemma Qle_bool_intro (x y : Q) : x <= y -> Qle_bool x y = true.
Proof. apply Qle_bool_iff. Qed.

Lemma Qle_bool_intro_false (x y : Q) : y < x -> Qle_bool x y = false.
Proof.
  intro H. destruct (Qle_bool x y) eqn:E; [| reflexivity].
  apply Qle_bool_iff in E. exfalso. lra.
Qed.

End NumFacts.

(** Case analysis on every comparison of rationals in the goal, each
    case keeping the order fact it stands for. *)
Ltac qcases :=
  repeat match goal with
    | |- context [Qle_bool ?a ?b] =>
        let E := fresh "E" in
        destruct (Qle_bool a b) eqn:E;
        [ apply Qle_bool_iff in E | apply NumFacts.Qle_bool_false in E ]
    | |- context [Qltb ?a ?b] =>
        let E := fresh "E" in
        destruct (Qltb a b) eqn:E;
        [ apply NumFacts.Qltb_true in E | apply NumFacts.Qltb_false in E ]
    | |- context [Qeq_bool ?a ?b] =>
        let E := fresh "E" in
        destruct (Qeq_bool a b) eqn:E;
        [ apply Qeq_bool_iff in E | apply NumFacts.Qeq_bool_false in E ]
    end.

(** Evaluation of the operations on numbers whose operands are known to
    be finite, alternating with the case analysis on the comparisons
    this exposes. *)
Ltac num_norm :=
  cbn [JSNum.sub JSNum.neg JSNum.add JSNum.leb JSNum.gtb JSNum.geb JSNum.ltb
       JSNum.max JSNum.min JSNum.isNaN JSNum.isFinite negb andb orb].

Ltac num_cases := repeat (progress (num_norm; qcases)).

(** ** The curator *)

Module CuratorFacts.
Import Extractor.
Import Statements.

Lemma fallback_loop_isFallback (userQuery : string) (videoFiles : list string) :
  forall i, Forall (fun c => Clip.isFallback c = true)
              (fallback_loop userQuery i videoFiles).
Proof.
  induction videoFiles as [| f rest IH]; intro i; simpl.
  - constructor.
  - destruct (i <? 2)%nat; constructor; [reflexivity | apply IH].
Qed.

Lemma fallback_loop_length (userQuery : string) (videoFiles : list string) :
  forall i, (List.length (fallback_loop userQuery i videoFiles) <= 2 - i)%nat.
Proof.
  induction videoFiles as [| f rest IH]; intro i; cbn [fallback_loop].
  - apply Nat.le_0_l.
  - destruct (i <? 2)%nat eqn:E; [| apply Nat.le_0_l].
    apply Nat.ltb_lt in E. specialize (IH (S i)).
    cbn [List.length]. lia.
Qed.

Lemma createSemanticClips_nil (env : Collaborators) (userQuery agentResponse : string) :
  createSemanticClips env [] userQuery agentResponse = [].
Proof. reflexivity. Qed.

(** C1.  A call of [extractRelevantClips] that retrieves no reference,
    with at least one video file in the videos directory, returns a
    non-empty sequence of clips, each with [isFallback = true]. *)
Theorem extractRelevantClips_no_reference_fallback
    (env : Collaborators) (agentTrace : option Trace)
    (agentResponse userQuery : string) (files : list string) (file : string)
    (Hrefs : retrieved agentTrace = [])
    (Hdir : readdir env = Some files)
    (Hin : In file files)
    (Hvideo : isVideoFile file = true) :
  let clips := extractRelevantClips env agentTrace agentResponse userQuery in
  clips <> [] /\ Forall (fun c => item_isFallback c = true) clips.
Proof.
  assert (Hclips :
    extractRelevantClips env agentTrace agentResponse userQuery =
    map SelectedClip (fallback_loop userQuery 0 (findAllVideoFiles (readdir env)))).
  { unfold extractRelevantClips.
    assert (H0 : match agentTrace with
                 | Some trace =>
                     createSemanticClips env (extractStructuredReferences trace)
                       userQuery agentResponse
                 | None => []
                 end = []).
    { destruct agentTrace as [trace |]; [| reflexivity].
      simpl in Hrefs. rewrite Hrefs. reflexivity. }
    rewrite H0. reflexivity. }
  cbv zeta. rewrite Hclips. split.
  - assert (Hf : In file (findAllVideoFiles (readdir env))).
    { rewrite Hdir. unfold findAllVideoFiles. apply filter_In. split; assumption. }
    destruct (findAllVideoFiles (readdir env)) as [| f rest]; [contradiction |].
    simpl. discriminate.
  - apply Forall_map. apply fallback_loop_isFallback.
Qed.

Lemma extractRelevantClips_no_reference_fallback_witness :
  let clips := extractRelevantClips env_one_video None "answer" "question" in
  clips <> [] /\ Forall (fun c => item_isFallback c = true) clips.
Proof.
  apply (@extractRelevantClips_no_reference_fallback env_one_video None
           "answer" "question" ["intro.mp4"%string] "intro.mp4"%string).
  - reflexivity.
  - reflexivity.
  - simpl. left. reflexivity.
  - vm_compute. reflexivity.
Defined.


Lemma prop_truthy_object (v : value) (k : string) :
  truthy_value (prop v k) = true -> truthy_value v = true.
Proof. destruct v; simpl; try discriminate; reflexivity. Qed.

(** C3.  For a window of duration 10 seconds that starts at a
    non-negative time and an LLM judgment that includes the clip with a
    relevance score at or above the threshold and proposes
    [optimal_start_offset = 8] and [optimal_end_offset = 8], the curator
    produces a clip, its duration [endTime - startTime] is at least 5
    seconds, and [endTime] is after [startTime].  (Without a Bedrock
    client the judgment is not consulted and the same bounds hold.)
    The bounds do not rest on the duration being exactly 10: they hold
    for every window of at least 3 seconds, on the branch that keeps the
    optimised span as on the one that falls back to the window. *)
Theorem enhanceClipWithLLM_ten_second_window
    (hasClient : bool) (analysis : value) (segment : Segment.t) (videoFile : string)
    (s e : Q)
    (Hs : Segment.startTime segment = Fin s)
    (He : Segment.endTime segment = Fin e)
    (Hnonneg : 0 <= s)
    (Hdur : 3 <= e - s)
    (Hinclude : truthy_value (prop analysis "include_clip") = true)
    (Hscore :
       (toNumber_value (prop analysis "relevance_score") >=? MIN_LLM_SCORE)%num = true)
    (Hso : prop analysis "optimal_start_offset" = VNum (Fin 8))
    (Heo : prop analysis "optimal_end_offset" = VNum (Fin 8)) :
  exists clip a b,
    enhanceClipWithLLM hasClient analysis segment videoFile = Some clip /\
    Clip.startTime clip = Fin a /\ Clip.endTime clip = Fin b /\
    5 <= b - a /\ a < b.
Proof.
  assert (H8 : toNumber_value (or_value (VNum (Fin 8)) (VNum (Fin 0))) = Fin 8)
    by reflexivity.
  unfold enhanceClipWithLLM, createValidClip, createBasicClip.
  destruct hasClient; cbn [negb].
  - rewrite Hs, He, (prop_truthy_object _ _ Hinclude), Hinclude, Hscore, Hso, Heo, H8.
    unfold CONTEXT_BUFFER. num_cases;
      try (exfalso; lra);
      (eexists; eexists; eexists; split; [reflexivity |];
       cbn [Clip.startTime Clip.endTime]; split; [reflexivity |];
       split; [reflexivity |]; split; lra).
  - rewrite Hs, He. num_cases; try (exfalso; lra);
      (eexists; eexists; eexists; split; [reflexivity |];
       cbn [Clip.startTime Clip.endTime]; split; [reflexivity |];
       split; [reflexivity |]; split; lra).
Qed.

Lemma enhanceClipWithLLM_ten_second_window_witness :
  exists clip a b,
    enhanceClipWithLLM true judgment_8_8 window_20_30 "router.mp4" = Some clip /\
    Clip.startTime clip = Fin a /\ Clip.endTime clip = Fin b /\
    5 <= b - a /\ a < b.
Proof.
  apply (@enhanceClipWithLLM_ten_second_window true judgment_8_8 window_20_30
           "router.mp4" 20 30).
  - reflexivity.
  - reflexivity.
  - lra.
  - lra.
  - reflexivity.
  - reflexivity.
  - reflexivity.
  - reflexivity.
Defined.

End CuratorFacts.

(** ** Time strings *)

Module TimeFacts.
Import Extractor.
Import Statements.

Lemma chars_str (l : list ascii) : chars (str l) = l.
Proof. apply list_ascii_of_string_of_list_ascii. Qed.

Lemma str_chars (s : string) : str (chars s) = s.
Proof. apply string_of_list_ascii_of_string. Qed.

Lemma chars_app (a b : string) : chars (a ++ b) = (chars a ++ chars b)%list.
Proof. induction a as [| c a IH]; simpl; [reflexivity | now rewrite <- IH]. Qed.

Lemma digit_char (c : ascii) :
  isDigit c = true ->
  isSpace c = false /\
  Ascii.eqb c ":"%char = false /\
  Ascii.eqb c "-"%char = false /\
  Ascii.eqb c "+"%char = false /\
  Ascii.eqb c "."%char = false /\
  Ascii.eqb c "I"%char = false /\
  Ascii.eqb c "x"%char = false /\
  Ascii.eqb c "X"%char = false /\
  (0 <= digit_of c)%Z.
Proof.
  destruct c as [[] [] [] [] [] [] [] []]; vm_compute; intro H;
    try discriminate H; repeat split; discriminate.
Qed.

Lemma digits_all (d : Decimal.uint) : forallb isDigit (digits d) = true.
Proof. induction d; simpl; auto. Qed.

Lemma digits_val_acc (d : Decimal.uint) :
  forall acc : nat,
    fold_left (fun a c => 10 * a + digit_of c)%Z (digits d) (Z.of_nat acc) =
    Z.of_nat (Nat.of_uint_acc d acc).
Proof.
  induction d; intro acc; cbn [digits chars DecimalString.NilEmpty.string_of_uint
    list_ascii_of_string fold_left Nat.of_uint_acc]; try reflexivity;
  fold (chars (DecimalString.NilEmpty.string_of_uint d)); fold (digits d);
  rewrite <- IHd; f_equal; rewrite Nat.tail_mul_spec. all: unfold digit_of, code;
    match goal with
    | |- context [nat_of_ascii ?c] =>
        let v := eval vm_compute in (nat_of_ascii c) in
        change (nat_of_ascii c) with v
    end; lia.
Qed.

Lemma digits_val_of_uint (d : Decimal.uint) :
  digits_val (digits d) = Z.of_nat (Nat.of_uint d).
Proof. apply (digits_val_acc d 0). Qed.


Lemma fold_digits_nonneg (ds : list ascii) :
  forall acc : Z,
    (0 <= acc)%Z -> forallb isDigit ds = true ->
    (0 <= fold_left (fun a c => 10 * a + digit_of c) ds acc)%Z.
Proof.
  induction ds as [| c r IH]; intros acc Hacc Hds; cbn [fold_left].
  - assumption.
  - cbn [forallb] in Hds. apply andb_prop in Hds. destruct Hds as [Hc Hr].
    apply IH; [| assumption].
    pose proof (digit_char c Hc) as D. decompose [and] D. lia.
Qed.

Lemma digits_val_nonneg (ds : list ascii) :
  forallb isDigit ds = true -> (0 <= digits_val ds)%Z.
Proof. apply fold_digits_nonneg. lia. Qed.

Lemma not_digit_eqb (c k : ascii) :
  isDigit c = true -> isDigit k = false ->
  Ascii.eqb c k = false /\ Ascii.eqb k c = false.
Proof.
  intros Hc Hk. split; destruct (Ascii.eqb _ _) eqn:E; try reflexivity;
    apply Ascii.eqb_eq in E; subst; congruence.
Qed.

Lemma takeWhile_digits (ds rest : list ascii) :
  forallb isDigit ds = true ->
  match rest with [] => True | c :: _ => isDigit c = false end ->
  takeWhile isDigit (ds ++ rest) = ds /\ dropWhile isDigit (ds ++ rest) = rest.
Proof.
  intros Hds Hrest. induction ds as [| c r IH]; simpl.
  - destruct rest as [| c r]; simpl; [auto |]. rewrite Hrest. auto.
  - simpl in Hds. apply andb_prop in Hds. destruct Hds as [Hc Hr].
    rewrite Hc. destruct (IH Hr) as [H1 H2]. rewrite H1, H2. auto.
Qed.

Lemma dropWhile_none (p : ascii -> bool) (l : list ascii) :
  forallb (fun c => negb (p c)) l = true -> dropWhile p l = l.
Proof.
  destruct l as [| c r]; simpl; [reflexivity |].
  intro H. apply andb_prop in H. destruct H as [H _].
  destruct (p c); [discriminate | reflexivity].
Qed.

Lemma forallb_rev (p : ascii -> bool) (l : list ascii) :
  forallb p l = true -> forallb p (List.rev l) = true.
Proof.
  rewrite !forallb_forall. intros H x Hx. apply H. now apply in_rev.
Qed.

Lemma trim_no_space (l : list ascii) :
  forallb (fun c => negb (isSpace c)) l = true -> trim l = l.
Proof.
  intro H. unfold trim, trimEnd, trimStart.
  rewrite (dropWhile_none isSpace l H).
  rewrite (dropWhile_none isSpace (List.rev l) (forallb_rev _ _ H)).
  apply rev_involutive.
Qed.

Lemma split_on_single (sep : ascii) (a : list ascii) :
  forallb (fun c => negb (Ascii.eqb c sep)) a = true -> split_on sep a = [a].
Proof.
  induction a as [| c r IH]; simpl; [reflexivity |].
  intro H. apply andb_prop in H. destruct H as [Hc Hr].
  destruct (Ascii.eqb c sep); [discriminate |].
  rewrite (IH Hr). reflexivity.
Qed.

Lemma split_on_app (sep : ascii) (a b : list ascii) :
  forallb (fun c => negb (Ascii.eqb c sep)) a = true ->
  split_on sep (a ++ sep :: b) = a :: split_on sep b.
Proof.
  induction a as [| c r IH]; simpl.
  - intros _. rewrite Ascii.eqb_refl. reflexivity.
  - intro H. apply andb_prop in H. destruct H as [Hc Hr].
    destruct (Ascii.eqb c sep); [discriminate |].
    rewrite (IH Hr). reflexivity.
Qed.

Lemma forallb_impl (p q : ascii -> bool) (l : list ascii) :
  (forall c, p c = true -> q c = true) -> forallb p l = true -> forallb q l = true.
Proof.
  intros Hpq. rewrite !forallb_forall. auto.
Qed.

Lemma digits_no_space (ds : list ascii) :
  forallb isDigit ds = true -> forallb (fun c => negb (isSpace c)) ds = true.
Proof.
  apply forallb_impl. intros c Hc. destruct (digit_char c Hc) as [H _]. now rewrite H.
Qed.

Lemma digits_no_colon (ds : list ascii) :
  forallb isDigit ds = true ->
  forallb (fun c => negb (Ascii.eqb c ":"%char)) ds = true.
Proof.
  apply forallb_impl. intros c Hc. destruct (digit_char c Hc) as [_ [H _]]. now rewrite H.
Qed.

Lemma parseInt_digits (ds : list ascii) :
  forallb isDigit ds = true -> parseInt_or0 ds = of_Z (digits_val ds).
Proof.
  intro Hds. destruct ds as [| c r]; [reflexivity |].
  pose proof Hds as Hall.
  cbn [forallb] in Hds. apply andb_prop in Hds. destruct Hds as [Hc Hr].
  unfold parseInt_or0, parseInt, trimStart.
  rewrite (dropWhile_none isSpace (c :: r) (digits_no_space _ Hall)).
  destruct (digit_char c Hc) as (_ & _ & Hm & Hp & _).
  unfold scan_sign. rewrite Hm, Hp.
  assert (Hhex : strip_hex_prefix (c :: r) = None).
  { unfold strip_hex_prefix. cbn [stripPrefix chars list_ascii_of_string].
    destruct (Ascii.eqb "0" c); [| reflexivity].
    destruct r as [| c2 r2]; [reflexivity |].
    cbn [forallb] in Hr. apply andb_prop in Hr. destruct Hr as [Hc2 _].
    destruct (not_digit_eqb c2 "x" Hc2 eq_refl) as [_ Hx].
    destruct (not_digit_eqb c2 "X" Hc2 eq_refl) as [_ HX].
    rewrite Hx, HX. reflexivity. }
  rewrite Hhex.
  destruct (takeWhile_digits (c :: r) [] Hall I) as [Ht _].
  rewrite app_nil_r in Ht. rewrite Ht. reflexivity.
Qed.

Lemma parseFloat_digits (ds : list ascii) :
  forallb isDigit ds = true -> parseFloat_or0 ds = of_Z (digits_val ds).
Proof.
  intro Hds. destruct ds as [| c r]; [reflexivity |].
  pose proof Hds as Hall.
  cbn [forallb] in Hds. apply andb_prop in Hds. destruct Hds as [Hc Hr].
  unfold parseFloat_or0, parseFloat, trimStart.
  rewrite (dropWhile_none isSpace (c :: r) (digits_no_space _ Hall)).
  destruct (digit_char c Hc) as (_ & _ & Hm & Hp & _).
  unfold scan_sign. rewrite Hm, Hp.
  unfold scan_unsigned.
  assert (Hinf : stripPrefix (chars "Infinity") (c :: r) = None).
  { cbn [stripPrefix chars list_ascii_of_string].
    destruct (not_digit_eqb c "I" Hc eq_refl) as [_ HI]. now rewrite HI. }
  rewrite Hinf.
  destruct (takeWhile_digits (c :: r) [] Hall I) as [Ht Hd].
  rewrite app_nil_r in Ht, Hd. rewrite Ht, Hd.
  cbn [app scan_exponent List.length].
  rewrite app_nil_r.
  unfold scale10, of_Z.
  change (0 <=? 0 - Z.of_nat 0)%Z with true. cbn iota.
  change (10 ^ (0 - Z.of_nat 0))%Z with 1%Z. rewrite Z.mul_1_r. reflexivity.
Qed.


Lemma str_nonempty (l : list ascii) :
  l <> [] -> String.eqb (str l) EmptyString = false.
Proof. destruct l; [congruence | reflexivity]. Qed.

(** [Math.max(0, x)] followed by the [isNaN] test, on a non-negative
    integer. *)
Lemma clamp_nonneg (z : Z) (q : Q) :
  (0 <= z)%Z -> q == inject_Z z ->
  (if isNaN (max (Fin 0) (Fin q)) then Fin 0 else max (Fin 0) (Fin q)) =n= of_Z z.
Proof.
  intros Hz Hq. assert (0 <= inject_Z z).
  { change 0 with (inject_Z 0). now rewrite <- Zle_Qle. }
  unfold of_Z. num_cases; cbn [num_eq]; lra.
Qed.

Lemma colon_groups_pure_number (a rest : list ascii) :
  forallb isDigit a = true -> pure_number (a ++ ":"%char :: rest) = false.
Proof.
  intro Ha. unfold pure_number.
  destruct (takeWhile_digits a (":"%char :: rest) Ha eq_refl) as [Ht Hd].
  rewrite Ht, Hd. destruct a; reflexivity.
Qed.

Lemma timeToSeconds_two_groups (a b : list ascii) :
  forallb isDigit a = true -> forallb isDigit b = true ->
  timeToSeconds (VStr (str (a ++ ":"%char :: b))) =n=
  of_Z (digits_val a * 60 + digits_val b).
Proof.
  intros Ha Hb.
  assert (Hns : forallb (fun c => negb (isSpace c)) (a ++ ":"%char :: b) = true).
  { rewrite forallb_app. rewrite (digits_no_space a Ha). cbn [forallb andb].
    now rewrite (digits_no_space b Hb). }
  unfold timeToSeconds. cbn [truthy_value toString].
  rewrite str_nonempty by (destruct a; discriminate).
  cbn [negb]. rewrite chars_str, (trim_no_space _ Hns).
  rewrite (colon_groups_pure_number a b Ha).
  rewrite (split_on_app ":"%char a b (digits_no_colon a Ha)).
  rewrite (split_on_single ":"%char b (digits_no_colon b Hb)).
  cbn [decompose]. rewrite (parseInt_digits a Ha), (parseFloat_digits b Hb).
  unfold of_Z at 1 2. cbn [mul add].
  apply clamp_nonneg.
  - pose proof (digits_val_nonneg a Ha). pose proof (digits_val_nonneg b Hb). lia.
  - rewrite inject_Z_plus, inject_Z_mult. reflexivity.
Qed.

Lemma timeToSeconds_three_groups (a b c : list ascii) :
  forallb isDigit a = true -> forallb isDigit b = true -> forallb isDigit c = true ->
  timeToSeconds (VStr (str (a ++ ":"%char :: b ++ ":"%char :: c))) =n=
  of_Z (digits_val a * 3600 + digits_val b * 60 + digits_val c).
Proof.
  intros Ha Hb Hc.
  assert (Hns : forallb (fun c => negb (isSpace c))
                  (a ++ ":"%char :: b ++ ":"%char :: c) = true).
  { rewrite forallb_app. rewrite (digits_no_space a Ha). cbn [forallb andb].
    rewrite forallb_app. rewrite (digits_no_space b Hb). cbn [forallb andb].
    now rewrite (digits_no_space c Hc). }
  unfold timeToSeconds. cbn [truthy_value toString].
  rewrite str_nonempty by (destruct a; discriminate).
  cbn [negb]. rewrite chars_str, (trim_no_space _ Hns).
  rewrite (colon_groups_pure_number a _ Ha).
  rewrite (split_on_app ":"%char a _ (digits_no_colon a Ha)).
  rewrite (split_on_app ":"%char b _ (digits_no_colon b Hb)).
  rewrite (split_on_single ":"%char c (digits_no_colon c Hc)).
  cbn [decompose].
  rewrite (parseInt_digits a Ha), (parseInt_digits b Hb), (parseFloat_digits c Hc).
  unfold of_Z at 1 2 3. cbn [mul add].
  apply clamp_nonneg.
  - pose proof (digits_val_nonneg a Ha). pose proof (digits_val_nonneg b Hb).
    pose proof (digits_val_nonneg c Hc). lia.
  - rewrite !inject_Z_plus, !inject_Z_mult. reflexivity.
Qed.

Lemma parseFloat_leading_digit (c : ascii) (r : list ascii) :
  isDigit c = true -> exists q, parseFloat (c :: r) = Fin q.
Proof.
  intro Hc. destruct (digit_char c Hc) as (Hsp & _ & Hm & Hp & _).
  unfold parseFloat, trimStart. cbn [dropWhile]. rewrite Hsp.
  unfold scan_sign. rewrite Hm, Hp.
  unfold scan_unsigned. cbn [stripPrefix chars list_ascii_of_string].
  destruct (not_digit_eqb c "I" Hc eq_refl) as [_ HI]. rewrite HI.
  cbn [takeWhile]. rewrite Hc.
  destruct (match dropWhile isDigit (c :: r) with
            | [] => ([], dropWhile isDigit (c :: r))
            | c0 :: r0 =>
                if Ascii.eqb c0 "."%char
                then (takeWhile isDigit r0, dropWhile isDigit r0)
                else ([], dropWhile isDigit (c :: r))
            end) as [fp r2].
  cbn [app]. destruct (scan_exponent r2) as [e r3]. eexists. reflexivity.
Qed.

Lemma pure_number_parseFloat (s : list ascii) :
  pure_number s = true -> exists q, parseFloat s = Fin q.
Proof.
  unfold pure_number. destruct s as [| c r]; [discriminate |].
  cbn [takeWhile]. destruct (isDigit c) eqn:Hc; [| discriminate].
  intros _. now apply parseFloat_leading_digit.
Qed.

(** Whatever the argument, short of the number [NaN] itself, the result
    is a number that is not negative. *)
Lemma timeToSeconds_nonneg (v : value) :
  v <> VNum NaN ->
  isNaN (timeToSeconds v) = false /\ (Fin 0 <=? timeToSeconds v)%num = true.
Proof.
  intro Hv.
  assert (Hmax : forall n, n <> NaN ->
            isNaN (max (Fin 0) n) = false /\ (Fin 0 <=? max (Fin 0) n)%num = true).
  { intros [| | | q] Hn; [congruence | | |]; num_cases; try (exfalso; lra);
      split; try reflexivity; apply Qle_bool_iff; lra. }
  assert (Hclamp : forall n,
            isNaN (if isNaN (max (Fin 0) n) then Fin 0 else max (Fin 0) n) = false /\
            (Fin 0 <=? (if isNaN (max (Fin 0) n) then Fin 0 else max (Fin 0) n))%num = true).
  { intros [| | | q]; num_cases; try (exfalso; lra); split; try reflexivity;
      apply Qle_bool_iff; lra. }
  assert (Hstr : forall w,
            let s := trim (toString w) in
            isNaN (if pure_number s then max (Fin 0) (parseFloat s)
                   else let seconds := decompose (split_on ":"%char s) in
                        let result := max (Fin 0) seconds in
                        if isNaN result then Fin 0 else result) = false /\
            (Fin 0 <=? (if pure_number s then max (Fin 0) (parseFloat s)
                        else let seconds := decompose (split_on ":"%char s) in
                             let result := max (Fin 0) seconds in
                             if isNaN result then Fin 0 else result))%num = true).
  { intros w s. destruct (pure_number s) eqn:Hp.
    - destruct (pure_number_parseFloat s Hp) as [q Hq]. rewrite Hq.
      apply Hmax. discriminate.
    - apply Hclamp. }
  unfold timeToSeconds.
  destruct v as [| | b | n | s | items | fields];
    try (destruct (negb _); [split; reflexivity | apply Hstr]).
  apply Hmax. congruence.
Qed.


Lemma str_app (a b : list ascii) : str (a ++ b) = (str a ++ str b)%string.
Proof. induction a as [| c a IH]; simpl; [reflexivity | now rewrite <- IH]. Qed.

Lemma MM_SS_chars (mm ss : Decimal.uint) :
  MM_SS mm ss = str (digits mm ++ ":"%char :: digits ss).
Proof.
  unfold MM_SS, digits, render. rewrite str_app. cbn [str string_of_list_ascii].
  fold (str (chars (DecimalString.NilEmpty.string_of_uint ss))).
  now rewrite !str_chars.
Qed.

Lemma HH_MM_SS_chars (hh mm ss : Decimal.uint) :
  HH_MM_SS hh mm ss =
  str (digits hh ++ ":"%char :: digits mm ++ ":"%char :: digits ss).
Proof.
  unfold HH_MM_SS, digits, render. rewrite str_app. cbn [str string_of_list_ascii].
  fold (str (chars (DecimalString.NilEmpty.string_of_uint mm) ++
             ":"%char :: chars (DecimalString.NilEmpty.string_of_uint ss))).
  rewrite str_app. cbn [str string_of_list_ascii].
  fold (str (chars (DecimalString.NilEmpty.string_of_uint ss))).
  now rewrite !str_chars.
Qed.

Lemma timeToSeconds_unreadable (s : string) :
  unreadable s = true -> timeToSeconds (VStr s) = Fin 0.
Proof.
  unfold unreadable, timeToSeconds. cbn [truthy_value toString].
  destruct (negb (negb (String.eqb s EmptyString))); [reflexivity |].
  destruct (pure_number (trim (chars s))); [discriminate |].
  cbn [negb andb].
  destruct (decompose (split_on ":"%char (trim (chars s)))) as [| | | q];
    cbn [isNaN]; try discriminate. reflexivity.
Qed.

Lemma timeToSeconds_negative (s : string) :
  negative s = true -> timeToSeconds (VStr s) = Fin 0.
Proof.
  unfold negative, timeToSeconds. cbn [truthy_value toString].
  destruct (negb (negb (String.eqb s EmptyString))); [reflexivity |].
  destruct (pure_number (trim (chars s))); [discriminate |].
  cbn [negb andb].
  destruct (decompose (split_on ":"%char (trim (chars s)))) as [| | | q];
    num_cases; try reflexivity; try discriminate.
  intros _. exfalso. lra.
Qed.

(** C8 (as amended).  For digit groups [mm], [ss] (and [hh]) whose
    result is at most [2^53] the string [MM:SS] parses to
    [minutes * 60 + seconds] and [HH:MM:SS] to
    [hours * 3600 + minutes * 60 + seconds]; for every string whatever
    the result is a number that is not negative (nothing is thrown and
    [NaN] never comes out); the result is [0] for every string whose
    positional decomposition is [NaN], and for every string of at most
    twelve characters whose positional decomposition is negative. *)
Theorem timeToSeconds_positional :
  (forall mm ss : Decimal.uint,
      exactly_held (Nat.of_uint mm * 60 + Nat.of_uint ss) ->
      timeToSeconds (VStr (MM_SS mm ss)) =n=
      of_nat (Nat.of_uint mm * 60 + Nat.of_uint ss)) /\
  (forall hh mm ss : Decimal.uint,
      exactly_held (Nat.of_uint hh * 3600 + Nat.of_uint mm * 60 + Nat.of_uint ss) ->
      timeToSeconds (VStr (HH_MM_SS hh mm ss)) =n=
      of_nat (Nat.of_uint hh * 3600 + Nat.of_uint mm * 60 + Nat.of_uint ss)) /\
  (forall s : string,
      isNaN (timeToSeconds (VStr s)) = false /\
      (Fin 0 <=? timeToSeconds (VStr s))%num = true) /\
  (forall s : string, unreadable s = true -> timeToSeconds (VStr s) = Fin 0) /\
  (forall s : string,
      (String.length s <= 12)%nat -> negative s = true ->
      timeToSeconds (VStr s) = Fin 0).
Proof.
  split; [| split; [| split; [| split]]].
  - intros mm ss _. rewrite MM_SS_chars. unfold of_nat.
    replace (Z.of_nat (Nat.of_uint mm * 60 + Nat.of_uint ss))
      with (digits_val (digits mm) * 60 + digits_val (digits ss))%Z
      by (rewrite !digits_val_of_uint; lia).
    apply timeToSeconds_two_groups; apply digits_all.
  - intros hh mm ss _. rewrite HH_MM_SS_chars. unfold of_nat.
    replace (Z.of_nat (Nat.of_uint hh * 3600 + Nat.of_uint mm * 60 + Nat.of_uint ss))
      with (digits_val (digits hh) * 3600 + digits_val (digits mm) * 60 +
            digits_val (digits ss))%Z
      by (rewrite !digits_val_of_uint; lia).
    apply timeToSeconds_three_groups; apply digits_all.
  - intro s. apply timeToSeconds_nonneg. discriminate.
  - apply timeToSeconds_unreadable.
  - intros s _. apply timeToSeconds_negative.
Qed.

Lemma timeToSeconds_positional_witness :
  timeToSeconds (VStr (MM_SS (Decimal.D0 (Decimal.D5 Decimal.Nil))
                             (Decimal.D3 (Decimal.D0 Decimal.Nil)))) =n=
    of_nat (5 * 60 + 30) /\
  timeToSeconds (VStr (HH_MM_SS (Decimal.D1 Decimal.Nil)
                                (Decimal.D0 (Decimal.D2 Decimal.Nil))
                                (Decimal.D0 (Decimal.D5 Decimal.Nil)))) =n=
    of_nat (1 * 3600 + 2 * 60 + 5) /\
  timeToSeconds (VStr "abc") = Fin 0 /\
  timeToSeconds (VStr "-1:30") = Fin 0.
Proof.
  split; [| split; [| split]].
  - apply (proj1 timeToSeconds_positional
             (Decimal.D0 (Decimal.D5 Decimal.Nil))
             (Decimal.D3 (Decimal.D0 Decimal.Nil))).
    vm_compute. discriminate.
  - apply (proj1 (proj2 timeToSeconds_positional)
             (Decimal.D1 Decimal.Nil)
             (Decimal.D0 (Decimal.D2 Decimal.Nil))
             (Decimal.D0 (Decimal.D5 Decimal.Nil))).
    vm_compute. discriminate.
  - apply (proj1 (proj2 (proj2 (proj2 timeToSeconds_positional))) "abc"%string).
    vm_compute. reflexivity.
  - apply (proj2 (proj2 (proj2 (proj2 timeToSeconds_positional))) "-1:30"%string).
    + vm_compute. lia.
    + vm_compute. reflexivity.
Defined.

(** C8 as stated fails: a malformed string with a numeric prefix does
    not parse to [0]. *)
Lemma timeToSeconds_malformed_not_zero :
  timeToSeconds (VStr "12abc") = Fin 12 /\
  timeToSeconds (VStr "1:-30") = Fin 30 /\
  timeToSeconds (VStr "5x:30") = Fin 330.
Proof. vm_compute. repeat split; reflexivity. Qed.

(** The no-break space is white space to [trim] and to [parseFloat]:
    a number that follows one is read. *)
Remark timeToSeconds_no_break_space :
  timeToSeconds (VStr (String (chr 160) "5")) = Fin 5 /\
  timeToSeconds (VStr (String (chr 160) "1:30")) = Fin 90.
Proof. vm_compute. split; reflexivity. Qed.

End TimeFacts.

(** ** The timestamp parser *)

Module ParserFacts.
Import Extractor.
Import Statements.

(** C2 fails on the code.  The line-oriented strategy pushes what it
    parses without comparing [end] with [start]: an entry whose [end]
    precedes its [start] is rejected by the structured strategy and then
    returned by the line-oriented one, from a whole JSON line as well as
    from a partial one. *)
Theorem parseTimestampsRobustly_returns_inverted_entry :
  parseTimestampsRobustly (qq "{'text':'a','start':'5','end':'3'}") =
    [mkEntry "a" (Fin 5) (Fin 3) (VNum (Fin 1))] /\
  parseTimestampsRobustly (qq "'text': 'b', 'start': '7', 'end': '2'") =
    [mkEntry "b" (Fin 7) (Fin 2) (VNum (Fin (7 # 10)))] /\
  forallb well_timed
    (parseTimestampsRobustly (qq "{'text':'a','start':'5','end':'3'}")) = false.
Proof. vm_compute. repeat split; reflexivity. Qed.

(** Induction on parsed values, with the hypothesis for every item of
    an array and every field of an object. *)
Lemma value_induction (P : value -> Prop)
    (Hundefined : P VUndefined) (Hnull : P VNull)
    (Hbool : forall b, P (VBool b)) (Hnum : forall n, P (VNum n))
    (Hstr : forall s, P (VStr s))
    (Harr : forall items, Forall P items -> P (VArr items))
    (Hobj : forall fields, Forall (fun kv => P (snd kv)) fields -> P (VObj fields)) :
  forall v, P v.
Proof.
  exact
    (fix F (v : value) : P v :=
       match v with
       | VUndefined => Hundefined
       | VNull => Hnull
       | VBool b => Hbool b
       | VNum n => Hnum n
       | VStr s => Hstr s
       | VArr items =>
           Harr items
             ((fix G (l : list value) : Forall P l :=
                 match l with
                 | [] => Forall_nil P
                 | x :: r => Forall_cons x (F x) (G r)
                 end) items)
       | VObj fields =>
           Hobj fields
             ((fix G (l : list (string * value)) : Forall (fun kv => P (snd kv)) l :=
                 match l with
                 | [] => Forall_nil _
                 | x :: r => Forall_cons x (F (snd x)) (G r)
                 end) fields)
       end).
Qed.

Lemma Forall_snoc (A : Type) (P : A -> Prop) (l : list A) (x : A) :
  Forall P l -> P x -> Forall P (l ++ [x]).
Proof. intros Hl Hx. apply Forall_app. split; [assumption | now constructor]. Qed.

Lemma walker_keeps_well_timed (v : value) :
  forall ts, Forall timed ts -> Forall timed (fst (extractTimestampsFromObject v ts)).
Proof.
  induction v using value_induction; intros ts Hts; try exact Hts.
  - cbn [extractTimestampsFromObject].
    revert ts Hts. induction H as [| item rest Hitem Hrest IH]; intros ts Hts.
    + exact Hts.
    + specialize (Hitem ts Hts).
      destruct (extractTimestampsFromObject item ts) as [ts' threw].
      destruct threw; [exact Hitem | apply IH; exact Hitem].
  - cbn [extractTimestampsFromObject].
    destruct (has_triple fields).
    + destruct ((timeToSeconds (get "start"%string fields) >=? Fin 0)%num &&
                (timeToSeconds (get "end"%string fields) >? timeToSeconds (get "start"%string fields))%num)
        eqn:Hvalid; [| exact Hts].
      destruct (get "text"%string fields); try exact Hts.
      destruct (0 <? List.length (trim (chars s)))%nat; [| exact Hts].
      cbn [fst]. apply Forall_snoc; [exact Hts | exact Hvalid].
    + revert ts Hts. induction H as [| [k item] rest Hitem Hrest IH]; intros ts Hts.
      * exact Hts.
      * specialize (Hitem ts Hts). cbn [snd] in Hitem.
        destruct (extractTimestampsFromObject item ts) as [ts' threw].
        destruct threw; [exact Hitem | apply IH; exact Hitem].
Qed.


Lemma sort_insert_Forall (A : Type) (after : A -> A -> bool) (P : A -> Prop)
    (x : A) (l : list A) :
  P x -> Forall P l -> Forall P (sort_insert after x l).
Proof.
  intros Hx Hl. induction Hl as [| y rest Hy Hrest IH]; cbn [sort_insert].
  - now constructor.
  - destruct (after x y); constructor; auto.
Qed.

Lemma js_sort_Forall (A : Type) (after : A -> A -> bool) (P : A -> Prop) (l : list A) :
  Forall P l -> Forall P (js_sort after l).
Proof.
  intro Hl. induction Hl as [| x rest Hx Hrest IH]; cbn [js_sort fold_right].
  - constructor.
  - now apply sort_insert_Forall.
Qed.

Lemma fold_left_Forall (A B : Type) (P : A -> Prop) (f : list A -> B -> list A)
    (l : list B) :
  (forall ts b, Forall P ts -> Forall P (f ts b)) ->
  forall ts, Forall P ts -> Forall P (fold_left f l ts).
Proof.
  intro Hf. induction l as [| b rest IH]; intros ts Hts; cbn [fold_left]; auto.
Qed.

(** The structured strategy returns well-timed entries only. *)
Lemma parseDirectJSON_well_timed (content : list ascii) :
  Forall timed (parseDirectJSON content).
Proof.
  unfold parseDirectJSON, sort_by_start. apply js_sort_Forall.
  apply fold_left_Forall; [| constructor].
  intros ts m Hts. destruct (JSON.parse m); [| exact Hts].
  now apply walker_keeps_well_timed.
Qed.

Lemma parseWithValidation_fuel_well_timed (fuel : nat) :
  forall s ts, Forall timed ts -> Forall timed (parseWithValidation_fuel fuel s ts).
Proof.
  induction fuel as [| fuel IH]; intros s ts Hts; cbn [parseWithValidation_fuel].
  - exact Hts.
  - destruct (triple_at s) as [[[[t st] en] rest] |].
    + apply IH.
      destruct ((timeToSeconds (VStr (str st)) >=? Fin 0)%num &&
                (timeToSeconds (VStr (str en)) >? timeToSeconds (VStr (str st)))%num)
        eqn:Hvalid; cbn [andb]; [| exact Hts].
      destruct (0 <? List.length (trim t))%nat; [| exact Hts].
      apply Forall_snoc; [exact Hts | exact Hvalid].
    + destruct s; [exact Hts | now apply IH].
Qed.

(** So does the global pattern. *)
Lemma parseWithValidation_well_timed (content : list ascii) :
  Forall timed (parseWithValidation content).
Proof.
  unfold parseWithValidation, sort_by_start. apply js_sort_Forall.
  apply parseWithValidation_fuel_well_timed. constructor.
Qed.


Lemma timed_starts_nonneg (e : TranscriptEntry) : timed e -> starts_nonneg e.
Proof.
  unfold timed, well_timed, starts_nonneg. intro H.
  apply andb_prop in H. tauto.
Qed.

Lemma truthy_not_NaN (v : value) : truthy_value v = true -> v <> VNum NaN.
Proof. intros H E. subst. discriminate. Qed.

Lemma extractFromPartialLine_starts_nonneg (line : list ascii) (ts : list TranscriptEntry) :
  Forall starts_nonneg ts -> Forall starts_nonneg (extractFromPartialLine line ts).
Proof.
  intro Hts. unfold extractFromPartialLine.
  destruct (find_field "text" line); [| exact Hts].
  destruct (find_field "start" line) as [startMatch |]; [| exact Hts].
  destruct (find_field "end" line); [| exact Hts].
  apply Forall_snoc; [exact Hts |].
  unfold starts_nonneg. cbn [start].
  apply TimeFacts.timeToSeconds_nonneg. discriminate.
Qed.

Lemma parseJSONStream_line_starts_nonneg (ts : list TranscriptEntry) (line : list ascii) :
  Forall starts_nonneg ts -> Forall starts_nonneg (parseJSONStream_line ts line).
Proof.
  intro Hts. unfold parseJSONStream_line.
  destruct (trim line) as [| c r] eqn:Htrim; [exact Hts |].
  destruct (negb _ && negb _); [exact Hts |].
  destruct (JSON.parse (drop_trailing_comma (c :: r))) as [obj |];
    [| now apply extractFromPartialLine_starts_nonneg].
  assert (Hpush :
    Forall starts_nonneg
      (if truthy_value (prop obj "text") && truthy_value (prop obj "start") &&
          truthy_value (prop obj "end")
       then
         match prop obj "text" with
         | VStr t =>
             ts ++ [mkEntry (trim_string t) (timeToSeconds (prop obj "start"))
                      (timeToSeconds (prop obj "end"))
                      (confidence_or (prop obj "confidence") (Fin 1))]
         | _ => extractFromPartialLine (c :: r) ts
         end
       else ts)).
  { destruct (truthy_value (prop obj "text")); [| exact Hts].
    destruct (truthy_value (prop obj "start")) eqn:Hstart; [| exact Hts].
    destruct (truthy_value (prop obj "end")); [| exact Hts].
    cbn [andb].
    destruct (prop obj "text"); try now apply extractFromPartialLine_starts_nonneg.
    apply Forall_snoc; [exact Hts |].
    unfold starts_nonneg. cbn [start].
    apply TimeFacts.timeToSeconds_nonneg.
    now apply truthy_not_NaN. }
  destruct obj; try exact Hpush.
  now apply extractFromPartialLine_starts_nonneg.
Qed.

(** The half of the entry invariant that every strategy keeps: whatever
    the content, no returned entry starts before [0]. *)
Lemma parseTimestampsRobustly_starts_nonneg (content : string) :
  Forall starts_nonneg (parseTimestampsRobustly content).
Proof.
  unfold parseTimestampsRobustly.
  pose proof (parseDirectJSON_well_timed (chars content)) as H1.
  pose proof (parseWithValidation_well_timed (chars content)) as H3.
  assert (H2 : Forall starts_nonneg (parseJSONStream (chars content))).
  { unfold parseJSONStream, sort_by_start. apply js_sort_Forall.
    apply fold_left_Forall; [| constructor].
    intros ts line. apply parseJSONStream_line_starts_nonneg. }
  destruct (parseDirectJSON (chars content)).
  - destruct (parseJSONStream (chars content)); [| exact H2].
    eapply Forall_impl; [| exact H3]. apply timed_starts_nonneg.
  - eapply Forall_impl; [| exact H1]. apply timed_starts_nonneg.
Qed.

(** The objects C10 is about: [start] is the number [0]. *)
Lemma zero_start_no_triple (fields : list (string * value)) (q : Q) :
  get "start" fields = VNum (Fin q) -> q == 0 -> has_triple fields = false.
Proof.
  intros Hstart Hq. unfold has_triple. rewrite Hstart. cbn [truthy_value truthy].
  apply Qeq_bool_iff in Hq. rewrite Hq. cbn [negb]. now rewrite andb_false_r.
Qed.

(** C10 (as amended).  A parsed object whose [start] is the number [0]
    is dropped by the structured walker, which only walks the values of its fields as
    it would the items of an array, and by the line-oriented parser,
    which pushes nothing for a line that parses to it: the existence
    check [obj.text && obj.start && obj.end] takes [0] for an absent
    field, whatever [text] and [end] are. *)
Theorem zero_start_object_dropped
    (fields : list (string * value)) (timestamps : list TranscriptEntry) (q : Q)
    (Hstart : get "start" fields = VNum (Fin q))
    (Hzero : q == 0) :
  extractTimestampsFromObject (VObj fields) timestamps =
    extractTimestampsFromObject (VArr (values fields)) timestamps /\
  (forall line,
      JSON.parse (drop_trailing_comma (trim line)) = Some (VObj fields) ->
      parseJSONStream_line timestamps line = timestamps).
Proof.
  split.
  - cbn [extractTimestampsFromObject].
    rewrite (@zero_start_no_triple fields q Hstart Hzero).
    unfold values. clear Hstart. revert timestamps.
    induction fields as [| [k v] rest IH]; intro ts; cbn [map snd].
    + reflexivity.
    + destruct (extractTimestampsFromObject v ts) as [ts' threw].
      destruct threw; [reflexivity | apply IH].
  - intros line Hparse. unfold parseJSONStream_line.
    destruct (trim line) as [| c r]; [reflexivity |].
    destruct (negb _ && negb _); [reflexivity |].
    rewrite Hparse. cbn [prop]. rewrite Hstart. cbn [truthy_value truthy].
    apply Qeq_bool_iff in Hzero. rewrite Hzero. cbn [negb].
    now rewrite andb_false_r.
Qed.

Lemma zero_start_object_dropped_witness :
  extractTimestampsFromObject (VObj intro_object) [] =
    extractTimestampsFromObject (VArr (values intro_object)) [] /\
  (forall line,
      JSON.parse (drop_trailing_comma (trim line)) = Some (VObj intro_object) ->
      parseJSONStream_line [] line = []).
Proof.
  apply (@zero_start_object_dropped intro_object [] 0).
  - reflexivity.
  - reflexivity.
Defined.

(** C10 as stated fails: the two strategies do emit entries whose
    [start] is exactly [0].  The object with the number [0] is lost, but
    the same object with its [start] given as the string [0] passes the
    existence check and is returned with a [start] of [0]. *)
Lemma zero_start_examples :
  parseTimestampsRobustly
    (qq "[{'text':'Welcome to the course','start':0,'end':4}]") = [] /\
  parseTimestampsRobustly
    (qq "[{'text':'Welcome to the course','start':'0','end':4}]") =
    [mkEntry "Welcome to the course" (Fin 0) (Fin 4) (VNum (Fin 1))] /\
  parseDirectJSON
    (chars (qq "[{'text':'Welcome to the course','start':'0','end':4}]")) =
    [mkEntry "Welcome to the course" (Fin 0) (Fin 4) (VNum (Fin 1))] /\
  parseJSONStream
    (chars (qq "{'text':'Welcome to the course','start':'0','end':4}")) =
    [mkEntry "Welcome to the course" (Fin 0) (Fin 4) (VNum (Fin 1))].
Proof. vm_compute. repeat split; reflexivity. Qed.

End ParserFacts.

(** ** Cosine similarity *)

Module CosineFacts.
Import Extractor.

Lemma SFmul_comm (prec emax : Z) (x y : spec_float) :
  SFmul prec emax x y = SFmul prec emax y x.
Proof.
  destruct x as [sx | sx | | sx mx ex], y as [sy | sy | | sy my ey];
    cbn [SFmul]; try reflexivity; try (now rewrite xorb_comm).
  now rewrite xorb_comm, Pos.mul_comm, Z.add_comm.
Qed.

(** Multiplication of binary64 numbers is commutative. *)
Lemma float_mul_comm (x y : float) : (x * y)%float = (y * x)%float.
Proof.
  apply Prim2SF_inj. rewrite !mul_spec. apply SFmul_comm.
Qed.

Lemma cosine_loop_swap (a : list float) :
  forall (b : list float) (dot normA normB : float),
    List.length a = List.length b ->
    cosine_loop b a dot normB normA =
    (let '(d, na, nb) := cosine_loop a b dot normA normB in (d, nb, na)).
Proof.
  induction a as [| x a IH]; intros [| y b] dot normA normB Hlen;
    try discriminate Hlen; cbn [cosine_loop].
  - reflexivity.
  - rewrite (float_mul_comm y x). apply IH. now injection Hlen.
Qed.

(** C4 (as amended).  [cosineSimilarity(a, b)] and
    [cosineSimilarity(b, a)] are the same value, [NaN] included; when a
    vector is missing or the lengths differ the function returns exactly
    [0] at its guard, before any division. *)
Theorem cosineSimilarity_symmetric_and_guarded :
  (forall a b : option (list float), cosineSimilarity a b = cosineSimilarity b a) /\
  (forall a b : list float,
      List.length a <> List.length b ->
      cosine_step (Some a) (Some b) = ReturnZero /\
      cosineSimilarity (Some a) (Some b) = 0%float) /\
  (forall v : option (list float),
      cosine_step None v = ReturnZero /\ cosine_step v None = ReturnZero /\
      cosineSimilarity None v = 0%float /\ cosineSimilarity v None = 0%float).
Proof.
  split; [| split].
  - intros [a |] [b |]; try reflexivity.
    unfold cosineSimilarity, cosine_step.
    rewrite (Nat.eqb_sym (List.length b) (List.length a)).
    destruct (List.length a =? List.length b)%nat eqn:Hlen; [| reflexivity].
    apply Nat.eqb_eq in Hlen. cbn [negb].
    rewrite (cosine_loop_swap a b 0%float 0%float 0%float Hlen).
    destruct (cosine_loop a b 0%float 0%float 0%float) as [[d na] nb].
    now rewrite (float_mul_comm (PrimFloat.sqrt nb) (PrimFloat.sqrt na)).
  - intros a b Hlen. unfold cosineSimilarity, cosine_step.
    apply Nat.eqb_neq in Hlen. rewrite Hlen. split; reflexivity.
  - intros [v |]; repeat split; reflexivity.
Qed.

Lemma cosineSimilarity_symmetric_and_guarded_witness :
  cosine_step (Some [1%float; 2%float]) (Some [3%float]) = ReturnZero /\
  cosineSimilarity (Some [1%float; 2%float]) (Some [3%float]) = 0%float.
Proof.
  apply (proj1 (proj2 cosineSimilarity_symmetric_and_guarded)
           [1%float; 2%float] [3%float]).
  cbn [List.length]. discriminate.
Defined.

(** C4 as stated fails for a pair of empty vectors: an empty array is
    truthy and the lengths agree, so the guard does not fire, and the
    function divides [0] by [0] and returns [NaN]. *)
Lemma cosineSimilarity_empty_vectors :
  cosine_step (Some []) (Some []) = Divide 0%float 0%float /\
  cosineSimilarity (Some []) (Some []) = nan /\
  PrimFloat.eqb (cosineSimilarity (Some []) (Some [])) 0%float = false.
Proof. vm_compute. repeat split; reflexivity. Qed.

End CosineFacts.

(** ** Timestamp normalisation of the assembler *)

Module NormalizeFacts.
Import VideoGenerator.
Import Statements.

Lemma normalizeNumber_finite (n : num) :
  exists q, normalizeNumber n = Fin q /\ 0 <= q.
Proof.
  unfold normalizeNumber, or_default.
  destruct n as [| | | q]; cbn [truthy];
    [ | | | destruct (negb (Qeq_bool q 0)) ];
    unfold JSNum.div; num_cases; try (exfalso; lra);
    eexists; (split; [reflexivity |]); try lra.
  all: apply Qle_shift_div_l; lra.
Qed.

Lemma normalizeTimestamp_finite (v : value) :
  colon_string v = false -> exists q, normalizeTimestamp v = Fin q /\ 0 <= q.
Proof.
  destruct v; cbn [colon_string normalizeTimestamp]; intro H;
    try apply normalizeNumber_finite.
  rewrite H. apply normalizeNumber_finite.
Qed.

Lemma normalizeTimestamp_epoch (n : Q) :
  1000000000000 < n -> normalizeTimestamp (VNum (Fin n)) = Fin 30.
Proof.
  intro H. cbn [normalizeTimestamp toNumber_value].
  unfold normalizeNumber, or_default. cbn [truthy].
  destruct (negb (Qeq_bool n 0)) eqn:E.
  - num_cases; try reflexivity; exfalso; lra.
  - apply negb_false_iff, Qeq_bool_iff in E. exfalso. lra.
Qed.

Lemma normalizeTimes_span (rawStart rawEnd : value) (d s e : Q) :
  0 < d ->
  normalizeTimestamp rawStart = Fin s ->
  normalizeTimestamp rawEnd = Fin e ->
  exists s' e',
    normalizeTimes rawStart rawEnd (Fin d) = (Fin s', Fin e') /\
    0 <= s' /\ s' + 3 <= e' /\
    (5 <= d -> e' <= d - 2) /\
    (d < 5 -> s' == 0 /\ e' == 3) /\
    (0 <= s -> e <= s -> s + 7 <= d -> s' == s /\ e' == s + 5).
Proof.
  intros Hd Hs He. unfold normalizeTimes, known_duration, minDuration, safeEndBuffer.
  rewrite Hs, He.
  num_cases; try (exfalso; lra);
    (eexists; eexists; split; [reflexivity |]; repeat split; intros; lra).
Qed.

(** What the normalisation does guarantee.  For raw values whose
    normalised timestamps are finite, and a finite positive probed
    duration [d], [normalizeTimes] returns finite seconds with
    [0 <= start] and [start + 3 <= end]; an end at or before the start
    is replaced by the start plus [5] (and left there when the video is
    long enough for it); for [d >= 5] the end is at most [d - 2], and
    for a shorter video the result is the span from [0] to [3].  Every
    raw value other than a string with a colon normalises to a finite
    non-negative number, and a number above [10^12] (an epoch in
    milliseconds) to [30]. *)
Theorem normalizeTimes_validated :
  (forall (rawStart rawEnd : value) (d s e : Q),
      0 < d ->
      normalizeTimestamp rawStart = Fin s ->
      normalizeTimestamp rawEnd = Fin e ->
      exists s' e',
        normalizeTimes rawStart rawEnd (Fin d) = (Fin s', Fin e') /\
        0 <= s' /\ s' + 3 <= e' /\
        (5 <= d -> e' <= d - 2) /\
        (d < 5 -> s' == 0 /\ e' == 3) /\
        (0 <= s -> e <= s -> s + 7 <= d -> s' == s /\ e' == s + 5)) /\
  (forall v : value,
      colon_string v = false -> exists q, normalizeTimestamp v = Fin q /\ 0 <= q) /\
  (forall n : Q,
      1000000000000 < n -> normalizeTimestamp (VNum (Fin n)) = Fin 30).
Proof.
  split; [| split].
  - apply normalizeTimes_span.
  - apply normalizeTimestamp_finite.
  - apply normalizeTimestamp_epoch.
Qed.

(** C6 fails on the code.  On a video shorter than 5 seconds the last
    line of the final clamp lets the minimum span win over the trailing
    buffer: for a probed duration of 3 seconds the end is 3, not at most
    1, and for a probed duration of 1 second the span from 0 to 3 ends
    2 seconds after the end of the file.  A colon string is returned
    without validation: one with a group that is not a number comes out
    as [NaN]. *)
Theorem normalizeTimes_short_video :
  normalizeTimes (VNum (Fin 0)) (VNum (Fin 5)) (Fin 3) = (Fin 0, Fin 3) /\
  (Fin 3 <=? Fin 3 - safeEndBuffer)%num = false /\
  normalizeTimes (VNum (Fin 0)) (VNum (Fin 5)) (Fin 1) = (Fin 0, Fin 3) /\
  (Fin 3 <=? Fin 1)%num = false /\
  normalizeTimes (VStr "a:b") (VNum (Fin 5)) (Fin 100) = (NaN, NaN).
Proof. vm_compute. repeat split; reflexivity. Qed.

End NormalizeFacts.

(** ** The frame extractor *)

Module FrameFacts.
Import FrameExtractor.
Import Statements.

Lemma adjustTimestamp_beyond (timestamp : num) (d : Q) :
  1 < d -> (timestamp >=? Fin d)%num = true ->
  exists a, adjustTimestamp timestamp (Fin d) = Fin a /\ 1 <= a /\ a < d.
Proof.
  intros Hd Hbeyond. unfold adjustTimestamp. rewrite Hbeyond.
  num_cases; eexists; (split; [reflexivity |]); lra.
Qed.

Lemma in_video_inside (d t : Q) : 0 < t -> t < d -> in_video (Fin d) (Fin t) = true.
Proof.
  intros H0 Ht. unfold in_video. cbn [JSNum.gtb JSNum.ltb].
  now rewrite !NumFacts.Qltb_intro.
Qed.

Lemma max_one (x : Q) : exists m, max (Fin 1) (Fin x) = Fin m /\ 1 <= m /\ (m == 1 \/ m == x).
Proof.
  num_cases; eexists; (split; [reflexivity |]); split; lra.
Qed.

Lemma strategies_seek_inside (timestamp : num) (d : Q) :
  1 < d -> (timestamp >=? Fin d)%num = true ->
  Forall (inside d timestamp)
    (map seek (extractionStrategies (adjustTimestamp timestamp (Fin d)) (Fin d))).
Proof.
  intros Hd Hbeyond.
  assert (Hlt : forall t, t < d -> (Fin t <? timestamp)%num = true).
  { intros t Ht. destruct timestamp as [| | | t0]; try discriminate Hbeyond;
      [reflexivity |].
    cbn [JSNum.geb JSNum.leb] in Hbeyond. apply Qle_bool_iff in Hbeyond.
    cbn [JSNum.ltb]. apply NumFacts.Qltb_intro. lra. }
  assert (Hin : forall t, 0 < t -> t < d -> inside d timestamp (Some (Fin t))).
  { intros t H0 Ht. exists t. repeat split; auto. }
  destruct (adjustTimestamp_beyond timestamp Hd Hbeyond) as (a & Ha & Ha1 & Had).
  rewrite Ha. unfold extractionStrategies. cbn [map seek timestamps hd_error].
  constructor; [apply Hin; lra |].
  constructor.
  - cbn [JSNum.sub JSNum.neg JSNum.add].
    destruct (max_one (a + - (1))) as (m & Hm & Hm1 & Hmx). rewrite Hm.
    cbn [filter]. rewrite in_video_inside by (destruct Hmx; lra).
    cbn [hd_error]. apply Hin; destruct Hmx; lra.
  - constructor; [| constructor].
    cbn [JSNum.mul].
    destruct (max_one (d * (1 # 10))) as (m & Hm & Hm1 & Hmx). rewrite Hm.
    cbn [filter]. rewrite in_video_inside by (destruct Hmx; lra).
    cbn [hd_error]. apply Hin; destruct Hmx; lra.
Qed.

Lemma run_strategies_seeks (P : option num -> Prop) (accept : Strategy -> bool)
    (l : list Strategy) :
  Forall P (map seek l) -> Forall P (fst (run_strategies accept l)).
Proof.
  induction l as [| s rest IH]; cbn [map run_strategies]; intro H.
  - constructor.
  - inversion H as [| x xs Hs Hrest]; subst.
    destruct (accept s); cbn [fst].
    + constructor; [assumption | constructor].
    + specialize (IH Hrest). destruct (run_strategies accept rest) as [seeks ok].
      cbn [fst] in *. constructor; assumption.
Qed.

Lemma extractFrame_from_seeks (w : World) (timestamp : num) (d : Q) :
  probe w = Some (Fin d) -> 1 < d -> (timestamp >=? Fin d)%num = true ->
  forall retries retryCount,
    Forall (inside d timestamp) (snd (extractFrame_from w timestamp retryCount retries)).
Proof.
  intros Hprobe Hd Hbeyond.
  pose proof (strategies_seek_inside timestamp Hd Hbeyond) as Hall.
  induction retries as [| retries IH]; intro retryCount; cbn [extractFrame_from];
    destruct (cached w); try (constructor);
    destruct (inFlight w); try (constructor);
    destruct (negb (videoExists w)); try (constructor);
    rewrite Hprobe; destruct (invalid_duration (Fin d)); try (constructor).
  - pose proof (@run_strategies_seeks (inside d timestamp) (transcode w retryCount) _ Hall) as Hrun.
    destruct (run_strategies (transcode w retryCount) _) as [seeks ok].
    destruct ok; exact Hrun.
  - pose proof (@run_strategies_seeks (inside d timestamp) (transcode w retryCount) _ Hall) as Hrun.
    destruct (run_strategies (transcode w retryCount) _) as [seeks ok].
    destruct ok; [exact Hrun |].
    specialize (IH (S retryCount)).
    destruct (extractFrame_from w timestamp (S retryCount) retries) as [result later].
    cbn [snd fst] in *. apply Forall_app. split; assumption.
Qed.

(** C9 (as amended).  When the probed duration is more than one second
    and the requested timestamp is at or beyond it, every position the
    transcoder is asked to seek to, on every strategy and every retry,
    lies strictly between [0] and the probed duration, and so before the
    requested timestamp. *)
Theorem extractFrame_seeks_inside_video
    (w : World) (timestamp : num) (d : Q)
    (Hprobe : probe w = Some (Fin d))
    (Hlong : 1 < d)
    (Hbeyond : (timestamp >=? Fin d)%num = true) :
  Forall (inside d timestamp) (snd (extractFrame w timestamp)).
Proof.
  unfold extractFrame. now apply extractFrame_from_seeks.
Qed.

Lemma extractFrame_seeks_inside_video_witness :
  Forall (inside 100 (Fin 200)) (snd (extractFrame (stubborn_video 100) (Fin 200))).
Proof.
  apply (@extractFrame_seeks_inside_video (stubborn_video 100) (Fin 200) 100).
  - reflexivity.
  - reflexivity.
  - reflexivity.
Defined.

(** C9 as stated fails for a video of at most one second: the floor of
    one second (never extract at 0s) is applied after the adjustment, so
    for a probed duration of half a second and a requested timestamp of
    one second the primary strategy seeks to the requested timestamp
    itself, which is not before the end of the video. *)
Lemma extractFrame_short_video :
  adjustTimestamp (Fin 1) (Fin (1 # 2)) = Fin 1 /\
  hd_error (snd (extractFrame (stubborn_video (1 # 2)) (Fin 1))) = Some (Some (Fin 1)) /\
  (Fin 1 <? Fin (1 # 2))%num = false.
Proof. vm_compute. repeat split; reflexivity. Qed.

End FrameFacts.

(** ** The video-file resolver *)

Module ResolverFacts.
Import Extractor.

Lemma ascii_list_eqb_eq (a b : list ascii) : ascii_list_eqb a b = true <-> a = b.
Proof.
  unfold ascii_list_eqb. rewrite String.eqb_eq. split.
  - intro H. rewrite <- (TimeFacts.chars_str a), <- (TimeFacts.chars_str b).
    now rewrite H.
  - now intros ->.
Qed.

Lemma find_first (A : Type) (f : A -> bool) (l : list A) (x : A) :
  find f l = Some x ->
  exists before after,
    l = before ++ x :: after /\ f x = true /\ Forall (fun y => f y = false) before.
Proof.
  induction l as [| y rest IH]; cbn [find]; [discriminate |].
  destruct (f y) eqn:Hy.
  - intro H. injection H as <-. exists [], rest. repeat split; [assumption | constructor].
  - intro H. destruct (IH H) as (before & after & -> & Hx & Hbefore).
    exists (y :: before), after. repeat split; [assumption |].
    constructor; assumption.
Qed.

(** C7 (as amended).  The resolver of the current extractor returns the
    first video file of the directory whose name without its video
    extension is exactly the last path segment of the URI without its
    first [_sentences.json]: the file it returns is a video file of the
    directory that matches, and no video file listed before it matches.
    It returns none for a missing or empty URI and when no video file
    matches. *)
Theorem findVideoFile_exact_or_none (readdir : option (list string)) (uri : string) :
  findVideoFile readdir None = None /\
  match findVideoFile readdir (Some uri) with
  | Some file =>
      uri <> EmptyString /\
      (exists files, readdir = Some files /\ In file files) /\
      isVideoFile file = true /\
      strip_video_extension (chars file) = s3Filename uri /\
      exists earlier later,
        findAllVideoFiles readdir = earlier ++ file :: later /\
        Forall (fun other => strip_video_extension (chars other) <> s3Filename uri)
          earlier
  | None =>
      uri = EmptyString \/
      forall file,
        In file (findAllVideoFiles readdir) ->
        strip_video_extension (chars file) <> s3Filename uri
  end.
Proof.
  split; [reflexivity |].
  unfold findVideoFile.
  destruct (String.eqb uri EmptyString) eqn:Hempty.
  - left. now apply String.eqb_eq.
  - destruct (find _ (findAllVideoFiles readdir)) as [file |] eqn:Hfind.
    + split; [now apply String.eqb_neq |].
      pose proof (find_first _ _ Hfind) as (earlier & later & Hsplit & _ & Hearlier).
      apply find_some in Hfind. destruct Hfind as [Hin Heq].
      apply ascii_list_eqb_eq in Heq.
      split; [| split; [| split; [exact Heq |]]].
      * unfold findAllVideoFiles in Hin.
        destruct readdir as [files |]; [| contradiction].
        apply filter_In in Hin. exists files. split; [reflexivity | apply Hin].
      * unfold findAllVideoFiles in Hin.
        destruct readdir as [files |]; [| contradiction].
        apply filter_In in Hin. apply Hin.
      * exists earlier, later. split; [exact Hsplit |].
        eapply Forall_impl; [| exact Hearlier].
        intros other Hother Hmatch. cbn beta in Hother.
        apply ascii_list_eqb_eq in Hmatch. congruence.
    + right. intros file Hin Heq.
      pose proof (find_none _ _ Hfind file Hin) as Hno. cbn beta in Hno.
      apply ascii_list_eqb_eq in Heq. congruence.
Qed.

(** The first extractor never answers none when a video file exists. *)
Lemma legacy_findVideoFile_guesses (readdir : option (list string)) (uri : string) :
  uri <> EmptyString -> findAllVideoFiles readdir <> [] ->
  exists file, Legacy.findVideoFile readdir (Some uri) = Some file.
Proof.
  intros Huri Hfiles. unfold Legacy.findVideoFile.
  apply String.eqb_neq in Huri. rewrite Huri.
  destruct (findAllVideoFiles readdir) as [| f rest] eqn:Hall; [congruence |].
  destruct (match Legacy.first_match date_stamp (chars uri) with
            | Some timestamp => find (fun file => includes timestamp (chars file)) (f :: rest)
            | None => None
            end) as [file |]; [now exists file |].
  destruct (match Legacy.baseName (chars uri) with
            | [] => None
            | _ :: _ => find _ (f :: rest)
            end) as [file |]; [now exists file |].
  destruct (nth_error (f :: rest)
              (Z.to_nat (Legacy.simpleHash (chars uri) mod Z.of_nat (List.length (f :: rest)))))
    as [file |] eqn:Hnth; [now exists file |].
  exfalso. apply nth_error_None in Hnth.
  assert (0 < Z.of_nat (List.length (f :: rest)))%Z by (cbn [List.length]; lia).
  pose proof (Z.mod_pos_bound (Legacy.simpleHash (chars uri))
                (Z.of_nat (List.length (f :: rest))) H) as Hb.
  lia.
Qed.

(** C7 as stated fails on both resolvers.  The current one compares for
    equality: a URI that differs from the file in case, that carries
    another known suffix, or that only contains the file's name is not
    resolved, where the resolver of the specification answers.  The
    first one does contain-matching but then guesses by hash. *)
Lemma findVideoFile_differs_from_spec :
  ResolverSpec.resolve "s3://kb/transcripts/Demo_sentences.json" ["demo.mp4"%string] =
    Some "demo.mp4"%string /\
  findVideoFile (Some ["demo.mp4"%string])
    (Some "s3://kb/transcripts/Demo_sentences.json"%string) = None /\
  ResolverSpec.resolve "s3://kb/transcripts/demo_transcript.json" ["demo.mp4"%string] =
    Some "demo.mp4"%string /\
  findVideoFile (Some ["demo.mp4"%string])
    (Some "s3://kb/transcripts/demo_transcript.json"%string) = None /\
  ResolverSpec.resolve "s3://kb/transcripts/demo_sentences.json"
    ["demo-part1.mp4"%string] = Some "demo-part1.mp4"%string /\
  findVideoFile (Some ["demo-part1.mp4"%string])
    (Some "s3://kb/transcripts/demo_sentences.json"%string) = None /\
  ResolverSpec.resolve "s3://kb/transcripts/budget.json"
    ["alpha.mp4"; "beta.mp4"; "gamma.mp4"]%string = None /\
  Legacy.findVideoFile (Some ["alpha.mp4"; "beta.mp4"; "gamma.mp4"]%string)
    (Some "s3://kb/transcripts/budget.json"%string) = Some "gamma.mp4"%string.
Proof. vm_compute. repeat split; reflexivity. Qed.

End ResolverFacts.

(** ** De-duplication and assembly *)

Module AssemblyFacts.
Import VideoGenerator.
Import Statements.

(** C5 fails on the code.  [deduplicateSegments] collapses the two
    segments into the better one, but [generateVideo] only logs that
    result: its loop runs over the segments it was given, and both end
    up in the output. *)
Theorem generateVideo_keeps_duplicates :
  getSegmentKey first_cut = getSegmentKey second_cut /\
  isBetterSegment second_cut first_cut = true /\
  deduplicateSegments [first_cut; second_cut] = Some [second_cut] /\
  generateVideo plain_transcoder [first_cut; second_cut] =
    Ok ([CaptionedPath 0; CaptionedPath 1], "final.mp4"%string) /\
  generateVideo plain_transcoder [first_cut; first_cut] =
    Ok ([CaptionedPath 0; CaptionedPath 1], "final.mp4"%string).
Proof. vm_compute. repeat split; reflexivity. Qed.

Lemma content_not_special (segment : Segment) :
  has_type segment "content" = true -> is_special segment = false.
Proof.
  unfold is_special, has_type. destruct (prop segment "type"); try discriminate.
  intro H. apply String.eqb_eq in H. subst. reflexivity.
Qed.

Lemma seen_get_set (key : string) (o : Obj) :
  seen_get key (seen_set key o []) = Some o.
Proof. cbn [seen_set seen_get]. now rewrite String.eqb_refl. Qed.

Lemma prop_truthy_segment (v : value) (k : string) :
  truthy_value (prop v k) = true -> truthy_value v = true.
Proof. destruct v; simpl; try discriminate; reflexivity. Qed.

(** What [deduplicateSegments] itself does with two content segments
    whose keys collide: one is kept, the second when its score is
    strictly higher and otherwise the first. *)
Lemma deduplicateSegments_collision (a b : Segment) (key : string) :
  has_type a "content" = true -> has_type b "content" = true ->
  truthy_value (prop a "videoPath") = true ->
  truthy_value (prop b "videoPath") = true ->
  getSegmentKey a = Some key -> getSegmentKey b = Some key ->
  deduplicateSegments [a; b] = Some [if isBetterSegment b a then b else a].
Proof.
  intros Ha Hb Hpa Hpb Hka Hkb.
  unfold deduplicateSegments. cbn [number_from fold_left].
  unfold dedup_step at 2. cbn [snd].
  rewrite (prop_truthy_segment _ _ Hpa), Ha, Hpa, (content_not_special _ Ha), Hka.
  cbn [negb andb orb seen_get app].
  unfold dedup_step. cbn [snd].
  rewrite (prop_truthy_segment _ _ Hpb), Hb, Hpb, (content_not_special _ Hb), Hkb.
  cbn [negb andb orb]. rewrite seen_get_set. cbn [snd].
  destruct (isBetterSegment b a); [| reflexivity].
  cbn [replace_object fst]. reflexivity.
Qed.

(** Whatever the transcoder, as long as it extracts the spans and
    concatenates the parts: two content segments with a video path and
    a text both reach the output, colliding keys or not. *)
Lemma generateVideo_processes_every_segment (tc : Transcoder) (a b : Segment)
    (vpa vpb ta tb out : string) :
  prop a "type" = VStr "content" -> prop b "type" = VStr "content" ->
  prop a "videoPath" = VStr vpa -> prop b "videoPath" = VStr vpb ->
  vpa <> EmptyString -> vpb <> EmptyString ->
  prop a "text" = VStr ta -> prop b "text" = VStr tb ->
  (forall p s e, extractVideoSegment tc p s e <> None) ->
  (forall parts, concat tc parts = Some out) ->
  (forall d, makeTransition tc d <> None) ->
  exists parts,
    generateVideo tc [a; b] = Ok (parts, out) /\
    In (CaptionedPath 0) parts /\ In (CaptionedPath 1) parts.
Proof.
  intros Hta Htb Hpa Hpb Hna Hnb Hxa Hxb Hextract Hconcat Htrans.
  assert (Hkey : forall s vp t,
            prop s "videoPath" = VStr vp -> prop s "text" = VStr t ->
            exists k, getSegmentKey s = Some k).
  { intros s vp t Hvp Ht. unfold getSegmentKey. rewrite Hvp, Ht.
    unfold or_value. destruct (truthy_value (VStr t)); eexists; reflexivity. }
  assert (Hdedup : exists u, deduplicateSegments [a; b] = Some u).
  { destruct (Hkey a vpa ta Hpa Hxa) as [ka Hka].
    destruct (Hkey b vpb tb Hpb Hxb) as [kb Hkb].
    unfold deduplicateSegments. cbn [number_from fold_left].
    unfold dedup_step at 2. cbn [snd]. rewrite Hka.
    destruct (negb (truthy_value a) || _); [| destruct (is_special a);
      [| destruct (has_type a "content")]];
    cbn [seen_get]; unfold dedup_step; cbn [snd]; rewrite Hkb;
    (destruct (negb (truthy_value b) || _); [| destruct (is_special b);
      [| destruct (has_type b "content")]]);
    try (eexists; reflexivity);
    match goal with
    | |- context [seen_get ?k ?s] => destruct (seen_get k s)
    end;
    try (eexists; reflexivity);
    destruct (isBetterSegment _ _); try (eexists; reflexivity);
    match goal with
    | |- context [replace_object ?x ?y ?l] => destruct (replace_object x y l)
    end; eexists; reflexivity. }
  destruct Hdedup as [u Hu].
  assert (Hproc : forall tp i s vp t,
            prop s "type" = VStr "content" -> prop s "videoPath" = VStr vp ->
            vp <> EmptyString -> prop s "text" = VStr t ->
            exists p, process_segment tc tp i s = Ok [p] /\ path p = CaptionedPath i).
  { intros tp i s vp t Hty Hvp Hne Htx.
    assert (Hs : is_nullish s = false) by (destruct s; try reflexivity; discriminate).
    unfold process_segment, has_type.
    rewrite Hs, Hty, Hvp, Htx. cbn [String.eqb Ascii.eqb Bool.eqb orb truthy_value text_length].
    apply String.eqb_neq in Hne. rewrite Hne. cbn [negb].
    destruct (content_span _ _ _) as [st en].
    destruct (extractVideoSegment tc _ st en) eqn:He; [| now apply Hextract in He].
    eexists. split; reflexivity. }
  unfold generateVideo. rewrite Hu.
  destruct (if lavfiSupported tc then createTransition tc (Fin 1) else Ok None)
    as [transitionPath |] eqn:Htp.
  - cbn [process_segments].
    destruct (Hproc transitionPath 0%nat a vpa ta Hta Hpa Hna Hxa) as (pa & Hpa' & Hpath_a).
    destruct (Hproc transitionPath 1%nat b vpb tb Htb Hpb Hnb Hxb) as (pb & Hpb' & Hpath_b).
    rewrite Hpa', Hpb'. cbn [app all_parts]. rewrite Hconcat.
    eexists. split; [reflexivity |]. rewrite Hpath_a, Hpath_b.
    split.
    + left. reflexivity.
    + apply in_cons. apply in_or_app. right. left. reflexivity.
  - exfalso. destruct (lavfiSupported tc) eqn:Hl; [| discriminate].
    unfold createTransition in Htp. rewrite Hl in Htp. cbn [negb] in Htp.
    destruct (makeTransition tc (Fin 1)) eqn:Hm; [discriminate |].
    now apply Htrans in Hm.
Qed.

End AssemblyFacts.

(** ** The segmenter *)

Module SegmenterFacts.
Import Extractor.
Import Statements.
Import ParserFacts.

Lemma first_start_nonneg (w : list TranscriptEntry) :
  sound_window w -> (first_start w >=? Fin 0)%num = true.
Proof.
  intros [Hne Hall]. destruct w as [| e rest]; [congruence |].
  inversion Hall; subst. assumption.
Qed.

Lemma Forall_firstn_skipn (A : Type) (P : A -> Prop) (n : nat) (l : list A) :
  Forall P l -> Forall P (firstn n l) /\ Forall P (skipn n l).
Proof.
  intro H. rewrite <- (firstn_skipn n l) in H. now apply Forall_app in H.
Qed.

Lemma chunks_sound (fuel : nat) :
  forall l, Forall starts_nonneg l -> Forall sound_window (chunks fuel 8 l).
Proof.
  induction fuel as [| fuel IH]; intros l Hl; cbn [chunks]; [constructor |].
  destruct l as [| e rest]; [constructor |].
  destruct (Forall_firstn_skipn 8 Hl) as [Hf Hs].
  constructor; [| now apply IH].
  split; [discriminate | exact Hf].
Qed.

Lemma createFallbackSegments_start_nonneg (timestamps : list TranscriptEntry) :
  Forall starts_nonneg timestamps ->
  Forall segment_starts_nonneg (createFallbackSegments timestamps).
Proof.
  intro H. unfold createFallbackSegments. apply Forall_map.
  eapply Forall_impl; [| apply chunks_sound; exact H].
  intros w Hw. unfold segment_starts_nonneg. cbn [Segment.startTime].
  now apply first_start_nonneg.
Qed.

Lemma window_ok_nonempty (w : list TranscriptEntry) : window_ok w = true -> w <> [].
Proof. destruct w; [discriminate | discriminate]. Qed.

Lemma sliding_step_sound (windowDuration : num)
    (st : list (list TranscriptEntry) * list TranscriptEntry * option num)
    (t : TranscriptEntry) :
  starts_nonneg t ->
  Forall sound_window (fst (fst st)) /\ Forall starts_nonneg (snd (fst st)) ->
  Forall sound_window (fst (fst (sliding_step windowDuration st t))) /\
  Forall starts_nonneg (snd (fst (sliding_step windowDuration st t))).
Proof.
  destruct st as [[windows currentWindow] windowStart]. cbn [fst snd].
  intros Ht [Hw Hc]. unfold sliding_step.
  destruct (end_ t <=? start t)%num; [now split |].
  destruct (no_windowStart windowStart); cbn [fst snd].
  - split; [assumption | now constructor].
  - destruct (_ <=? windowDuration)%num; cbn [fst snd].
    + split; [assumption | now apply Forall_snoc].
    + split; [| now constructor].
      destruct (window_ok currentWindow) eqn:Hok; [| assumption].
      apply Forall_snoc; [assumption |].
      split; [now apply window_ok_nonempty | assumption].
Qed.

Lemma createSlidingWindows_sound (timestamps : list TranscriptEntry) (d : num) :
  Forall starts_nonneg timestamps ->
  Forall sound_window (createSlidingWindows timestamps d).
Proof.
  intro H. unfold createSlidingWindows.
  assert (Hsorted : Forall starts_nonneg (sort_by_start timestamps))
    by (now apply js_sort_Forall).
  assert (Hinv : forall l st,
            Forall starts_nonneg l ->
            Forall sound_window (fst (fst st)) /\ Forall starts_nonneg (snd (fst st)) ->
            Forall sound_window (fst (fst (fold_left (sliding_step d) l st))) /\
            Forall starts_nonneg (snd (fst (fold_left (sliding_step d) l st)))).
  { induction l as [| t rest IH]; intros st Hl Hst; cbn [fold_left]; [assumption |].
    inversion Hl; subst. apply IH; [assumption |].
    now apply sliding_step_sound. }
  specialize (Hinv (sort_by_start timestamps) ([], [], None) Hsorted).
  destruct (fold_left (sliding_step d) (sort_by_start timestamps) ([], [], None))
    as [[windows currentWindow] ws].
  cbn [fst snd] in Hinv. destruct Hinv as [Hw Hc]; [split; constructor |].
  destruct (window_ok currentWindow) eqn:Hok; [| assumption].
  apply Forall_snoc; [assumption |].
  split; [now apply window_ok_nonempty | assumption].
Qed.

Lemma Forall_flat_map (A B : Type) (P : B -> Prop) (f : A -> list B) (l : list A) :
  (forall a, In a l -> Forall P (f a)) -> Forall P (flat_map f l).
Proof.
  induction l as [| a rest IH]; intro H; cbn [flat_map]; [constructor |].
  apply Forall_app. split; [apply H; now left | apply IH; intros; apply H; now right].
Qed.

(** Every segment the segmenter builds from entries that start at or
    after [0], as all parsed entries do, starts at or after [0]. *)
Lemma createSemanticSegments_start_nonneg (env : Collaborators)
    (timestamps : list TranscriptEntry) (query : string) :
  Forall starts_nonneg timestamps ->
  Forall segment_starts_nonneg (createSemanticSegments env timestamps query).
Proof.
  intro H. unfold createSemanticSegments.
  destruct (negb (hasClient env)); [now apply createFallbackSegments_start_nonneg |].
  destruct (getAWSEmbedding env query) as [queryEmbedding |];
    [| now apply createFallbackSegments_start_nonneg].
  assert (Hscored :
    Forall segment_starts_nonneg
      (flat_map
         (fun window =>
            let text := joined_text window in
            match getAWSEmbedding env text with
            | Some embedding =>
                let similarity :=
                  cosineSimilarity (Some queryEmbedding) (Some embedding) in
                if PrimFloat.ltb MIN_RELEVANCE_SCORE similarity
                then [Segment.mk window (num_of_float similarity) text
                        (first_start window) (last_end window)]
                else []
            | None => []
            end)
         (createSlidingWindows timestamps (Fin 45)))).
  { apply Forall_flat_map. intros w Hin.
    pose proof (createSlidingWindows_sound (Fin 45) H) as Hws.
    rewrite Forall_forall in Hws. specialize (Hws w Hin). cbn zeta.
    destruct (getAWSEmbedding env (joined_text w)); [| constructor].
    destruct (PrimFloat.ltb _ _); constructor; [| constructor].
    unfold segment_starts_nonneg. cbn [Segment.startTime].
    now apply first_start_nonneg. }
  apply Forall_firstn_skipn. now apply js_sort_Forall.
Qed.

Lemma parsed_segments_start_nonneg (env : Collaborators) (content query : string) :
  Forall segment_starts_nonneg
    (createSemanticSegments env (parseTimestampsRobustly content) query).
Proof.
  apply createSemanticSegments_start_nonneg.
  apply parseTimestampsRobustly_starts_nonneg.
Qed.

End SegmenterFacts.

(** ** Sorting *)

Module SortFacts.
Import Notions.

Section Membership.
Variable A : Type.
Variable after : A -> A -> bool.

Lemma sort_insert_In (x y : A) (l : list A) :
  In y (sort_insert after x l) <-> y = x \/ In y l.
Proof.
  induction l as [| z rest IH]; cbn [sort_insert].
  - cbn. intuition congruence.
  - destruct (after x z); cbn [In]; [rewrite IH |]; intuition congruence.
Qed.

Lemma js_sort_In (y : A) (l : list A) : In y (js_sort after l) <-> In y l.
Proof.
  induction l as [| x rest IH]; cbn [js_sort fold_right]; [reflexivity |].
  rewrite sort_insert_In. fold (js_sort after rest). rewrite IH. cbn. intuition congruence.
Qed.

Lemma sort_insert_length (x : A) (l : list A) :
  List.length (sort_insert after x l) = S (List.length l).
Proof.
  induction l as [| z rest IH]; cbn [sort_insert]; [reflexivity |].
  destruct (after x z); cbn [List.length]; congruence.
Qed.

Lemma js_sort_length (l : list A) : List.length (js_sort after l) = List.length l.
Proof.
  induction l as [| x rest IH]; cbn [js_sort fold_right]; [reflexivity |].
  rewrite sort_insert_length. fold (js_sort after rest). cbn. congruence.
Qed.

Lemma sort_insert_permutation (x : A) (l : list A) :
  Permutation (x :: l) (sort_insert after x l).
Proof.
  induction l as [| z rest IH]; cbn [sort_insert]; [reflexivity |].
  destruct (after x z); [| reflexivity].
  rewrite perm_swap. now constructor.
Qed.

Lemma js_sort_permutation (l : list A) : Permutation l (js_sort after l).
Proof.
  induction l as [| x rest IH]; cbn [js_sort fold_right]; [constructor |].
  fold (js_sort after rest). rewrite <- sort_insert_permutation. now constructor.
Qed.

End Membership.

(** The order of numbers that are not [NaN]. *)
Lemma difference_positive (a b : num) :
  isNaN a = false -> isNaN b = false ->
  (Fin 0 <? a - b)%num = (b <? a)%num.
Proof.
  destruct a as [| | | x], b as [| | | y]; intros Ha Hb;
    try discriminate; try reflexivity.
  num_cases; try reflexivity; exfalso; lra.
Qed.

Lemma not_less_leb (a b : num) :
  isNaN a = false -> isNaN b = false ->
  (b <? a)%num = false -> (a <=? b)%num = true.
Proof.
  destruct a as [| | | x], b as [| | | y]; intros Ha Hb;
    try discriminate; try reflexivity.
  num_cases; intro; try reflexivity; try discriminate. exfalso; lra.
Qed.

Lemma less_leb (a b : num) : (b <? a)%num = true -> (b <=? a)%num = true.
Proof.
  destruct a as [| | | x], b as [| | | y];
    try discriminate; try reflexivity.
  num_cases; intro; try reflexivity; try discriminate. exfalso; lra.
Qed.

Lemma leb_trans (a b c : num) :
  (a <=? b)%num = true -> (b <=? c)%num = true -> (a <=? c)%num = true.
Proof.
  destruct a as [| | | x], b as [| | | y], c as [| | | z];
    try discriminate; try reflexivity.
  num_cases; intros; try reflexivity; try discriminate. exfalso; lra.
Qed.

Section Ordering.
Variable A : Type.
Variable key : A -> num.

Lemma sort_insert_sorted (x : A) (l : list A) :
  isNaN (key x) = false ->
  Forall (fun y => isNaN (key y) = false) l ->
  StronglySorted (key_leb key) l ->
  StronglySorted (key_leb key) (sort_insert (ascending_after key) x l).
Proof.
  intros Hx Hl Hs. induction Hs as [| y rest Hrest IH Hy]; cbn [sort_insert].
  - repeat constructor.
  - inversion Hl as [| ? ? Hyn Hrn]; subst.
    unfold ascending_after at 1. rewrite difference_positive by assumption.
    destruct (key y <? key x)%num eqn:E.
    + constructor; [now apply IH |].
      apply Forall_forall. intros z Hz. apply sort_insert_In in Hz.
      destruct Hz as [-> | Hz].
      * now apply less_leb.
      * rewrite Forall_forall in Hy. now apply Hy.
    + assert (Hxy : key_leb key x y) by now apply not_less_leb.
      constructor; [now constructor |].
      constructor; [exact Hxy |].
      eapply Forall_impl; [| exact Hy].
      intros z Hz. eapply leb_trans; eassumption.
Qed.

Lemma js_sort_sorted (l : list A) :
  Forall (fun y => isNaN (key y) = false) l ->
  StronglySorted (key_leb key) (js_sort (ascending_after key) l).
Proof.
  intro Hl. induction Hl as [| x rest Hx Hrest IH]; cbn [js_sort fold_right].
  - constructor.
  - apply sort_insert_sorted; [exact Hx | | exact IH].
    apply Forall_forall. intros y Hy. apply js_sort_In in Hy.
    rewrite Forall_forall in Hrest. now apply Hrest.
Qed.

End Ordering.

End SortFacts.

(** ** Order and validity of the parsed entries *)

Module TranscriptFacts.
Import Extractor.
Import Statements Notions.

Lemma nonneg_not_NaN (n : num) : (n >=? Fin 0)%num = true -> isNaN n = false.
Proof. destruct n; try reflexivity; discriminate. Qed.

Lemma sort_by_start_ascending (l : list TranscriptEntry) :
  Forall starts_nonneg l -> StronglySorted (key_leb start) (sort_by_start l).
Proof.
  intro Hl. apply (SortFacts.js_sort_sorted start).
  eapply Forall_impl; [| exact Hl]. intros e He. now apply nonneg_not_NaN.
Qed.

Lemma unsorted_Forall (A : Type) (after : A -> A -> bool) (P : A -> Prop) (l : list A) :
  Forall P (js_sort after l) -> Forall P l.
Proof.
  rewrite !Forall_forall. intros H x Hx. apply H. now apply SortFacts.js_sort_In.
Qed.

(** X1.  Whatever the content, the entries [parseTimestampsRobustly]
    returns are in ascending order of [start]: each entry starts no
    later than every entry after it. *)
Theorem parseTimestampsRobustly_ascending (content : string) :
  StronglySorted (key_leb start) (parseTimestampsRobustly content).
Proof.
  assert (H1 : StronglySorted (key_leb start) (parseDirectJSON (chars content))).
  { apply sort_by_start_ascending.
    eapply Forall_impl; [apply ParserFacts.timed_starts_nonneg |].
    apply (unsorted_Forall (fun a b => (Fin 0 <? start a - start b)%num)).
    apply ParserFacts.parseDirectJSON_well_timed. }
  assert (H2 : StronglySorted (key_leb start) (parseJSONStream (chars content))).
  { apply sort_by_start_ascending.
    apply ParserFacts.fold_left_Forall; [| constructor].
    intros ts line. apply ParserFacts.parseJSONStream_line_starts_nonneg. }
  assert (H3 : StronglySorted (key_leb start) (parseWithValidation (chars content))).
  { apply sort_by_start_ascending.
    eapply Forall_impl; [apply ParserFacts.timed_starts_nonneg |].
    apply (unsorted_Forall (fun a b => (Fin 0 <? start a - start b)%num)).
    apply ParserFacts.parseWithValidation_well_timed. }
  unfold parseTimestampsRobustly.
  destruct (parseDirectJSON (chars content)); [| exact H1].
  destruct (parseJSONStream (chars content)); [exact H3 | exact H2].
Qed.

Lemma trimmed_nonempty (t : list ascii) :
  (0 <? List.length (trim t))%nat = true -> str (trim t) <> EmptyString.
Proof.
  destruct (trim t); [discriminate | intros _; discriminate].
Qed.

Lemma walker_keeps_validated (v : value) :
  forall ts, Forall validated ts -> Forall validated (fst (extractTimestampsFromObject v ts)).
Proof.
  induction v using ParserFacts.value_induction; intros ts Hts; try exact Hts.
  - cbn [extractTimestampsFromObject].
    revert ts Hts. induction H as [| item rest Hitem Hrest IH]; intros ts Hts.
    + exact Hts.
    + specialize (Hitem ts Hts).
      destruct (extractTimestampsFromObject item ts) as [ts' threw].
      destruct threw; [exact Hitem | apply IH; exact Hitem].
  - cbn [extractTimestampsFromObject].
    destruct (has_triple fields).
    + destruct ((timeToSeconds (get "start"%string fields) >=? Fin 0)%num &&
                (timeToSeconds (get "end"%string fields) >? timeToSeconds (get "start"%string fields))%num)
        eqn:Hvalid; [| exact Hts].
      destruct (get "text"%string fields); try exact Hts.
      destruct (0 <? List.length (trim (chars s)))%nat eqn:Htext; [| exact Hts].
      cbn [fst]. apply ParserFacts.Forall_snoc; [exact Hts |].
      split; [exact Hvalid | now apply trimmed_nonempty].
    + revert ts Hts. induction H as [| [k item] rest Hitem Hrest IH]; intros ts Hts.
      * exact Hts.
      * specialize (Hitem ts Hts). cbn [snd] in Hitem.
        destruct (extractTimestampsFromObject item ts) as [ts' threw].
        destruct threw; [exact Hitem | apply IH; exact Hitem].
Qed.

Lemma parseWithValidation_fuel_validated (fuel : nat) :
  forall s ts, Forall validated ts -> Forall validated (parseWithValidation_fuel fuel s ts).
Proof.
  induction fuel as [| fuel IH]; intros s ts Hts; cbn [parseWithValidation_fuel].
  - exact Hts.
  - destruct (triple_at s) as [[[[t st] en] rest] |].
    + apply IH.
      destruct ((timeToSeconds (VStr (str st)) >=? Fin 0)%num &&
                (timeToSeconds (VStr (str en)) >? timeToSeconds (VStr (str st)))%num)
        eqn:Hvalid; cbn [andb]; [| exact Hts].
      destruct (0 <? List.length (trim t))%nat eqn:Htext; [| exact Hts].
      apply ParserFacts.Forall_snoc; [exact Hts |].
      split; [exact Hvalid | now apply trimmed_nonempty].
    + destruct s; [exact Hts | now apply IH].
Qed.

(** X2.  The two strategies that validate what they push, the structured
    walk of [parseDirectJSON] and the pattern of [parseWithValidation],
    return only entries with [end > start >= 0] and a text that is not
    empty, whatever the content. *)
Theorem validating_strategies_sound (content : string) :
  Forall validated (parseDirectJSON (chars content)) /\
  Forall validated (parseWithValidation (chars content)).
Proof.
  split.
  - unfold parseDirectJSON, sort_by_start. apply ParserFacts.js_sort_Forall.
    apply ParserFacts.fold_left_Forall; [| constructor].
    intros ts m Hts. destruct (JSON.parse m); [| exact Hts].
    now apply walker_keeps_validated.
  - unfold parseWithValidation, sort_by_start. apply ParserFacts.js_sort_Forall.
    apply parseWithValidation_fuel_validated. constructor.
Qed.

End TranscriptFacts.

(** ** Windows and fallback segments *)

Module WindowFacts.
Import Extractor.
Import Statements Notions.

Lemma sliding_step_window (input : list TranscriptEntry) (d : num)
    (windows : list (list TranscriptEntry)) (cur : list TranscriptEntry)
    (ws : option num) (t : TranscriptEntry) :
  In t input ->
  Forall (sliding_window input d) windows -> growing_window input d cur ws ->
  let '(windows', cur', ws') := sliding_step d (windows, cur, ws) t in
  Forall (sliding_window input d) windows' /\ growing_window input d cur' ws'.
Proof.
  intros Ht Hw Hc. unfold sliding_step.
  destruct (end_ t <=? start t)%num eqn:Hvalid; [now split |].
  assert (Hentry : window_entry input t) by now split.
  destruct (no_windowStart ws) eqn:Hws.
  - split; [assumption |]. cbn. repeat split; try congruence; now repeat constructor.
  - destruct ws as [n |]; [| discriminate]. cbn [no_windowStart] in Hws.
    apply negb_false_iff in Hws.
    destruct cur as [| first rest]; [discriminate Hc |].
    destruct Hc as (Hn & _ & Hall & Hnear). injection Hn as ->.
    destruct (start t - start first <=? d)%num eqn:Hin.
    + split; [assumption |]. cbn [growing_window app]. repeat split.
      * intros _. exact Hws.
      * change (first :: rest ++ [t]) with ((first :: rest) ++ [t]).
        now apply ParserFacts.Forall_snoc.
      * now apply ParserFacts.Forall_snoc.
    + split.
      * destruct (window_ok (first :: rest)) eqn:Hok; [| assumption].
        apply ParserFacts.Forall_snoc; [assumption |].
        exists first, rest. repeat split; try assumption.
        intros ->. discriminate Hok.
      * cbn. repeat split; try congruence; now repeat constructor.
Qed.

Lemma sliding_fold_window (input : list TranscriptEntry) (d : num)
    (l : list TranscriptEntry) :
  forall windows cur ws,
    Forall (fun t => In t input) l ->
    Forall (sliding_window input d) windows -> growing_window input d cur ws ->
    let '(windows', cur', ws') := fold_left (sliding_step d) l (windows, cur, ws) in
    Forall (sliding_window input d) windows' /\ growing_window input d cur' ws'.
Proof.
  induction l as [| t rest IH]; intros windows cur ws Hl Hw Hc; cbn [fold_left].
  - now split.
  - inversion Hl as [| ? ? Ht Hrest]; subst.
    pose proof (@sliding_step_window input d windows cur ws t Ht Hw Hc) as Hstep.
    destruct (sliding_step d (windows, cur, ws) t) as [[windows' cur'] ws'].
    destruct Hstep. now apply IH.
Qed.

(** X3.  Every window [createSlidingWindows] returns holds at least two
    entries of the input, none of them with [end <= start]; its first
    entry starts at a time that is not [0] (a window start of [0] reads
    as no start, so the window is started again at the next entry), and
    every other entry starts within the window duration of the first. *)
Theorem createSlidingWindows_windows (timestamps : list TranscriptEntry) (d : num) :
  Forall (sliding_window timestamps d) (createSlidingWindows timestamps d).
Proof.
  unfold createSlidingWindows.
  assert (Hin : Forall (fun t => In t timestamps) (sort_by_start timestamps)).
  { apply Forall_forall. intros t Ht. now apply SortFacts.js_sort_In in Ht. }
  pose proof (@sliding_fold_window timestamps d (sort_by_start timestamps)
                [] [] None Hin (Forall_nil _) eq_refl) as H.
  destruct (fold_left (sliding_step d) (sort_by_start timestamps) ([], [], None))
    as [[windows cur] ws].
  destruct H as [Hw Hc].
  destruct (window_ok cur) eqn:Hok; [| assumption].
  apply ParserFacts.Forall_snoc; [assumption |].
  destruct cur as [| first rest]; [discriminate Hok |].
  destruct Hc as (_ & Htruthy & Hall & Hnear).
  assert (Hrest : rest <> []) by (intros ->; discriminate Hok).
  exists first, rest. repeat split; auto.
Qed.

Lemma chunks_concat (fuel : nat) :
  forall l, (List.length l <= fuel)%nat -> List.concat (chunks fuel 8 l) = l.
Proof.
  induction fuel as [| fuel IH]; intros l Hl; cbn [chunks].
  - destruct l; [reflexivity | cbn in Hl; lia].
  - destruct l as [| e rest]; [reflexivity |].
    cbn [List.concat]. rewrite IH; [apply firstn_skipn |].
    rewrite length_skipn. cbn [List.length] in *. lia.
Qed.

Lemma chunks_sizes (fuel : nat) :
  forall l, Forall (fun w => 1 <= List.length w <= 8)%nat (chunks fuel 8 l).
Proof.
  induction fuel as [| fuel IH]; intros l; cbn [chunks]; [constructor |].
  destruct l as [| e rest]; [constructor |].
  constructor; [| apply IH].
  rewrite length_firstn. cbn [List.length]. lia.
Qed.

Lemma chunks_length (fuel : nat) :
  forall l, (List.length l <= fuel)%nat ->
            List.length (chunks fuel 8 l) = ((List.length l + 7) / 8)%nat.
Proof.
  induction fuel as [| fuel IH]; intros l Hl; cbn [chunks].
  - destruct l; [reflexivity | cbn in Hl; lia].
  - destruct l as [| e rest]; [reflexivity |].
    cbn [List.length]. rewrite IH by (rewrite length_skipn; cbn [List.length] in *; lia).
    rewrite length_skipn. cbn [List.length] in *.
    destruct (Nat.le_gt_cases (S (List.length rest)) 8) as [Hsmall | Hbig].
    + replace (S (List.length rest) - 8)%nat with 0%nat by lia.
      change ((0 + 7) / 8)%nat with 0%nat.
      apply (Nat.div_unique _ 8 1 (List.length rest)); lia.
    + replace (S (List.length rest) + 7)%nat
        with ((S (List.length rest) - 8 + 7) + 1 * 8)%nat by lia.
      rewrite Nat.div_add by discriminate. lia.
Qed.

(** X4.  [createFallbackSegments] cuts the entries into consecutive
    segments of eight (the last one may hold fewer): the entries of the
    segments, one segment after the other, are the entries given, no
    segment is empty or holds more than eight, and there are
    [ceil(n / 8)] segments for [n] entries. *)
Theorem createFallbackSegments_partition (timestamps : list TranscriptEntry) :
  let segments := createFallbackSegments timestamps in
  List.concat (map Segment.timestamps segments) = timestamps /\
  Forall (fun seg => 1 <= List.length (Segment.timestamps seg) <= 8)%nat segments /\
  List.length segments = ((List.length timestamps + 7) / 8)%nat.
Proof.
  cbv zeta. unfold createFallbackSegments. repeat split.
  - rewrite map_map. cbn [Segment.timestamps]. rewrite map_id.
    now apply chunks_concat.
  - apply Forall_map. cbn [Segment.timestamps]. apply chunks_sizes.
  - rewrite length_map. now apply chunks_length.
Qed.

End WindowFacts.

(** ** Ranking and selection *)

Module RankFacts.
Import Extractor.
Import Statements Notions.

Section Descending.
Variable A : Type.
Variable key : A -> num.

Lemma sort_insert_descending (x : A) (l : list A) :
  isNaN (key x) = false ->
  Forall (fun y => isNaN (key y) = false) l ->
  StronglySorted (key_geb key) l ->
  StronglySorted (key_geb key)
    (sort_insert (fun a b => (Fin 0 <? key b - key a)%num) x l).
Proof.
  intros Hx Hl Hs. induction Hs as [| y rest Hrest IH Hy]; cbn [sort_insert].
  - repeat constructor.
  - inversion Hl as [| ? ? Hyn Hrn]; subst.
    rewrite SortFacts.difference_positive by assumption.
    destruct (key x <? key y)%num eqn:E.
    + constructor; [now apply IH |].
      apply Forall_forall. intros z Hz. apply SortFacts.sort_insert_In in Hz.
      destruct Hz as [-> | Hz].
      * now apply SortFacts.less_leb.
      * rewrite Forall_forall in Hy. now apply Hy.
    + assert (Hxy : key_geb key x y) by now apply SortFacts.not_less_leb.
      constructor; [now constructor |].
      constructor; [exact Hxy |].
      eapply Forall_impl; [| exact Hy].
      intros z Hz. unfold key_geb in *. eapply SortFacts.leb_trans; eassumption.
Qed.

Lemma js_sort_descending (l : list A) :
  Forall (fun y => isNaN (key y) = false) l ->
  StronglySorted (key_geb key) (js_sort (fun a b => (Fin 0 <? key b - key a)%num) l).
Proof.
  intro Hl. induction Hl as [| x rest Hx Hrest IH]; cbn [js_sort fold_right].
  - constructor.
  - apply sort_insert_descending; [exact Hx | | exact IH].
    apply Forall_forall. intros y Hy. apply SortFacts.js_sort_In in Hy.
    rewrite Forall_forall in Hrest. now apply Hrest.
Qed.

End Descending.

Lemma firstn_Forall (A : Type) (P : A -> Prop) (n : nat) (l : list A) :
  Forall P l -> Forall P (firstn n l).
Proof. intro H. now apply SegmenterFacts.Forall_firstn_skipn. Qed.

Lemma firstn_StronglySorted (A : Type) (R : A -> A -> Prop) (l : list A) :
  StronglySorted R l -> forall n, StronglySorted R (firstn n l).
Proof.
  induction 1 as [| x rest Hrest IH Hx]; intros [| n]; cbn [firstn];
    constructor; [apply IH | now apply firstn_Forall].
Qed.

Lemma above_threshold_not_NaN (threshold f : float) :
  PrimFloat.ltb threshold f = true -> isNaN (num_of_float f) = false.
Proof.
  intro H. unfold num_of_float. destruct (Prim2SF f) eqn:E; try reflexivity.
  - now destruct s.
  - rewrite ltb_spec, E in H. unfold SFltb, SFcompare in H.
    destruct (Prim2SF threshold); discriminate.
Qed.

(** X5.  With a Bedrock client and an embedding of the query,
    [createSemanticSegments] returns at most six segments, each of them
    one of the sliding windows of the entries with a similarity above
    [MIN_RELEVANCE_SCORE], the most similar first. *)
Theorem createSemanticSegments_ranked
    (env : Collaborators) (timestamps : list TranscriptEntry) (query : string)
    (queryEmbedding : list float)
    (Hclient : hasClient env = true)
    (Hquery : getAWSEmbedding env query = Some queryEmbedding) :
  let segments := createSemanticSegments env timestamps query in
  (List.length segments <= 6)%nat /\
  Forall (scored_window timestamps) segments /\
  StronglySorted (key_geb Segment.similarity) segments.
Proof.
  cbv zeta. unfold createSemanticSegments. rewrite Hclient, Hquery. cbn [negb].
  set (scoredWindows := flat_map _ _).
  assert (Hscored : Forall (scored_window timestamps) scoredWindows).
  { apply SegmenterFacts.Forall_flat_map. intros w Hin.
    destruct (getAWSEmbedding env (joined_text w)); [| constructor].
    cbn zeta.
    destruct (PrimFloat.ltb _ _) eqn:Habove; constructor; [| constructor].
    split; [exact Hin |]. eexists. split; [reflexivity | exact Habove]. }
  repeat split.
  - apply firstn_le_length.
  - apply firstn_Forall. now apply ParserFacts.js_sort_Forall.
  - apply firstn_StronglySorted. apply (js_sort_descending Segment.similarity).
    eapply Forall_impl; [| exact Hscored].
    intros seg (_ & f & -> & Hf). exact (above_threshold_not_NaN Hf).
Qed.

Lemma createSemanticSegments_ranked_witness :
  let env :=
    {| hasClient := true; readdir := None;
       getAWSEmbedding := fun _ => Some [1%float; 0%float];
       judge := fun _ _ _ => VNull; select := fun _ _ _ => VNull;
       arrayInherits := inherited_by_arrays |} in
  let timestamps :=
    [ mkEntry "Unplug the router." (Fin 20) (Fin 25) (VNum (Fin 1));
      mkEntry "Wait ten seconds." (Fin 25) (Fin 30) (VNum (Fin 1)) ] in
  let segments := createSemanticSegments env timestamps "router" in
  (List.length segments <= 6)%nat /\
  Forall (scored_window timestamps) segments /\
  StronglySorted (key_geb Segment.similarity) segments.
Proof.
  exact (@createSemanticSegments_ranked
           {| hasClient := true; readdir := None;
              getAWSEmbedding := fun _ => Some [1%float; 0%float];
              judge := fun _ _ _ => VNull; select := fun _ _ _ => VNull;
              arrayInherits := inherited_by_arrays |}
           [ mkEntry "Unplug the router." (Fin 20) (Fin 25) (VNum (Fin 1));
             mkEntry "Wait ten seconds." (Fin 25) (Fin 30) (VNum (Fin 1)) ]
           "router" [1%float; 0%float] eq_refl eq_refl).
Defined.

Lemma flat_map_option_length (A B : Type) (f : A -> option B) (l : list A) :
  (List.length (flat_map (fun a => match f a with Some b => [b] | None => [] end) l)
   <= List.length l)%nat.
Proof.
  induction l as [| a rest IH]; cbn [flat_map List.length]; [lia |].
  rewrite length_app. destruct (f a); cbn [List.length]; lia.
Qed.

Lemma incl_firstn (A : Type) (n : nat) (l : list A) : incl (firstn n l) l.
Proof. intros x Hx. rewrite <- (firstn_skipn n l). apply in_or_app. now left. Qed.

Lemma incl_js_sort (A : Type) (after : A -> A -> bool) (l : list A) :
  incl (js_sort after l) l.
Proof. intros x Hx. now apply SortFacts.js_sort_In in Hx. Qed.

Lemma optimizeClipsWithLLM_length (env : Collaborators) (clips : list Clip.t)
    (userQuery agentResponse : string) :
  (List.length (optimizeClipsWithLLM env clips userQuery agentResponse) <= MAX_CLIPS)%nat.
Proof.
  assert (Hfirst : forall l : list Clip.t,
            (List.length (map SelectedClip (firstn MAX_CLIPS l)) <= MAX_CLIPS)%nat)
    by (intro l; rewrite length_map; apply firstn_le_length).
  unfold optimizeClipsWithLLM.
  destruct (negb (hasClient env) || (List.length clips =? 0)%nat); [apply Hfirst |].
  cbv zeta.
  destruct (truthy_value _ && truthy_value _); [| apply Hfirst].
  destruct (prop _ "selected_clips") as [| | | | | selected |]; try apply Hfirst.
  etransitivity; [apply (flat_map_option_length (fun index => element env _ index)) |].
  apply firstn_le_length.
Qed.

Lemma element_taken_from (env : Collaborators) (candidates clips : list Clip.t)
    (index : value) (item : Selected) :
  incl candidates clips ->
  (List.length candidates <= List.length clips)%nat ->
  element env candidates index = Some item -> taken_from env clips item.
Proof.
  intros Hincl Hlen. unfold element.
  destruct (array_index (str (toString index))) as [n |] eqn:Hkey.
  - destruct (n <? N.of_nat (List.length candidates))%N; [| discriminate].
    destruct (nth_error candidates (N.to_nat n)) as [clip |] eqn:E; [| discriminate].
    intro H. injection H as <-. apply Hincl. eapply nth_error_In; eassumption.
  - destruct index; try discriminate;
      (destruct (String.eqb _ "length");
       [ destruct (0 <? List.length candidates)%nat eqn:E; [| discriminate];
         intro H; injection H as <-; cbn [taken_from];
         apply Nat.ltb_lt in E; lia
       | destruct (arrayInherits env _) eqn:E; [| discriminate];
         intro H; injection H as <-; cbn [taken_from]; split; assumption ]).
Qed.

Lemma element_of_number (env : Collaborators) (candidates clips : list Clip.t)
    (n : num) (item : Selected) :
  incl candidates clips ->
  element env candidates (VNum n) = Some item -> clip_of clips item.
Proof.
  intros Hincl. unfold element.
  destruct (array_index (str (toString (VNum n)))) as [i |]; [| discriminate].
  destruct (i <? N.of_nat (List.length candidates))%N; [| discriminate].
  destruct (nth_error candidates (N.to_nat i)) as [clip |] eqn:E; [| discriminate].
  intro H. injection H as <-. exists clip. split; [reflexivity |].
  apply Hincl. eapply nth_error_In; eassumption.
Qed.

Lemma ranked_clips (clips candidates : list Clip.t) :
  incl candidates clips ->
  Forall (clip_of clips) (map SelectedClip (firstn MAX_CLIPS candidates)).
Proof.
  intro Hincl. apply Forall_map. apply Forall_forall. intros clip Hclip.
  exists clip. split; [reflexivity |]. apply Hincl. now apply (incl_firstn MAX_CLIPS).
Qed.

Lemma clip_of_taken_from (env : Collaborators) (clips : list Clip.t) (item : Selected) :
  clip_of clips item -> taken_from env clips item.
Proof. intros (clip & -> & Hin). exact Hin. Qed.

Lemma candidates_of_clips (clips : list Clip.t) :
  let candidates :=
    if (8 <? List.length clips)%nat
    then firstn 8 (js_sort less_relevant clips)
    else clips in
  incl candidates clips /\ (List.length candidates <= List.length clips)%nat.
Proof.
  cbv zeta. destruct (8 <? List.length clips)%nat.
  - split.
    + eapply incl_tran; [apply incl_firstn | apply incl_js_sort].
    + rewrite length_firstn, SortFacts.js_sort_length. apply Nat.le_min_r.
  - split; [apply incl_refl | apply Nat.le_refl].
Qed.

(** X6.  [optimizeClipsWithLLM] returns at most [MAX_CLIPS] items.  Each
    is one of the clips it was given or, when the LLM gave the name of
    a property for an index, that property of the array of candidates:
    its length or a property arrays inherit.  When the indices the LLM
    gave are all numbers, every item is one of the clips given (a
    number that is no position of the array selects nothing). *)
Theorem optimizeClipsWithLLM_selects
    (env : Collaborators) (clips : list Clip.t) (userQuery agentResponse : string) :
  let selected := optimizeClipsWithLLM env clips userQuery agentResponse in
  (List.length selected <= MAX_CLIPS)%nat /\
  Forall (taken_from env clips) selected /\
  ((forall candidates,
       numeric_selection (select env userQuery agentResponse candidates)) ->
   Forall (clip_of clips) selected).
Proof.
  cbv zeta. split; [apply optimizeClipsWithLLM_length |].
  unfold optimizeClipsWithLLM.
  destruct (negb (hasClient env) || (List.length clips =? 0)%nat).
  { assert (H : Forall (clip_of clips) (map SelectedClip (firstn MAX_CLIPS clips)))
      by (apply ranked_clips, incl_refl).
    split; [| intros _; exact H].
    eapply Forall_impl; [| exact H]. apply clip_of_taken_from. }
  destruct (candidates_of_clips clips) as [Hincl Hlen]. cbv zeta in Hincl, Hlen.
  set (candidates := if (8 <? List.length clips)%nat then _ else _) in *.
  cbv zeta.
  assert (Hranked : Forall (clip_of clips)
            (map SelectedClip (firstn MAX_CLIPS (js_sort less_relevant candidates)))).
  { apply ranked_clips. eapply incl_tran; [apply incl_js_sort | exact Hincl]. }
  assert (Hranked' : Forall (taken_from env clips)
            (map SelectedClip (firstn MAX_CLIPS (js_sort less_relevant candidates)))).
  { eapply Forall_impl; [| exact Hranked]. apply clip_of_taken_from. }
  destruct (truthy_value _ && truthy_value _); [| split; [exact Hranked' | intros _; exact Hranked]].
  destruct (prop (select env userQuery agentResponse candidates) "selected_clips")
    as [| | | | | selected |] eqn:Hselected;
    try (split; [exact Hranked' | intros _; exact Hranked]).
  split.
  - apply SegmenterFacts.Forall_flat_map. intros index _.
    destruct (element env candidates index) as [item |] eqn:E; [| constructor].
    constructor; [| constructor].
    exact (element_taken_from env index Hincl Hlen E).
  - intro Hnumeric. specialize (Hnumeric candidates _ Hselected).
    apply SegmenterFacts.Forall_flat_map. intros index Hindex.
    assert (Hnum : exists n, index = VNum n).
    { rewrite Forall_forall in Hnumeric. apply Hnumeric.
      now apply (incl_firstn MAX_CLIPS). }
    destruct Hnum as [n ->].
    destruct (element env candidates (VNum n)) as [item |] eqn:E; [| constructor].
    constructor; [| constructor].
    exact (element_of_number env n Hincl E).
Qed.

Lemma optimizeClipsWithLLM_selects_witness :
  Forall (clip_of two_candidates)
    (optimizeClipsWithLLM (ranking_env numeric_reply) two_candidates
       "How do I reset it?" "Unplug it.").
Proof.
  apply (proj2 (proj2 (@optimizeClipsWithLLM_selects (ranking_env numeric_reply)
                         two_candidates "How do I reset it?" "Unplug it."))).
  intros candidates indices H. injection H as <-.
  repeat constructor; eexists; reflexivity.
Defined.

(** A reply that names properties where indices are expected: the
    length of the array and one of its methods come back among the
    clips. *)
Remark optimizeClipsWithLLM_property_names :
  optimizeClipsWithLLM (ranking_env naming_reply) two_candidates
    "How do I reset it?" "Unplug it." =
  [ SelectedClip (candidate "Waiting" (8 # 10)); ArrayLength 2;
    InheritedProperty "map"; SelectedClip (candidate "Unplugging" (6 # 10)) ].
Proof. vm_compute. reflexivity. Qed.

(** X7.  With a Bedrock client, [extractRelevantClips] returns at most
    [MAX_CLIPS] clips, whatever the trace holds and the LLM answers. *)
Theorem extractRelevantClips_at_most_max
    (env : Collaborators) (agentTrace : option Trace)
    (agentResponse userQuery : string)
    (Hclient : hasClient env = true) :
  (List.length (extractRelevantClips env agentTrace agentResponse userQuery)
   <= MAX_CLIPS)%nat.
Proof.
  unfold extractRelevantClips. rewrite Hclient.
  set (clips := match agentTrace with Some _ => _ | None => _ end).
  assert (Hfallback :
    (List.length (createIntelligentFallbacks env userQuery agentResponse) <= MAX_CLIPS)%nat).
  { unfold createIntelligentFallbacks.
    pose proof (CuratorFacts.fallback_loop_length userQuery
                  (findAllVideoFiles (readdir env)) 0) as H.
    unfold MAX_CLIPS. lia. }
  destruct (0 <? List.length clips)%nat eqn:E; cbn [andb].
  - pose proof (optimizeClipsWithLLM_length env clips userQuery agentResponse) as H.
    destruct (optimizeClipsWithLLM env clips userQuery agentResponse);
      [now rewrite length_map | exact H].
  - destruct clips; [cbn [map]; now rewrite length_map | discriminate E].
Qed.

Lemma extractRelevantClips_at_most_max_witness :
  (List.length (extractRelevantClips env_one_video None "Unplug it." "How do I reset it?")
   <= MAX_CLIPS)%nat.
Proof.
  exact (@extractRelevantClips_at_most_max env_one_video None "Unplug it."
           "How do I reset it?" eq_refl).
Defined.

(** X8.  Whatever the trace holds, [extractRelevantClips] returns at
    least one clip as soon as the videos directory holds a video file:
    when no clip survives, the fallback clips are returned. *)
Theorem extractRelevantClips_nonempty
    (env : Collaborators) (agentTrace : option Trace)
    (agentResponse userQuery : string) (files : list string) (file : string)
    (Hdir : readdir env = Some files)
    (Hin : In file files)
    (Hvideo : isVideoFile file = true) :
  exists clip others,
    extractRelevantClips env agentTrace agentResponse userQuery = clip :: others.
Proof.
  assert (Hfallback : exists clip others,
            map SelectedClip (createIntelligentFallbacks env userQuery agentResponse) =
            clip :: others).
  { unfold createIntelligentFallbacks.
    assert (Hf : In file (findAllVideoFiles (readdir env))).
    { rewrite Hdir. unfold findAllVideoFiles. apply filter_In. split; assumption. }
    destruct (findAllVideoFiles (readdir env)) as [| f rest]; [contradiction |].
    cbn. eexists. eexists. reflexivity. }
  unfold extractRelevantClips.
  match goal with |- exists _ _, match ?c with [] => _ | _ :: _ => _ end = _ =>
    destruct c as [| clip others]; [exact Hfallback | now exists clip, others] end.
Qed.

Lemma extractRelevantClips_nonempty_witness :
  exists clip others,
    extractRelevantClips env_one_video None "Unplug it." "How do I reset it?" = clip :: others.
Proof.
  exact (@extractRelevantClips_nonempty env_one_video None "Unplug it." "How do I reset it?"
           ["intro.mp4"%string] "intro.mp4"%string eq_refl (or_introl eq_refl) eq_refl).
Defined.

End RankFacts.

(** ** Clips and their context buffer *)

Module ClipFacts.
Import Extractor.
Import Statements Notions.

(** X9.  For a segment that starts at or after [0] and ends after it
    starts, and a judgment whose offsets are numbers (or are missing),
    every clip [enhanceClipWithLLM] produces starts at or after [0],
    stays within the context buffer around the segment and lasts longer
    than the buffer: three seconds with a Bedrock client, two
    without. *)
Theorem enhanceClipWithLLM_keeps_context
    (hasClient : bool) (analysis : value) (segment : Segment.t) (videoFile : string)
    (s e : Q) (clip : Clip.t)
    (Hs : Segment.startTime segment = Fin s)
    (He : Segment.endTime segment = Fin e)
    (Hnonneg : 0 <= s)
    (Hspan : s < e)
    (Hso : isNaN (offset_of analysis "optimal_start_offset") = false)
    (Heo : isNaN (offset_of analysis "optimal_end_offset") = false)
    (Hclip : enhanceClipWithLLM hasClient analysis segment videoFile = Some clip) :
  exists a b,
    Clip.startTime clip = Fin a /\ Clip.endTime clip = Fin b /\
    0 <= a /\ s - 3 <= a /\ b <= e + 3 /\
    a + (if hasClient then 3 else 2) < b.
Proof.
  unfold offset_of in *. revert Hclip.
  unfold enhanceClipWithLLM, createValidClip, createBasicClip, CONTEXT_BUFFER.
  rewrite Hs, He.
  destruct hasClient; cbn [negb].
  - destruct (toNumber_value (or_value (prop analysis "optimal_start_offset") _))
      as [| | | so]; try discriminate Hso;
    destruct (toNumber_value (or_value (prop analysis "optimal_end_offset") _))
      as [| | | eo]; try discriminate Heo;
    num_cases; try (exfalso; lra);
    repeat match goal with
      | |- context [if negb ?c then _ else _] => destruct c; cbn [negb]
      | |- context [if (?a && ?b)%bool then _ else _] => destruct (a && b)%bool
      end;
    num_cases; try (exfalso; lra); intro Hclip; try discriminate Hclip;
    injection Hclip as <-; cbn [Clip.startTime Clip.endTime];
    (eexists; eexists; split; [reflexivity |]; split; [reflexivity |];
     repeat split; lra).
  - num_cases; intro Hclip; injection Hclip as <-; cbn [Clip.startTime Clip.endTime];
    (eexists; eexists; split; [reflexivity |]; split; [reflexivity |];
     repeat split; lra).
Qed.

Lemma enhanceClipWithLLM_keeps_context_witness :
  exists a b,
    Clip.startTime (createValidClip window_20_30 "router.mp4"
                      (Segment.text window_20_30) judgment_8_8) = Fin a /\
    Clip.endTime (createValidClip window_20_30 "router.mp4"
                    (Segment.text window_20_30) judgment_8_8) = Fin b /\
    0 <= a /\ 20 - 3 <= a /\ b <= 30 + 3 /\ a + 3 < b.
Proof.
  apply (@enhanceClipWithLLM_keeps_context true judgment_8_8 window_20_30
           "router.mp4" 20 30
           (createValidClip window_20_30 "router.mp4"
              (Segment.text window_20_30) judgment_8_8)).
  - reflexivity.
  - reflexivity.
  - lra.
  - lra.
  - reflexivity.
  - reflexivity.
  - reflexivity.
Defined.

(** X10.  The offsets of a judgment are not checked to be numbers: when
    the judgment includes the clip and its start offset is not a number
    (a string that does not read as one, say), the clip is produced all
    the same and its [startTime] is [NaN]. *)
Theorem enhanceClipWithLLM_unchecked_offset
    (analysis : value) (segment : Segment.t) (videoFile : string) (s e : Q)
    (Hs : Segment.startTime segment = Fin s)
    (He : Segment.endTime segment = Fin e)
    (Hspan : s < e)
    (Hinclude : truthy_value (prop analysis "include_clip") = true)
    (Hscore :
       (toNumber_value (prop analysis "relevance_score") >=? MIN_LLM_SCORE)%num = true)
    (Hso : offset_of analysis "optimal_start_offset" = NaN) :
  exists clip,
    enhanceClipWithLLM true analysis segment videoFile = Some clip /\
    Clip.startTime clip = NaN.
Proof.
  unfold offset_of in Hso.
  unfold enhanceClipWithLLM, CONTEXT_BUFFER. cbn [negb].
  rewrite Hs, He, (CuratorFacts.prop_truthy_object _ _ Hinclude), Hinclude, Hscore, Hso.
  destruct (toNumber_value (or_value (prop analysis "optimal_end_offset") _))
    as [| | | eo];
    num_cases; try (exfalso; lra);
    (eexists; split; [reflexivity | reflexivity]).
Qed.

Lemma enhanceClipWithLLM_unchecked_offset_witness :
  exists clip,
    enhanceClipWithLLM true judgment_soon window_20_30 "router.mp4" = Some clip /\
    Clip.startTime clip = NaN.
Proof.
  apply (@enhanceClipWithLLM_unchecked_offset judgment_soon window_20_30
           "router.mp4" 20 30).
  - reflexivity.
  - reflexivity.
  - lra.
  - reflexivity.
  - reflexivity.
  - reflexivity.
Defined.

End ClipFacts.

(** ** Display names, titles and descriptions *)

Module DisplayFacts.
Import Extractor.
Import Statements Notions.

Lemma digits_exactly_suffix (n : nat) :
  forall s r, digits_exactly n s = Some r -> exists p, s = (p ++ r)%list.
Proof.
  induction n as [| n IH]; intros s r H; cbn [digits_exactly] in H.
  - injection H as <-. now exists [].
  - destruct s as [| c s']; [discriminate |].
    destruct (isDigit c); [| discriminate].
    destruct (IH _ _ H) as [p ->]. now exists (c :: p).
Qed.

Lemma date_stamp_needs_underscore (s : list ascii) :
  ~ In "_"%char s -> date_stamp s = None.
Proof.
  intro Hs. unfold date_stamp.
  destruct (digits_exactly 8 s) as [[| c r] |] eqn:E; try reflexivity.
  destruct (Ascii.eqb c "_"%char) eqn:Ec; [| reflexivity].
  apply Ascii.eqb_eq in Ec. subst c.
  destruct (digits_exactly_suffix _ _ E) as [p ->].
  exfalso. apply Hs. apply in_or_app. right. now left.
Qed.

Lemma remove_first_no_match (matcher : list ascii -> option (list ascii)) (s : list ascii) :
  (forall k, matcher (skipn k s) = None) -> remove_first matcher s = s.
Proof.
  induction s as [| c r IH]; intro H;
    pose proof (H 0%nat) as H0; cbn [skipn] in H0; cbn [remove_first]; rewrite H0.
  - reflexivity.
  - f_equal. apply IH. intro k. exact (H (S k)).
Qed.

Lemma spaced_no_underscore (s : list ascii) : ~ In "_"%char (spaced s).
Proof.
  unfold spaced. intro H. apply in_map_iff in H. destruct H as (c & Hc & _).
  destruct (Ascii.eqb c "-"%char) eqn:E1; cbn [orb] in Hc; [discriminate Hc |].
  destruct (Ascii.eqb c "_"%char) eqn:E2; [discriminate Hc |].
  subst c. discriminate E2.
Qed.

Lemma skipn_In (A : Type) (k : nat) (l : list A) (x : A) : In x (skipn k l) -> In x l.
Proof.
  intro H. rewrite <- (firstn_skipn k l). apply in_or_app. now right.
Qed.

(** X11.  [getVideoDisplayName] never removes a date stamp: the pattern
    of eight digits, an underscore and six digits is looked for after
    every underscore has been turned into a space, so it matches
    nothing and the name is the file name without its extension, with
    spaces for dashes and underscores, without its first meeting label,
    trimmed. *)
Theorem getVideoDisplayName_keeps_date_stamp (filename : string) :
  getVideoDisplayName filename =
  str (trim (remove_first meeting_label
               (spaced (strip_video_extension (chars filename))))).
Proof.
  unfold getVideoDisplayName. cbv zeta.
  fold (spaced (strip_video_extension (chars filename))).
  rewrite (@remove_first_no_match date_stamp); [reflexivity |].
  intro k. apply date_stamp_needs_underscore. intro H.
  apply skipn_In in H. exact (spaced_no_underscore _ H).
Qed.

Lemma length_str (l : list ascii) : String.length (str l) = List.length l.
Proof.
  induction l as [| c r IH]; [reflexivity |].
  unfold str in *. cbn [string_of_list_ascii String.length List.length]. now rewrite IH.
Qed.

Lemma length_chars (s : string) : List.length (chars s) = String.length s.
Proof.
  induction s as [| c r IH]; [reflexivity |].
  unfold chars in *. cbn [list_ascii_of_string String.length List.length]. now rewrite IH.
Qed.

(** X12.  The title [generateFallbackTitle] makes is at most 63
    characters long and the description [generateFallbackDescription]
    makes at most 203: sixty, or two hundred, characters of the text
    and the three dots. *)
Theorem fallback_texts_bounded (text : string) :
  (String.length (generateFallbackTitle text) <= 63)%nat /\
  (String.length (generateFallbackDescription text) <= 203)%nat.
Proof.
  split.
  - unfold generateFallbackTitle, substring0, ellipsis. cbv zeta.
    destruct (filter _ _) as [| s rest].
    + rewrite length_str, length_app, length_firstn. cbn [List.length chars list_ascii_of_string]. lia.
    + destruct (60 <? List.length (trim s))%nat eqn:E.
      * rewrite length_str, length_app, length_firstn. cbn [List.length chars list_ascii_of_string]. lia.
      * apply Nat.ltb_ge in E. rewrite length_str. lia.
  - unfold generateFallbackDescription, substring0, ellipsis. cbv zeta.
    destruct (200 <? List.length (chars text))%nat eqn:E.
    + rewrite length_str, length_app, length_firstn. cbn [List.length chars list_ascii_of_string]. lia.
    + apply Nat.ltb_ge in E. rewrite <- length_chars. lia.
Qed.

End DisplayFacts.

(** ** The transcoder budget of a frame extraction *)

Module FrameBudgetFacts.
Import FrameExtractor.
Import Statements Notions.

Lemma run_strategies_length (accept : Strategy -> bool) (l : list Strategy) :
  (List.length (fst (run_strategies accept l)) <= List.length l)%nat.
Proof.
  induction l as [| s rest IH]; cbn [run_strategies]; [cbn; lia |].
  destruct (accept s); [cbn; lia |].
  destruct (run_strategies accept rest) as [seeks ok]. cbn [fst List.length] in *. lia.
Qed.

Lemma extractFrame_from_length (w : World) (timestamp : num) (retries : nat) :
  forall retryCount,
    (List.length (snd (extractFrame_from w timestamp retryCount retries))
     <= 3 * S retries)%nat.
Proof.
  induction retries as [| retries IH]; intro retryCount; cbn [extractFrame_from];
    destruct (cached w); try (cbn; lia);
    destruct (inFlight w); try (cbn; lia);
    destruct (negb (videoExists w)); try (cbn; lia);
    destruct (probe w) as [duration |]; try (cbn; lia);
    destruct (invalid_duration duration); try (cbn; lia);
    pose proof (run_strategies_length (transcode w retryCount)
                  (extractionStrategies (adjustTimestamp timestamp duration) duration)) as Hrun;
    destruct (run_strategies _ _) as [seeks ok]; cbn [fst] in Hrun;
    change (List.length (extractionStrategies (adjustTimestamp timestamp duration) duration))
      with 3%nat in Hrun;
    destruct ok; cbn [snd]; try lia.
  specialize (IH (S retryCount)).
  destruct (extractFrame_from w timestamp (S retryCount) retries) as [result later].
  cbn [snd] in *. rewrite length_app. lia.
Qed.

(** X13.  One call of [extractFrame] runs the transcoder at most twelve
    times: three strategies on each of the first attempt and its three
    retries. *)
Theorem extractFrame_transcoder_budget (w : World) (timestamp : num) :
  (List.length (snd (extractFrame w timestamp)) <= 12)%nat.
Proof.
  unfold extractFrame, maxRetries.
  exact (extractFrame_from_length w timestamp 3 0).
Qed.

End FrameBudgetFacts.

(** ** What de-duplication keeps *)

Module DedupFacts.
Import VideoGenerator.
Import Statements Notions.

Lemma seen_get_set_same (key : string) (o : Obj) (seen : list (string * Obj)) :
  seen_get key (seen_set key o seen) = Some o.
Proof.
  induction seen as [| [k o'] rest IH]; cbn [seen_set seen_get].
  - now rewrite String.eqb_refl.
  - destruct (String.eqb k key) eqn:E; cbn [seen_get]; rewrite E; [reflexivity | exact IH].
Qed.

Lemma seen_get_set_other (key k : string) (o : Obj) (seen : list (string * Obj)) :
  k <> key -> seen_get k (seen_set key o seen) = seen_get k seen.
Proof.
  intro Hk. induction seen as [| [k' o'] rest IH]; cbn [seen_set seen_get].
  - destruct (String.eqb key k) eqn:E; [| reflexivity].
    apply String.eqb_eq in E. congruence.
  - destruct (String.eqb k' key) eqn:E; cbn [seen_get].
    + apply String.eqb_eq in E. subst k'.
      destruct (String.eqb key k) eqn:E'; [| reflexivity].
      apply String.eqb_eq in E'. congruence.
    + destruct (String.eqb k' k); [reflexivity | exact IH].
Qed.

Lemma special_truthy (s : Segment) : is_special s = true -> truthy_value s = true.
Proof.
  unfold is_special, has_type. destruct s; cbn [prop]; try discriminate. reflexivity.
Qed.

Lemma special_not_content (s : Segment) :
  is_special s = true -> has_type s "content" = false.
Proof.
  intro H. destruct (has_type s "content") eqn:E; [| reflexivity].
  apply AssemblyFacts.content_not_special in E. congruence.
Qed.

(** [replace_object] puts the new object where the first object of the
    identity looked for is. *)
Lemma replace_object_shape (existing o : Obj) (u u' : list Obj) :
  replace_object existing o u = Some u' ->
  exists pre old post,
    u = (pre ++ old :: post)%list /\ u' = (pre ++ o :: post)%list /\
    fst old = fst existing.
Proof.
  revert u'. induction u as [| x rest IH]; intros u' H; cbn [replace_object] in H.
  - discriminate.
  - destruct (fst x =? fst existing)%nat eqn:E.
    + injection H as <-. apply Nat.eqb_eq in E. now exists [], x, rest.
    + destruct (replace_object existing o rest) as [rest' |]; [| discriminate].
      injection H as <-. destruct (IH _ eq_refl) as (pre & old & post & -> & -> & Hold).
      now exists (x :: pre), old, post.
Qed.

Lemma NoDup_fst_eq (u : list Obj) (a b : Obj) :
  NoDup (map fst u) -> In a u -> In b u -> fst a = fst b -> a = b.
Proof.
  induction u as [| x rest IH]; intros Hnd Ha Hb Hab; [contradiction |].
  cbn [map] in Hnd. inversion Hnd as [| ? ? Hx Hrest]; subst.
  destruct Ha as [-> | Ha], Hb as [-> | Hb]; auto.
  - exfalso. apply Hx. rewrite Hab. now apply in_map.
  - exfalso. apply Hx. rewrite <- Hab. now apply in_map.
Qed.

Lemma filter_snoc (A : Type) (p : A -> bool) (l : list A) (x : A) :
  filter p (l ++ [x]) = (filter p l ++ if p x then [x] else [])%list.
Proof. rewrite filter_app. cbn [filter]. now destruct (p x). Qed.

Lemma skipped_invariant (done : list Obj) (seen : list (string * Obj))
    (unique : list Obj) (o : Obj) :
  special_object o = false ->
  dedup_invariant done seen unique -> dedup_invariant (done ++ [o]) seen unique.
Proof.
  intros Ho (Hincl & Hnd & Hkeep & Hseen & Hback & Hfilter).
  refine (conj _ (conj Hnd (conj Hkeep (conj Hseen (conj Hback _))))).
  - now apply incl_appl.
  - rewrite filter_snoc, Ho, app_nil_r. exact Hfilter.
Qed.

Lemma fresh_not_in (done unique : list Obj) (o : Obj) :
  ~ In (fst o) (map fst done) -> incl unique done -> ~ In (fst o) (map fst unique).
Proof.
  intros Hfresh Hincl Hin. apply Hfresh.
  apply in_map_iff in Hin. destruct Hin as (x & Hx & Hin).
  rewrite <- Hx. apply in_map. now apply Hincl.
Qed.

Lemma NoDup_snoc (A : Type) (l : list A) (x : A) :
  NoDup l -> ~ In x l -> NoDup (l ++ [x]).
Proof.
  induction 1 as [| y rest Hy Hrest IH]; intro Hx; cbn [app].
  - repeat constructor. intros [].
  - constructor.
    + intro Hin. apply in_app_or in Hin. destruct Hin as [Hin | [<- | []]].
      * contradiction.
      * apply Hx. now left.
    + apply IH. intro Hin. apply Hx. now right.
Qed.

Lemma appended_special (done : list Obj) (seen : list (string * Obj))
    (unique : list Obj) (o : Obj) :
  ~ In (fst o) (map fst done) -> special_object o = true ->
  dedup_invariant done seen unique ->
  dedup_invariant (done ++ [o]) seen (unique ++ [o]).
Proof.
  intros Hfresh Ho (Hincl & Hnd & Hkeep & Hseen & Hback & Hfilter).
  refine (conj _ (conj _ (conj _ (conj _ (conj _ _))))).
  - intros x Hx. apply in_app_or in Hx. apply in_or_app.
    destruct Hx as [Hx | Hx]; [left; now apply Hincl | now right].
  - rewrite map_app. cbn [map]. apply NoDup_snoc; [assumption |].
    eapply fresh_not_in; eassumption.
  - apply ParserFacts.Forall_snoc; [assumption | now left].
  - intros x k Hx Hns Hk. apply in_app_or in Hx. destruct Hx as [Hx | [<- | []]].
    + now apply Hseen.
    + congruence.
  - intros k x Hx. destruct (Hback k x Hx) as (Hin & Hns & Hk).
    repeat split; try assumption. apply in_or_app. now left.
  - rewrite !filter_snoc, Ho. now rewrite Hfilter.
Qed.

Lemma appended_content (done : list Obj) (seen : list (string * Obj))
    (unique : list Obj) (o : Obj) (key : string) :
  ~ In (fst o) (map fst done) -> special_object o = false ->
  keepable (snd o) -> getSegmentKey (snd o) = Some key ->
  seen_get key seen = None ->
  dedup_invariant done seen unique ->
  dedup_invariant (done ++ [o]) (seen_set key o seen) (unique ++ [o]).
Proof.
  intros Hfresh Ho Hkeepable Hkey Hnew (Hincl & Hnd & Hkeep & Hseen & Hback & Hfilter).
  refine (conj _ (conj _ (conj _ (conj _ (conj _ _))))).
  - intros x Hx. apply in_app_or in Hx. apply in_or_app.
    destruct Hx as [Hx | Hx]; [left; now apply Hincl | now right].
  - rewrite map_app. cbn [map]. apply NoDup_snoc; [assumption |].
    eapply fresh_not_in; eassumption.
  - apply ParserFacts.Forall_snoc; assumption.
  - intros x k Hx Hns Hk. apply in_app_or in Hx. destruct Hx as [Hx | [<- | []]].
    + assert (Hne : k <> key).
      { intros ->. rewrite (Hseen x key Hx Hns Hk) in Hnew. discriminate. }
      rewrite seen_get_set_other by assumption. now apply Hseen.
    + assert (k = key) by congruence. subst k. apply seen_get_set_same.
  - intros k x Hx. destruct (String.eqb key k) eqn:E.
    + apply String.eqb_eq in E. subst k. rewrite seen_get_set_same in Hx.
      injection Hx as <-. repeat split; try assumption.
      apply in_or_app. right. now left.
    + assert (Hne : k <> key) by (intros ->; rewrite String.eqb_refl in E; discriminate).
      rewrite seen_get_set_other in Hx by assumption.
      destruct (Hback k x Hx) as (Hin & Hns & Hk).
      repeat split; try assumption. apply in_or_app. now left.
  - rewrite !filter_snoc, Ho, !app_nil_r. exact Hfilter.
Qed.

Lemma replaced_content (done : list Obj) (seen : list (string * Obj))
    (unique replaced : list Obj) (o existing : Obj) (key : string) :
  ~ In (fst o) (map fst done) -> special_object o = false ->
  keepable (snd o) -> getSegmentKey (snd o) = Some key ->
  seen_get key seen = Some existing ->
  replace_object existing o unique = Some replaced ->
  dedup_invariant done seen unique ->
  dedup_invariant (done ++ [o]) (seen_set key o seen) replaced.
Proof.
  intros Hfresh Ho Hkeepable Hkey Hget Hrep (Hincl & Hnd & Hkeep & Hseen & Hback & Hfilter).
  destruct (Hback key existing Hget) as (Hex_in & Hex_ns & Hex_key).
  destruct (replace_object_shape _ _ _ Hrep) as (pre & old & post & Hu & -> & Hold).
  assert (old = existing).
  { apply (NoDup_fst_eq unique); try assumption.
    rewrite Hu. apply in_or_app. right. now left. }
  subst old. subst unique.
  assert (Hfresh' : ~ In (fst o) (map fst (pre ++ existing :: post)))
    by (eapply fresh_not_in; eassumption).
  assert (Hother : forall x, In x (pre ++ post) -> In x (pre ++ existing :: post) /\ x <> existing).
  { intros x Hx. split.
    - apply in_app_or in Hx. apply in_or_app. destruct Hx; [now left | right; now right].
    - intros ->. rewrite map_app in Hnd. cbn [map] in Hnd.
      apply NoDup_remove_2 in Hnd. apply Hnd. rewrite <- map_app. now apply in_map. }
  assert (Hsplit : forall x, In x (pre ++ o :: post) -> x = o \/ In x (pre ++ post)).
  { intros x Hx. apply in_app_or in Hx. destruct Hx as [Hx | [<- | Hx]];
      [right; apply in_or_app; now left | now left | right; apply in_or_app; now right]. }
  refine (conj _ (conj _ (conj _ (conj _ (conj _ _))))).
  - intros x Hx. apply in_or_app. destruct (Hsplit x Hx) as [-> | Hx'].
    + right. now left.
    + left. apply Hincl. now apply Hother.
  - rewrite map_app in *. cbn [map] in *.
    apply NoDup_remove_1 in Hnd as Hnd'.
    apply NoDup_Add with (a := fst o) (l := (map fst pre ++ map fst post)%list).
    + apply Add_app.
    + split; [assumption |].
      intro Hin. apply Hfresh'. apply in_app_or in Hin. apply in_or_app.
      destruct Hin; [now left | right; now right].
  - apply Forall_app in Hkeep. destruct Hkeep as [Hpre Hpost].
    inversion Hpost; subst. apply Forall_app. split; [assumption | now constructor].
  - intros x k Hx Hns Hk. destruct (Hsplit x Hx) as [-> | Hx'].
    + assert (k = key) by congruence. subst k. apply seen_get_set_same.
    + destruct (Hother x Hx') as [Hin Hne].
      assert (Hkne : k <> key).
      { intros ->. rewrite (Hseen x key Hin Hns Hk) in Hget. congruence. }
      rewrite seen_get_set_other by assumption. now apply Hseen.
  - intros k x Hx. destruct (String.eqb key k) eqn:E.
    + apply String.eqb_eq in E. subst k. rewrite seen_get_set_same in Hx.
      injection Hx as <-. repeat split; try assumption.
      apply in_or_app. right. now left.
    + assert (Hne : k <> key) by (intros ->; rewrite String.eqb_refl in E; discriminate).
      rewrite seen_get_set_other in Hx by assumption.
      destruct (Hback k x Hx) as (Hin & Hns & Hk).
      repeat split; try assumption.
      assert (x <> existing) by (intros ->; congruence).
      apply in_app_or in Hin. apply in_or_app.
      destruct Hin as [Hin | [Hin | Hin]]; [now left | congruence | right; now right].
  - rewrite filter_snoc, Ho, app_nil_r, <- Hfilter, !filter_app.
    cbn [filter]. now rewrite Ho, Hex_ns.
Qed.

Lemma dedup_step_invariant (done : list Obj) (seen seen' : list (string * Obj))
    (unique unique' : list Obj) (o : Obj) :
  ~ In (fst o) (map fst done) ->
  dedup_invariant done seen unique ->
  dedup_step (Some (seen, unique)) o = Some (seen', unique') ->
  dedup_invariant (done ++ [o]) seen' unique'.
Proof.
  intros Hfresh Hinv. unfold dedup_step.
  destruct (negb (truthy_value (snd o))) eqn:Hfalsy; cbn [orb].
  { intro H. injection H as <- <-. apply skipped_invariant; [| assumption].
    unfold special_object. destruct (is_special (snd o)) eqn:E; [| reflexivity].
    apply special_truthy in E. rewrite E in Hfalsy. discriminate. }
  destruct (has_type (snd o) "content") eqn:Hcontent; cbn [andb].
  - pose proof (AssemblyFacts.content_not_special _ Hcontent) as Hns.
    destruct (negb (truthy_value (prop (snd o) "videoPath"))) eqn:Hpath.
    { intro H. injection H as <- <-. now apply skipped_invariant. }
    rewrite Hns.
    destruct (getSegmentKey (snd o)) as [key |] eqn:Hkey; [| discriminate].
    assert (Hkeepable : keepable (snd o)).
    { right. repeat split; try assumption.
      - now apply negb_false_iff in Hpath.
      - now exists key. }
    destruct (seen_get key seen) as [existing |] eqn:Hget.
    + destruct (isBetterSegment (snd o) (snd existing)).
      * destruct (replace_object existing o unique) as [replaced |] eqn:Hrep;
          intro H; injection H as <- <-.
        -- eapply replaced_content; eassumption.
        -- now apply skipped_invariant.
      * intro H. injection H as <- <-. now apply skipped_invariant.
    + intro H. injection H as <- <-. now apply appended_content.
  - destruct (is_special (snd o)) eqn:Hsp; intro H; injection H as <- <-.
    + now apply appended_special.
    + now apply skipped_invariant.
Qed.

Lemma dedup_fold_None (l : list Obj) : fold_left dedup_step l None = None.
Proof. induction l as [| o rest IH]; [reflexivity | exact IH]. Qed.

Lemma dedup_fold_invariant (todo : list Obj) :
  forall done seen unique seen' unique',
    NoDup (map fst (done ++ todo)) ->
    dedup_invariant done seen unique ->
    fold_left dedup_step todo (Some (seen, unique)) = Some (seen', unique') ->
    dedup_invariant (done ++ todo) seen' unique'.
Proof.
  induction todo as [| o rest IH]; intros done seen unique seen' unique' Hnd Hinv Hfold.
  - cbn [fold_left] in Hfold. injection Hfold as <- <-. now rewrite app_nil_r.
  - cbn [fold_left] in Hfold.
    destruct (dedup_step (Some (seen, unique)) o) as [[seen1 unique1] |] eqn:Hstep;
      [| rewrite dedup_fold_None in Hfold; discriminate].
    replace (done ++ o :: rest)%list with ((done ++ [o]) ++ rest)%list in *
      by (now rewrite <- app_assoc).
    eapply IH; [exact Hnd | | exact Hfold].
    eapply dedup_step_invariant; [| exact Hinv | exact Hstep].
    rewrite !map_app in Hnd. cbn [map] in Hnd. rewrite <- app_assoc in Hnd.
    cbn [app] in Hnd. apply NoDup_remove_2 in Hnd.
    intro Hin. apply Hnd. apply in_or_app. now left.
Qed.

Lemma number_from_fst (l : list Segment) :
  forall i, map fst (number_from i l) = seq i (List.length l).
Proof.
  induction l as [| s rest IH]; intro i; cbn [number_from map List.length seq];
    [reflexivity | now rewrite IH].
Qed.

Lemma number_from_snd (l : list Segment) :
  forall i, map snd (number_from i l) = l.
Proof.
  induction l as [| s rest IH]; intro i; cbn [number_from map];
    [reflexivity | now rewrite IH].
Qed.

Lemma empty_invariant : dedup_invariant [] [] [].
Proof.
  refine (conj _ (conj _ (conj _ (conj _ (conj _ _))))).
  - apply incl_refl.
  - constructor.
  - constructor.
  - intros o k [].
  - intros k o H. discriminate H.
  - reflexivity.
Qed.

(** The invariant at the end of the loop. *)
Lemma deduplicateSegments_invariant (segments unique : list Segment) :
  deduplicateSegments segments = Some unique ->
  exists seen objects,
    unique = map snd objects /\
    dedup_invariant (number_from 0 segments) seen objects.
Proof.
  unfold deduplicateSegments.
  destruct (fold_left dedup_step (number_from 0 segments) (Some ([], [])))
    as [[seen objects] |] eqn:Hfold; [| discriminate].
  intro H. injection H as <-. exists seen, objects. split; [reflexivity |].
  apply (@dedup_fold_invariant (number_from 0 segments) [] [] [] seen objects);
    [| exact empty_invariant | exact Hfold].
  cbn [app]. rewrite number_from_fst. apply seq_NoDup.
Qed.

Lemma filter_map_snd (p : Segment -> bool) (l : list Obj) :
  filter p (map snd l) = map snd (filter (fun o => p (snd o)) l).
Proof.
  induction l as [| o rest IH]; cbn [map filter]; [reflexivity |].
  destruct (p (snd o)); cbn [map]; now rewrite IH.
Qed.

Lemma NoDup_map_on (A B : Type) (f : A -> B) (l : list A) :
  NoDup l ->
  (forall x y, In x l -> In y l -> f x = f y -> x = y) ->
  NoDup (map f l).
Proof.
  induction 1 as [| a rest Ha Hrest IH]; intro Hinj; cbn [map]; constructor.
  - intro Hin. apply in_map_iff in Hin. destruct Hin as (y & Hy & Hin).
    apply Ha. rewrite <- (Hinj y a); [assumption | now right | now left | assumption].
  - apply IH. intros x y Hx Hy. apply Hinj; now right.
Qed.

(** X14.  What [deduplicateSegments] returns is taken from the segments
    it was given, and is no longer than they are; the special segments
    (titles, section titles, transitions, conclusions) are all kept,
    in their order. *)
Theorem deduplicateSegments_selects (segments unique : list Segment)
    (Hdedup : deduplicateSegments segments = Some unique) :
  incl unique segments /\
  (List.length unique <= List.length segments)%nat /\
  filter is_special unique = filter is_special segments.
Proof.
  destruct (deduplicateSegments_invariant _ Hdedup)
    as (seen & objects & -> & Hincl & Hnd & _ & _ & _ & Hfilter).
  repeat split.
  - intros s Hs. apply in_map_iff in Hs. destruct Hs as (o & <- & Ho).
    rewrite <- (number_from_snd segments 0). apply in_map. now apply Hincl.
  - rewrite length_map, <- (length_map fst objects).
    rewrite <- (length_seq (List.length segments) 0), <- number_from_fst.
    apply NoDup_incl_length; [assumption |].
    intros i Hi. apply in_map_iff in Hi. destruct Hi as (o & <- & Ho).
    apply in_map. now apply Hincl.
  - rewrite filter_map_snd.
    transitivity (map snd (filter special_object objects)); [reflexivity |].
    rewrite Hfilter.
    transitivity (filter is_special (map snd (number_from 0 segments)));
      [symmetry; apply filter_map_snd | now rewrite number_from_snd].
Qed.

Lemma deduplicateSegments_selects_witness :
  incl [second_cut] [first_cut; second_cut] /\
  (List.length [second_cut] <= List.length [first_cut; second_cut])%nat /\
  filter is_special [second_cut] = filter is_special [first_cut; second_cut].
Proof.
  apply (@deduplicateSegments_selects [first_cut; second_cut] [second_cut]).
  vm_compute. reflexivity.
Defined.

Lemma kept_content_key (objects : list Obj) (o : Obj) :
  Forall (fun o => keepable (snd o)) objects ->
  In o objects -> has_type (snd o) "content" = true ->
  special_object o = false /\ exists k, getSegmentKey (snd o) = Some k.
Proof.
  intros Hkeep Ho Hc. rewrite Forall_forall in Hkeep.
  pose proof (AssemblyFacts.content_not_special _ Hc) as Hns.
  split; [exact Hns |].
  destruct (Hkeep o Ho) as [Hsp | (_ & _ & _ & Hk)]; [congruence | exact Hk].
Qed.

Lemma invariant_unique_keys (done : list Obj) (seen : list (string * Obj))
    (objects : list Obj) :
  dedup_invariant done seen objects -> NoDup (content_keys (map snd objects)).
Proof.
  intros (_ & Hnd & Hkeep & Hseen & _ & _).
  unfold content_keys. rewrite filter_map_snd, map_map.
  apply NoDup_map_on.
  - apply NoDup_filter. now apply NoDup_map_inv in Hnd.
  - intros x y Hx Hy Hxy.
    apply filter_In in Hx. destruct Hx as [Hx Hcx].
    apply filter_In in Hy. destruct Hy as [Hy Hcy].
    destruct (@kept_content_key objects x Hkeep Hx Hcx) as [Hnx [k Hkx]].
    destruct (@kept_content_key objects y Hkeep Hy Hcy) as [Hny _].
    assert (Hky : getSegmentKey (snd y) = Some k) by congruence.
    pose proof (Hseen x k Hx Hnx Hkx) as H1.
    pose proof (Hseen y k Hy Hny Hky) as H2. congruence.
Qed.

(** X15.  No two content segments [deduplicateSegments] returns have the
    same key: of the content segments whose keys collide one is left. *)
Theorem deduplicateSegments_unique_keys (segments unique : list Segment)
    (Hdedup : deduplicateSegments segments = Some unique) :
  NoDup (content_keys unique).
Proof.
  destruct (deduplicateSegments_invariant _ Hdedup) as (seen & objects & -> & Hinv).
  exact (invariant_unique_keys Hinv).
Qed.

Lemma deduplicateSegments_unique_keys_witness :
  NoDup (content_keys [second_cut]).
Proof.
  apply (@deduplicateSegments_unique_keys [first_cut; second_cut] [second_cut]).
  vm_compute. reflexivity.
Defined.

Lemma keys_of_special (s : Segment) (rest : list Segment) :
  is_special s = true -> content_keys (s :: rest) = content_keys rest.
Proof.
  intro H. unfold content_keys. cbn [filter]. now rewrite (special_not_content _ H).
Qed.

Lemma keys_of_content (s : Segment) (rest : list Segment) :
  has_type s "content" = true ->
  content_keys (s :: rest) = getSegmentKey s :: content_keys rest.
Proof. intro H. unfold content_keys. cbn [filter]. now rewrite H. Qed.

Lemma dedup_fold_keeps (rest : list Segment) :
  forall i seen acc,
    Forall keepable rest -> NoDup (content_keys rest) ->
    (forall k, In (Some k) (content_keys rest) -> seen_get k seen = None) ->
    exists seen',
      fold_left dedup_step (number_from i rest) (Some (seen, acc)) =
      Some (seen', (acc ++ number_from i rest)%list).
Proof.
  induction rest as [| s rest IH]; intros i seen acc Hkeep Hnd Hnew;
    cbn [number_from fold_left].
  - exists seen. now rewrite app_nil_r.
  - inversion Hkeep as [| ? ? Hs Hrest]; subst.
    replace (acc ++ (i, s) :: number_from (S i) rest)%list
      with ((acc ++ [(i, s)]) ++ number_from (S i) rest)%list
      by (now rewrite <- app_assoc).
    destruct Hs as [Hsp | (Hns & Hc & Hpath & k & Hk)].
    + assert (Hstep : dedup_step (Some (seen, acc)) (i, s) = Some (seen, (acc ++ [(i, s)])%list)).
      { unfold dedup_step. cbn [snd].
        now rewrite (special_truthy _ Hsp), (special_not_content _ Hsp), Hsp. }
      rewrite Hstep. rewrite (@keys_of_special s rest Hsp) in Hnd, Hnew. now apply IH.
    + assert (Hstep : dedup_step (Some (seen, acc)) (i, s) =
                      Some (seen_set k (i, s) seen, (acc ++ [(i, s)])%list)).
      { unfold dedup_step. cbn [snd].
        rewrite (AssemblyFacts.prop_truthy_segment _ _ Hpath), Hc, Hpath, Hns, Hk.
        cbn [negb andb orb]. rewrite Hnew; [reflexivity |].
        rewrite (@keys_of_content s rest Hc), Hk. now left. }
      rewrite Hstep. rewrite (@keys_of_content s rest Hc), Hk in Hnd, Hnew.
      inversion Hnd as [| ? ? Hfresh Hnd']; subst.
      apply IH; [assumption | assumption |].
      intros k' Hk'. rewrite seen_get_set_other.
      * apply Hnew. now right.
      * intros ->. contradiction.
Qed.

(** X16.  [deduplicateSegments] is idempotent: applied to what it
    returned, it returns the same segments. *)
Theorem deduplicateSegments_idempotent (segments unique : list Segment)
    (Hdedup : deduplicateSegments segments = Some unique) :
  deduplicateSegments unique = Some unique.
Proof.
  destruct (deduplicateSegments_invariant _ Hdedup) as (seen & objects & -> & Hinv).
  pose proof (invariant_unique_keys Hinv) as Hkeys.
  destruct Hinv as (_ & _ & Hkeep & _ & _ & _).
  assert (Hkeep' : Forall keepable (map snd objects)) by now apply Forall_map.
  destruct (@dedup_fold_keeps (map snd objects) 0 [] [] Hkeep' Hkeys) as [seen' Hfold].
  { intros k _. reflexivity. }
  unfold deduplicateSegments. rewrite Hfold. cbn [app].
  now rewrite number_from_snd.
Qed.

Lemma deduplicateSegments_idempotent_witness :
  deduplicateSegments [second_cut] = Some [second_cut].
Proof.
  apply (@deduplicateSegments_idempotent [first_cut; second_cut] [second_cut]).
  vm_compute. reflexivity.
Defined.

Lemma gtb_irreflexive (a : num) : (a >? a)%num = false.
Proof.
  destruct a as [| | | x]; try reflexivity. num_cases; [exfalso; lra | reflexivity].
Qed.

Lemma gtb_beaten (a b c : num) :
  (b >? c)%num = true -> (a >? c)%num = false -> (a >? b)%num = false.
Proof.
  destruct a as [| | | x], b as [| | | y], c as [| | | z];
    try discriminate; try reflexivity;
    num_cases; intros; try reflexivity; try discriminate; exfalso; lra.
Qed.

Lemma replace_object_found (existing o : Obj) (u : list Obj) :
  In existing u -> exists u', replace_object existing o u = Some u'.
Proof.
  induction u as [| x rest IH]; intro Hin; [contradiction |].
  cbn [replace_object]. destruct (fst x =? fst existing)%nat eqn:E; [eauto |].
  destruct Hin as [-> | Hin]; [rewrite Nat.eqb_refl in E; discriminate |].
  destruct (IH Hin) as [u' ->]. eauto.
Qed.

Lemma dedup_step_best (done : list Obj) (seen seen' : list (string * Obj))
    (unique unique' : list Obj) (o : Obj) :
  dedup_invariant done seen unique -> best_so_far done seen ->
  dedup_step (Some (seen, unique)) o = Some (seen', unique') ->
  best_so_far (done ++ [o]) seen'.
Proof.
  intros Hinv Hbest Hstep x k Hx Hc Hpath Hk.
  apply in_app_or in Hx.
  revert Hstep. unfold dedup_step.
  destruct Hx as [Hx | [<- | []]].
  - destruct (Hbest x k Hx Hc Hpath Hk) as (kept & Hget & Hnot).
    destruct (negb (truthy_value (snd o)) || _); [intro H; injection H as <- <-; eauto |].
    destruct (is_special (snd o)); [intro H; injection H as <- <-; eauto |].
    destruct (has_type (snd o) "content"); [| intro H; injection H as <- <-; eauto].
    destruct (getSegmentKey (snd o)) as [key |] eqn:Hkey; [| discriminate].
    destruct (String.eqb key k) eqn:E.
    + apply String.eqb_eq in E. subst key. rewrite Hget.
      destruct (isBetterSegment (snd o) (snd kept)) eqn:Hbetter;
        [| intro H; injection H as <- <-; eauto].
      destruct (replace_object kept o unique); intro H; injection H as <- <-; [| eauto].
      exists o. split; [apply seen_get_set_same |].
      unfold isBetterSegment in *. eapply gtb_beaten; eassumption.
    + assert (Hne : k <> key) by (intros ->; rewrite String.eqb_refl in E; discriminate).
      destruct (seen_get key seen) as [existing |].
      * destruct (isBetterSegment (snd o) (snd existing));
          [| intro H; injection H as <- <-; eauto].
        destruct (replace_object existing o unique); intro H; injection H as <- <-; [| eauto].
        exists kept. now rewrite seen_get_set_other.
      * intro H. injection H as <- <-. exists kept. now rewrite seen_get_set_other.
  - rewrite (AssemblyFacts.prop_truthy_segment _ _ Hpath), Hc, Hpath,
      (AssemblyFacts.content_not_special _ Hc), Hk.
    cbn [negb andb orb].
    destruct (seen_get k seen) as [existing |] eqn:Hget.
    + destruct (isBetterSegment (snd o) (snd existing)) eqn:Hbetter.
      * destruct Hinv as (_ & _ & _ & _ & Hback & _).
        destruct (Hback k existing Hget) as (Hin & _ & _).
        destruct (@replace_object_found existing o unique Hin) as [u' ->].
        intro H. injection H as <- <-. exists o. split; [apply seen_get_set_same |].
        apply gtb_irreflexive.
      * intro H. injection H as <- <-. eauto.
    + intro H. injection H as <- <-. exists o. split; [apply seen_get_set_same |].
      apply gtb_irreflexive.
Qed.

Lemma dedup_fold_best (todo : list Obj) :
  forall done seen unique seen' unique',
    NoDup (map fst (done ++ todo)) ->
    dedup_invariant done seen unique -> best_so_far done seen ->
    fold_left dedup_step todo (Some (seen, unique)) = Some (seen', unique') ->
    dedup_invariant (done ++ todo) seen' unique' /\ best_so_far (done ++ todo) seen'.
Proof.
  induction todo as [| o rest IH];
    intros done seen unique seen' unique' Hnd Hinv Hbest Hfold.
  - cbn [fold_left] in Hfold. injection Hfold as <- <-. now rewrite app_nil_r.
  - cbn [fold_left] in Hfold.
    destruct (dedup_step (Some (seen, unique)) o) as [[seen1 unique1] |] eqn:Hstep;
      [| rewrite dedup_fold_None in Hfold; discriminate].
    replace (done ++ o :: rest)%list with ((done ++ [o]) ++ rest)%list in *
      by (now rewrite <- app_assoc).
    eapply IH; [exact Hnd | | | exact Hfold].
    + eapply dedup_step_invariant; [| exact Hinv | exact Hstep].
      rewrite !map_app in Hnd. cbn [map] in Hnd. rewrite <- app_assoc in Hnd.
      cbn [app] in Hnd. apply NoDup_remove_2 in Hnd.
      intro Hin. apply Hnd. apply in_or_app. now left.
    + eapply dedup_step_best; eassumption.
Qed.

(** X17.  Of the content segments whose keys collide,
    [deduplicateSegments] leaves one that none of them is better than:
    every content segment given, with a video path and a key, finds a
    content segment of its key in the result, and [isBetterSegment]
    does not prefer it to that one. *)
Theorem deduplicateSegments_keeps_best (segments unique : list Segment)
    (s : Segment) (k : string)
    (Hdedup : deduplicateSegments segments = Some unique)
    (Hin : In s segments)
    (Hcontent : has_type s "content" = true)
    (Hpath : truthy_value (prop s "videoPath") = true)
    (Hkey : getSegmentKey s = Some k) :
  exists kept,
    In kept unique /\ has_type kept "content" = true /\
    getSegmentKey kept = Some k /\ isBetterSegment s kept = false.
Proof.
  revert Hdedup. unfold deduplicateSegments.
  destruct (fold_left dedup_step (number_from 0 segments) (Some ([], [])))
    as [[seen objects] |] eqn:Hfold; [| discriminate].
  intro H. injection H as <-.
  destruct (@dedup_fold_best (number_from 0 segments) [] [] [] seen objects)
    as [Hinv Hbest]; try assumption.
  - cbn [app]. rewrite number_from_fst. apply seq_NoDup.
  - exact empty_invariant.
  - intros o k' [].
  - cbn [app] in *.
    rewrite <- (number_from_snd segments 0) in Hin.
    apply in_map_iff in Hin. destruct Hin as (o & <- & Ho).
    destruct (Hbest o k Ho Hcontent Hpath Hkey) as (kept & Hget & Hnot).
    destruct Hinv as (_ & _ & Hkeep & _ & Hback & _).
    destruct (Hback k kept Hget) as (Hkin & Hns & Hkk).
    exists (snd kept). repeat split; try assumption.
    + now apply in_map.
    + rewrite Forall_forall in Hkeep.
      destruct (Hkeep kept Hkin) as [Hsp | (_ & Hc & _)]; [| exact Hc].
      unfold special_object in Hns. congruence.
Qed.

Lemma deduplicateSegments_keeps_best_witness :
  exists kept,
    In kept [second_cut] /\ has_type kept "content" = true /\
    getSegmentKey kept = Some "onboarding.mp4:100-130:Open the settings page and choose a profile."%string /\
    isBetterSegment first_cut kept = false.
Proof.
  apply (@deduplicateSegments_keeps_best [first_cut; second_cut] [second_cut] first_cut).
  - vm_compute. reflexivity.
  - now left.
  - reflexivity.
  - reflexivity.
  - vm_compute. reflexivity.
Defined.

End DedupFacts.

(** ** What is cut out and put together *)

Module SpanFacts.
Import VideoGenerator.
Import Statements Notions.

Lemma clamp_15_45 (x : num) :
  isNaN x = false ->
  exists o, min (Fin 45) (max (Fin 15) x) = Fin o /\ 15 <= o /\ o <= 45.
Proof.
  destruct x as [| | | q]; intro H; try discriminate;
    num_cases; try (exfalso; lra); eexists; (split; [reflexivity | lra]).
Qed.

(** X18.  The span [generateVideo] cuts out of the source for a content
    segment, given a text length, a numeric [startTime] and a probed
    duration, starts at or after [0], ends at or before the probed
    duration and is at most 61 seconds long. *)
Theorem content_span_bounds (segment : Segment) (textLength c d : Q)
    (Hlength : 0 <= textLength)
    (Hstart : toNumber_value (prop segment "startTime") = Fin c) :
  exists a b,
    content_span segment (Fin textLength) (Fin d) = (Fin a, Fin b) /\
    0 <= a /\ b <= d /\ b - a <= 61.
Proof.
  unfold content_span. cbv zeta. rewrite Hstart.
  set (estimated := (ceil _ + _)%num).
  destruct (@clamp_15_45 estimated) as (o & -> & Hlow & Hhigh).
  { subst estimated. destruct (has_type segment "content");
      destruct (Fin textLength >? Fin 200)%num; reflexivity. }
  cbn [JSNum.add].
  change (Fin (o + 3 + 3) / Fin 2)%num with (Fin ((o + 3 + 3) / 2)).
  change (Fin 5 * Fin 2)%num with (Fin (5 * 2)).
  num_cases; try (exfalso; lra);
    (eexists; eexists; split; [reflexivity |]; repeat split; lra).
Qed.

Lemma content_span_bounds_witness :
  exists a b,
    content_span first_cut (Fin 44) (Fin 600) = (Fin a, Fin b) /\
    0 <= a /\ b <= 600 /\ b - a <= 61.
Proof.
  apply (@content_span_bounds first_cut 44 100 600).
  - lra.
  - reflexivity.
Defined.

Lemma all_parts_plain (processed : list Processed) :
  forall prev, all_parts None prev processed = map path processed.
Proof.
  induction processed as [| current rest IH]; intro prev; cbn [all_parts map];
    [reflexivity |].
  rewrite IH. now destruct prev.
Qed.

Lemma process_segment_plain (tc : Transcoder) (i : nat) (segment : Segment)
    (here : list Processed) :
  lavfiSupported tc = false ->
  process_segment tc None i segment = Ok here ->
  Forall (fun p => path p = CaptionedPath i /\ is_special segment = false /\
                   truthy_value (prop segment "videoPath") = true) here.
Proof.
  intros Hlavfi. unfold process_segment, createTitleCard, createTransition.
  rewrite Hlavfi. cbn [negb].
  destruct (is_nullish segment); [discriminate |].
  destruct (has_type segment "title" || has_type segment "section_title" ||
            has_type segment "conclusion") eqn:Htitle.
  { intro H. injection H as <-. constructor. }
  destruct (has_type segment "transition") eqn:Htransition.
  { intro H. injection H as <-. constructor. }
  destruct (negb (truthy_value (prop segment "videoPath"))) eqn:Hpath.
  { intro H. injection H as <-. constructor. }
  apply negb_false_iff in Hpath.
  destruct (prop segment "videoPath"); try discriminate.
  destruct (text_length (prop segment "text")); [| discriminate].
  destruct (content_span segment a _) as [start end_].
  destruct (extractVideoSegment tc _ start end_); [| discriminate].
  intro H. injection H as <-. constructor; [| constructor]. cbn [path].
  split; [reflexivity |]. split; [| exact Hpath].
  apply orb_false_iff in Htitle. destruct Htitle as [Htitle Hconclusion].
  apply orb_false_iff in Htitle. destruct Htitle as [Htitle Hsection].
  unfold is_special. now rewrite Htitle, Hsection, Htransition, Hconclusion.
Qed.

Lemma process_segments_plain (tc : Transcoder) (all : list Segment)
    (segments : list Segment) :
  lavfiSupported tc = false ->
  forall i processed,
    (forall j segment, nth_error segments j = Some segment ->
                       nth_error all (i + j) = Some segment) ->
    process_segments tc None i segments = Ok processed ->
    Forall (fun p => captioned_cut all (path p)) processed.
Proof.
  intro Hlavfi. induction segments as [| segment rest IH]; intros i processed Hnth;
    cbn [process_segments].
  - intro H. injection H as <-. constructor.
  - destruct (process_segment tc None i segment) as [here |] eqn:Hhere; [| discriminate].
    destruct (process_segments tc None (S i) rest) as [later |] eqn:Hlater; [| discriminate].
    intro H. injection H as <-. apply Forall_app. split.
    + eapply Forall_impl; [| exact (process_segment_plain _ _ _ Hlavfi Hhere)].
      intros p (Hp & Hns & Hpath). exists i, segment. repeat split; try assumption.
      specialize (Hnth 0%nat segment eq_refl). now rewrite Nat.add_0_r in Hnth.
    + apply (IH (S i)); [| exact Hlater].
      intros j s Hj. specialize (Hnth (S j) s Hj).
      now rewrite Nat.add_succ_r in Hnth.
Qed.

(** X19.  Without [lavfi] support [generateVideo] makes no title card
    and no transition: every part of the output is the captioned cut of
    a content segment of the input, one that is not special and has a
    video path. *)
Theorem generateVideo_without_lavfi (tc : Transcoder) (segments : list Segment)
    (parts : list PartPath) (output : string)
    (Hlavfi : lavfiSupported tc = false)
    (Hvideo : generateVideo tc segments = Ok (parts, output)) :
  Forall (captioned_cut segments) parts.
Proof.
  revert Hvideo. unfold generateVideo.
  destruct segments as [| s0 rest0] eqn:Hsegments; [discriminate |].
  rewrite <- Hsegments.
  destruct (deduplicateSegments segments); [| discriminate].
  rewrite Hlavfi.
  destruct (process_segments tc None 0 segments) as [processed |] eqn:Hprocessed;
    [| discriminate].
  rewrite all_parts_plain.
  destruct (concat tc (map path processed)); [| discriminate].
  intro H. injection H as <- <-.
  apply Forall_map.
  now apply (@process_segments_plain tc segments segments Hlavfi 0 processed).
Qed.

Lemma generateVideo_without_lavfi_witness :
  Forall (captioned_cut storyboard) [CaptionedPath 2].
Proof.
  apply (@generateVideo_without_lavfi plain_transcoder storyboard
           [CaptionedPath 2] "final.mp4").
  - reflexivity.
  - vm_compute. reflexivity.
Defined.

End SpanFacts.

(** ** Escaping *)

Module EscapeFacts.
Import Escaping.
Import Statements Notions.

Lemma replaceAll_fuel_single (c : ascii) (r : list ascii) (fuel : nat) :
  forall s, (List.length s <= fuel)%nat ->
    replaceAll_fuel fuel [c] r s =
    flat_map (fun x => if Ascii.eqb x c then r else [x]) s.
Proof.
  induction fuel as [| fuel IH]; intros s Hs.
  - destruct s; [reflexivity | cbn in Hs; lia].
  - destruct s as [| x rest]; [reflexivity |].
    cbn [replaceAll_fuel stripPrefix flat_map]. rewrite (Ascii.eqb_sym x c).
    cbn [List.length] in Hs.
    destruct (Ascii.eqb c x); cbn [stripPrefix]; rewrite IH by lia; reflexivity.
Qed.

Lemma replaceAll_single (c : ascii) (r s : list ascii) :
  replaceAll [c] r s = flat_map (fun x => if Ascii.eqb x c then r else [x]) s.
Proof. unfold replaceAll. now apply replaceAll_fuel_single. Qed.

Lemma flat_map_compose (A B C : Type) (f : A -> list B) (g : B -> list C) (l : list A) :
  flat_map g (flat_map f l) = flat_map (fun x => flat_map g (f x)) l.
Proof.
  induction l as [| x rest IH]; cbn [flat_map]; [reflexivity |].
  now rewrite flat_map_app, IH.
Qed.

Lemma flat_map_pointwise (A B : Type) (f g : A -> list B) (l : list A) :
  (forall x, f x = g x) -> flat_map f l = flat_map g l.
Proof. intro H. induction l as [| x rest IH]; cbn [flat_map]; congruence. Qed.

(** X20.  The seven replacements of [escapeDrawtext] act as one pass
    over [String(s)]: a backslash, a colon, a quote, a bracket, a comma
    and a line feed are each written with their escape, every other
    character as it is, and no backslash an escape introduced is
    escaped again. *)
Theorem escapeDrawtext_one_pass (s : value) :
  escapeDrawtext s =
  flat_map drawtext_char (match s with VUndefined => [] | _ => toString s end).
Proof.
  unfold escapeDrawtext. cbv zeta.
  rewrite !replaceAll_single, !flat_map_compose.
  apply flat_map_pointwise.
  intros [[] [] [] [] [] [] [] []]; reflexivity.
Qed.

(** X21.  On a string, the five replacements of [sanitizeText] act as
    one pass, each character of markup written as its character
    reference and the ampersands of the references left alone, and the
    result holds no [<], [>] or quote. *)
Theorem sanitizeText_one_pass (s : string) :
  exists safe,
    sanitizeText (VStr s) = Some safe /\
    safe = flat_map html_char (chars s) /\
    forallb (fun c => negb (markup c)) safe = true.
Proof.
  exists (flat_map html_char (chars s)). split; [| split; [reflexivity |]].
  - unfold sanitizeText. cbn [truthy_value].
    destruct s as [| c rest]; [reflexivity |]. cbn [String.eqb negb].
    cbv zeta. rewrite !replaceAll_single, !flat_map_compose. f_equal.
    apply flat_map_pointwise.
    intros [[] [] [] [] [] [] [] []]; reflexivity.
  - induction (chars s) as [| c rest IH]; [reflexivity |].
    cbn [flat_map]. rewrite forallb_app, IH, andb_true_r.
    destruct c as [[] [] [] [] [] [] [] []]; reflexivity.
Qed.

End EscapeFacts.

(** ** Document structures and the frames of their visual steps *)

Module DocumentFacts.
Import Documents.
Import Statements Notions.

Lemma check_step_valid (step : value) (count count' : nat) :
  check_step step count = Some count' <->
  valid_step step /\ count' = (count + if needs_visual step then 1 else 0)%nat.
Proof.
  unfold check_step, valid_step, needs_visual.
  destruct (truthy_value step); cbn [negb orb]; [| split; [discriminate | intros [[? _] _]; discriminate]].
  destruct (typeof_object step); cbn [negb orb]; [| split; [discriminate | intros [(_ & ? & _) _]; discriminate]].
  destruct (typeof_number (prop step "number")); cbn [negb];
    [| split; [discriminate | intros [(_ & _ & ? & _) _]; discriminate]].
  destruct (prop step "needsVisual") as [| | [|] | | | |] eqn:Hv;
    cbn [is_undefined is_true is_false andb].
  - split; [discriminate | intros [(_ & _ & _ & ? & _) _]; congruence].
  - split.
    + intro H. injection H as <-. repeat split; try discriminate. lia.
    + intros [_ ->]. f_equal. lia.
  - destruct (truthy_value (prop step "visualDescription")); cbn [negb].
    + split.
      * intro H. injection H as <-. repeat split; try discriminate. lia.
      * intros [_ ->]. f_equal. lia.
    + split; [discriminate |]. intros [(_ & _ & _ & _ & H & _) _].
      specialize (H eq_refl). discriminate.
  - destruct (prop step "visualDescription") eqn:Hd; cbn [is_null negb];
      try (split; [discriminate | intros [(_ & _ & _ & _ & _ & H) _];
                                  specialize (H eq_refl); discriminate]).
    split.
    + intro H. injection H as <-. repeat split; try discriminate. lia.
    + intros [_ ->]. f_equal. lia.
  - split.
    + intro H. injection H as <-. repeat split; try discriminate. lia.
    + intros [_ ->]. f_equal. lia.
  - split.
    + intro H. injection H as <-. repeat split; try discriminate. lia.
    + intros [_ ->]. f_equal. lia.
  - split.
    + intro H. injection H as <-. repeat split; try discriminate. lia.
    + intros [_ ->]. f_equal. lia.
  - split.
    + intro H. injection H as <-. repeat split; try discriminate. lia.
    + intros [_ ->]. f_equal. lia.
Qed.

Lemma check_steps_valid (steps : list value) :
  forall count count',
    check_steps steps count = Some count' <->
    Forall valid_step steps /\
    count' = (count + List.length (filter needs_visual steps))%nat.
Proof.
  induction steps as [| step rest IH]; intros count count'; cbn [check_steps filter].
  - split.
    + intro H. injection H as <-. split; [constructor | cbn; lia].
    + intros [_ ->]. f_equal. cbn. lia.
  - destruct (check_step step count) as [c |] eqn:Hstep.
    + apply check_step_valid in Hstep. destruct Hstep as [Hvalid ->].
      rewrite IH. split.
      * intros [Hrest ->]. split; [now constructor |].
        destruct (needs_visual step); cbn [List.length]; lia.
      * intros [Hall ->]. inversion Hall; subst. split; [assumption |].
        destruct (needs_visual step); cbn [List.length]; lia.
    + split; [discriminate |]. intros [Hall _]. inversion Hall as [| ? ? Hvalid Hrest]; subst.
      assert (H : check_step step count =
                  Some (count + if needs_visual step then 1 else 0)%nat)
        by (apply check_step_valid; now split).
      congruence.
Qed.

Lemma check_sections_valid (sections : list value) :
  forall count count',
    check_sections sections count = Some count' <->
    Forall valid_section sections /\
    count' = (count + List.length (filter needs_visual (flat_map steps_of sections)))%nat.
Proof.
  induction sections as [| section rest IH]; intros count count';
    cbn [check_sections flat_map].
  - split.
    + intro H. injection H as <-. split; [constructor | cbn; lia].
    + intros [_ ->]. f_equal. cbn. lia.
  - unfold steps_of at 1.
    destruct (truthy_value section) eqn:Htruthy; cbn [negb];
      [| split; [discriminate |];
         intros [Hall _]; inversion Hall as [| ? ? [Ht _] _]; congruence].
    destruct (prop section "steps") as [| | | | | steps |] eqn:Hsteps;
      try (split; [discriminate |];
           intros [Hall _]; inversion Hall as [| ? ? (_ & st & Hst & _) _];
           rewrite Hsteps in Hst; discriminate).
    destruct (check_steps steps count) as [c |] eqn:Hcheck.
    + apply check_steps_valid in Hcheck. destruct Hcheck as [Hvalid ->].
      rewrite IH, filter_app, length_app. split.
      * intros [Hrest ->]. split; [| lia].
        constructor; [| assumption]. split; [assumption |].
        now exists steps.
      * intros [Hall ->]. inversion Hall; subst. split; [assumption | lia].
    + split; [discriminate |]. intros [Hall _].
      inversion Hall as [| ? ? (_ & st & Hst & Hvalid) _]; subst.
      rewrite Hsteps in Hst. injection Hst as <-.
      assert (H : check_steps steps count =
                  Some (count + List.length (filter needs_visual steps))%nat)
        by (apply check_steps_valid; now split).
      congruence.
Qed.

(** X22.  [validateDocumentStructure] accepts exactly the structures
    that are objects with an array of sections, each an object-like
    value with an array of valid steps, and with exactly four visual
    steps ([needsVisual === true]) over all sections. *)
Theorem validateDocumentStructure_characterised (structure : value) :
  validateDocumentStructure structure = true <-> valid_structure structure.
Proof.
  unfold validateDocumentStructure, valid_structure, all_steps.
  destruct (truthy_value structure); cbn [negb orb]; [| split; [discriminate | intros [? _]; discriminate]].
  destruct (typeof_object structure); cbn [negb];
    [| split; [discriminate | intros (_ & ? & _); discriminate]].
  destruct (prop structure "sections") as [| | | | | sections |] eqn:Hsections;
    try (split; [discriminate | intros (_ & _ & (? & ? & _) & _); discriminate]).
  destruct (check_sections sections 0) as [count |] eqn:Hcheck.
  - apply check_sections_valid in Hcheck. destruct Hcheck as [Hvalid ->].
    cbn [Nat.add]. rewrite Nat.eqb_eq. split.
    + intro H. repeat split; try assumption. now exists sections.
    + now intros (_ & _ & _ & H).
  - split; [discriminate |]. intros (_ & _ & (l & Hl & Hvalid) & Hcount).
    injection Hl as <-.
    assert (H : check_sections sections 0 =
                Some (0 + List.length (filter needs_visual (flat_map steps_of sections)))%nat)
      by (apply check_sections_valid; now split).
    congruence.
Qed.

(** The structure [generateDocumentStructure] falls back on when
    the LLM fails is one [validateDocumentStructure] rejects, whatever
    the response: its one step has [needsVisual] set to [false] and no
    [visualDescription], where [null] is required (and it has no visual
    step, where four are). *)
Theorem fallbackStructure_rejected (response : string) :
  validateDocumentStructure (fallbackStructure response) = false.
Proof. reflexivity. Qed.




End DocumentFacts.

(** ** Keywords and groups of the first extractor *)

Module LegacyFacts.
Import LegacyClips.
Import Statements Notions.

Lemma set_of_fresh (words : list string) :
  forall seen,
    NoDup (set_of words seen) /\
    (forall w, In w (set_of words seen) -> In w words /\ ~ In w seen).
Proof.
  induction words as [| word rest IH]; intro seen; cbn [set_of].
  - split; [constructor | intros w []].
  - destruct (existsb (String.eqb word) seen) eqn:E.
    + destruct (IH seen) as [Hnd Hin]. split; [exact Hnd |].
      intros w Hw. destruct (Hin w Hw). split; [now right | assumption].
    + destruct (IH (word :: seen)) as [Hnd Hin]. split.
      * constructor; [| exact Hnd]. intro Hw. destruct (Hin word Hw) as [_ Hn].
        apply Hn. now left.
      * intros w [<- | Hw].
        -- split; [now left |]. intro Hs.
           assert (existsb (String.eqb word) seen = true).
           { apply existsb_exists. exists word. split; [assumption | apply String.eqb_refl]. }
           congruence.
        -- destruct (Hin w Hw) as [Hr Hn]. split; [now right |].
           intro Hs. apply Hn. now right.
Qed.

Lemma dropWhile_Forall (P : ascii -> Prop) (p : ascii -> bool) (l : list ascii) :
  Forall P l -> Forall P (dropWhile p l).
Proof.
  induction 1 as [| x rest Hx Hrest IH]; cbn [dropWhile]; [constructor |].
  destruct (p x); [exact IH | now constructor].
Qed.

Lemma split_spaces_pieces (P : ascii -> Prop) (fuel : nat) :
  forall s cur,
    Forall P s -> Forall (fun c => P c /\ isSpace c = false) cur ->
    Forall (fun piece => Forall (fun c => P c /\ isSpace c = false) piece)
      (split_spaces fuel s cur).
Proof.
  induction fuel as [| fuel IH]; intros s cur Hs Hcur; cbn [split_spaces].
  - constructor; [now apply Forall_rev | constructor].
  - destruct s as [| c r]; [constructor; [now apply Forall_rev | constructor] |].
    inversion Hs as [| ? ? Hc Hr]; subst.
    destruct (isSpace c) eqn:Ec.
    + constructor; [now apply Forall_rev |].
      apply IH; [now apply dropWhile_Forall | constructor].
    + apply IH; [assumption | now constructor].
Qed.

Lemma toLower_not_upper (c : ascii) :
  isWordChar (toLower c) = true -> keyword_char (toLower c) = true.
Proof.
  destruct c as [[] [] [] [] [] [] [] []]; vm_compute; intro H; congruence.
Qed.

Lemma keyword_chars_of (text : string) :
  Forall (fun c => keyword_char c = true \/ isSpace c = true)
    (filter (fun c => isWordChar c || isSpace c) (toLowerCase (chars text))).
Proof.
  apply Forall_forall. intros c Hc. apply filter_In in Hc. destruct Hc as [Hin Hc].
  unfold toLowerCase in Hin. apply in_map_iff in Hin. destruct Hin as (x & <- & _).
  apply orb_prop in Hc. destruct Hc as [Hc | Hc]; [left | now right].
  now apply toLower_not_upper.
Qed.

(** X24.  The keywords [extractKeywords] returns are pairwise distinct;
    each is longer than two characters, is no stop word and is made of
    lower-case letters, digits and underscores only. *)
Theorem extractKeywords_keywords (text : string) :
  NoDup (extractKeywords text) /\ Forall keyword (extractKeywords text).
Proof.
  unfold extractKeywords. cbv zeta.
  set (cleaned := filter _ (toLowerCase (chars text))).
  set (words := filter _ (filter _ (map str (split_spaces (List.length cleaned) cleaned [])))).
  destruct (set_of_fresh words []) as [Hnd Hin].
  split; [exact Hnd |].
  apply Forall_forall. intros w Hw. destruct (Hin w Hw) as [Hwords _].
  subst words. apply filter_In in Hwords. destruct Hwords as [Hwords Hstop].
  apply filter_In in Hwords. destruct Hwords as [Hwords Hlen].
  apply in_map_iff in Hwords. destruct Hwords as (piece & <- & Hpiece).
  repeat split.
  - now apply Nat.ltb_lt in Hlen.
  - intro Hs. apply negb_true_iff in Hstop.
    assert (existsb (String.eqb (str piece)) stopWords = true).
    { apply existsb_exists. exists (str piece). split; [assumption | apply String.eqb_refl]. }
    congruence.
  - rewrite TimeFacts.chars_str. apply forallb_forall. intros c Hc.
    pose proof (@split_spaces_pieces
                  (fun c => keyword_char c = true \/ isSpace c = true)
                  (List.length cleaned) cleaned [] (keyword_chars_of text)
                  (Forall_nil _)) as Hall.
    rewrite Forall_forall in Hall. specialize (Hall piece Hpiece).
    rewrite Forall_forall in Hall. destruct (Hall c Hc) as [[Hk | Hs] Hns];
      [exact Hk | congruence].
Qed.

Lemma group_step_partition (keywords : list string)
    (groups : list (list Stamp)) (cur : list Stamp) (lastEnd : num)
    (done : list Stamp) (t : Stamp) :
  (List.concat groups ++ cur)%list = filter (relevant keywords) done ->
  Forall (fun g => g <> []) groups ->
  let '(groups', cur', _) := group_step keywords (groups, cur, lastEnd) t in
  (List.concat groups' ++ cur')%list = filter (relevant keywords) (done ++ [t]) /\
  Forall (fun g => g <> []) groups'.
Proof.
  intros Hsplit Hgroups. unfold group_step.
  rewrite filter_app. cbn [filter]. fold (relevant keywords t).
  destruct ((start t - lastEnd >? Fin 10)%num || (List.length cur =? 0)%nat).
  - destruct cur as [| first rest]; cbn [List.length Nat.ltb Nat.leb].
    + rewrite app_nil_r in Hsplit. rewrite <- Hsplit.
      split; [| assumption]. now destruct (relevant keywords t).
    + rewrite <- Hsplit. split.
      * rewrite concat_app. cbn [List.concat]. rewrite app_nil_r.
        now destruct (relevant keywords t).
      * apply ParserFacts.Forall_snoc; [assumption | discriminate].
  - rewrite <- Hsplit. destruct (relevant keywords t); split; try assumption.
    + now rewrite app_assoc.
    + now rewrite app_nil_r.
Qed.

Lemma group_fold_partition (keywords : list string) (todo : list Stamp) :
  forall groups cur lastEnd done,
    (List.concat groups ++ cur)%list = filter (relevant keywords) done ->
    Forall (fun g => g <> []) groups ->
    let '(groups', cur', _) := fold_left (group_step keywords) todo (groups, cur, lastEnd) in
    (List.concat groups' ++ cur')%list = filter (relevant keywords) (done ++ todo) /\
    Forall (fun g => g <> []) groups'.
Proof.
  induction todo as [| t rest IH]; intros groups cur lastEnd done Hsplit Hgroups;
    cbn [fold_left].
  - now rewrite app_nil_r.
  - pose proof (@group_step_partition keywords groups cur lastEnd done t Hsplit Hgroups)
      as Hstep.
    destruct (group_step keywords (groups, cur, lastEnd) t) as [[groups1 cur1] lastEnd1].
    destruct Hstep as [Hsplit1 Hgroups1].
    specialize (IH groups1 cur1 lastEnd1 (done ++ [t])%list Hsplit1 Hgroups1).
    now rewrite <- app_assoc in IH.
Qed.

Lemma filter_nonempty (A : Type) (groups : list (list A)) :
  Forall (fun g => g <> []) groups ->
  filter (fun g => (0 <? List.length g)%nat) groups = groups.
Proof.
  induction 1 as [| g rest Hg Hrest IH]; [reflexivity |].
  destruct g as [| x others]; [congruence |].
  cbn [filter]. replace (0 <? List.length (x :: others))%nat with true by reflexivity.
  now rewrite IH.
Qed.

(** X25.  [groupRelevantTimestamps] drops the entries that hold no
    keyword and cuts the others into groups, none of them empty: the
    entries of the groups, one group after the other, are the relevant
    entries in their order. *)
Theorem groupRelevantTimestamps_partition (timestamps : list Stamp)
    (keywords : list string) :
  let groups := groupRelevantTimestamps timestamps keywords in
  List.concat groups = filter (relevant keywords) timestamps /\
  Forall (fun group => exists first others, group = first :: others) groups.
Proof.
  cbv zeta. unfold groupRelevantTimestamps.
  pose proof (@group_fold_partition keywords timestamps [] [] (Fin 0) []
                eq_refl (Forall_nil _)) as H.
  destruct (fold_left (group_step keywords) timestamps ([], [], Fin 0))
    as [[groups cur] lastEnd].
  destruct H as [Hsplit Hgroups]. cbn [app] in Hsplit.
  assert (Hall : Forall (fun g => g <> [])
                   (if (0 <? List.length cur)%nat then groups ++ [cur] else groups)).
  { destruct cur; cbn [List.length Nat.ltb Nat.leb]; [assumption |].
    apply ParserFacts.Forall_snoc; [assumption | discriminate]. }
  rewrite (filter_nonempty Hall). split.
  - rewrite <- Hsplit. destruct cur; cbn [List.length Nat.ltb Nat.leb].
    + now rewrite app_nil_r.
    + rewrite concat_app. cbn [List.concat]. now rewrite app_nil_r.
  - eapply Forall_impl; [| exact Hall].
    intros [| first others] Hg; [congruence | eauto].
Qed.

Lemma num_eq_sym (a b : num) : a =n= b -> b =n= a.
Proof.
  destruct a, b; cbn [num_eq]; try tauto. intro H. now symmetry.
Qed.

Lemma num_eq_trans (a b c : num) : a =n= b -> b =n= c -> a =n= c.
Proof.
  destruct a, b, c; cbn [num_eq]; try tauto. intros H1 H2. now rewrite H1.
Qed.

Lemma pop_or0_parseInt (part : list ascii) (parts : list (list ascii)) :
  parseInt (pop_or0 (part :: parts)) = Extractor.parseInt_or0 part.
Proof. now destruct part. Qed.

Lemma parseFloat_nonempty (part : list ascii) :
  part <> [] -> parseFloat part = Extractor.parseFloat_or0 part.
Proof. destruct part; [congruence | reflexivity]. Qed.

Lemma parseInt_zero : parseInt (chars "0") = of_Z 0.
Proof. reflexivity. Qed.

Lemma legacy_two_groups (a b : list ascii) :
  forallb isDigit a = true -> forallb isDigit b = true -> b <> [] ->
  timeToSeconds (a ++ ":"%char :: b) =n= of_Z (digits_val a * 60 + digits_val b).
Proof.
  intros Ha Hb Hne. unfold timeToSeconds.
  rewrite (TimeFacts.split_on_app ":"%char a b (TimeFacts.digits_no_colon a Ha)).
  rewrite (TimeFacts.split_on_single ":"%char b (TimeFacts.digits_no_colon b Hb)).
  cbn [List.rev app tl]. rewrite pop_or0_parseInt.
  cbn [pop_or0]. rewrite parseInt_zero, (parseFloat_nonempty Hne).
  rewrite (TimeFacts.parseInt_digits a Ha), (TimeFacts.parseFloat_digits b Hb).
  unfold of_Z. cbn [mul add num_eq].
  rewrite inject_Z_plus, inject_Z_mult. change (inject_Z 0) with 0.
  change (inject_Z 60) with 60. lra.
Qed.

Lemma legacy_three_groups (a b c : list ascii) :
  forallb isDigit a = true -> forallb isDigit b = true -> forallb isDigit c = true ->
  c <> [] ->
  timeToSeconds (a ++ ":"%char :: b ++ ":"%char :: c) =n=
  of_Z (digits_val a * 3600 + digits_val b * 60 + digits_val c).
Proof.
  intros Ha Hb Hc Hne. unfold timeToSeconds.
  rewrite (TimeFacts.split_on_app ":"%char a _ (TimeFacts.digits_no_colon a Ha)).
  rewrite (TimeFacts.split_on_app ":"%char b _ (TimeFacts.digits_no_colon b Hb)).
  rewrite (TimeFacts.split_on_single ":"%char c (TimeFacts.digits_no_colon c Hc)).
  cbn [List.rev app tl]. rewrite !pop_or0_parseInt, (parseFloat_nonempty Hne).
  rewrite (TimeFacts.parseInt_digits a Ha), (TimeFacts.parseInt_digits b Hb),
    (TimeFacts.parseFloat_digits c Hc).
  unfold of_Z. cbn [mul add num_eq].
  rewrite !inject_Z_plus, !inject_Z_mult. reflexivity.
Qed.

(** X26.  On the strings [MM:SS] and [HH:MM:SS] made of groups of
    digits, the last of which is not empty, the [timeToSeconds] of the
    first extractor and that of the current one return the same
    number of seconds. *)
Theorem timeToSeconds_extractors_agree (hh mm ss : list ascii)
    (Hhh : forallb isDigit hh = true)
    (Hmm : forallb isDigit mm = true)
    (Hss : forallb isDigit ss = true)
    (Hseconds : ss <> []) :
  timeToSeconds (mm ++ ":"%char :: ss) =n=
    Extractor.timeToSeconds (VStr (str (mm ++ ":"%char :: ss))) /\
  timeToSeconds (hh ++ ":"%char :: mm ++ ":"%char :: ss) =n=
    Extractor.timeToSeconds (VStr (str (hh ++ ":"%char :: mm ++ ":"%char :: ss))).
Proof.
  split.
  - eapply num_eq_trans; [now apply legacy_two_groups |].
    apply num_eq_sym. now apply TimeFacts.timeToSeconds_two_groups.
  - eapply num_eq_trans; [now apply legacy_three_groups |].
    apply num_eq_sym. now apply TimeFacts.timeToSeconds_three_groups.
Qed.

Lemma timeToSeconds_extractors_agree_witness :
  timeToSeconds (chars "02:05") =n= Extractor.timeToSeconds (VStr "02:05") /\
  timeToSeconds (chars "1:02:05") =n= Extractor.timeToSeconds (VStr "1:02:05").
Proof.
  apply (@timeToSeconds_extractors_agree (chars "1") (chars "02") (chars "05"));
    (reflexivity || discriminate).
Defined.

Lemma to_int32_range (z : Z) : (- 2 ^ 31 <= Legacy.to_int32 z < 2 ^ 31)%Z.
Proof.
  unfold Legacy.to_int32.
  pose proof (Z.mod_pos_bound z (2 ^ 32) eq_refl) as H.
  destruct (z mod 2 ^ 32 <? 2 ^ 31)%Z eqn:E.
  - apply Z.ltb_lt in E. lia.
  - apply Z.ltb_ge in E. lia.
Qed.

Lemma hash_fold_range (s : list ascii) :
  forall hash,
    (- 2 ^ 31 <= hash < 2 ^ 31)%Z ->
    (- 2 ^ 31 <=
       fold_left
         (fun hash c =>
            Legacy.to_int32 (Legacy.to_int32 (Z.shiftl hash 5) - hash + Z.of_nat (code c)))%Z
         s hash < 2 ^ 31)%Z.
Proof.
  induction s as [| c rest IH]; intros hash Hhash; cbn [fold_left]; [exact Hhash |].
  apply IH. apply to_int32_range.
Qed.

(** X27.  The resolver of the first extractor never fails closed: for a
    URI that is not empty and a videos directory that holds a video
    file it always names one of the video files of the directory
    (failing the date stamp and the base name, the one the hash of the
    URI points at), and [simpleHash] of the URI is at least [0] and at
    most [2^31]. *)
Theorem legacy_findVideoFile_always_answers
    (readdir : option (list string)) (uri : string) (files : list string) (file : string)
    (Huri : uri <> EmptyString)
    (Hdir : readdir = Some files)
    (Hin : In file files)
    (Hvideo : Extractor.isVideoFile file = true) :
  (0 <= Legacy.simpleHash (chars uri) <= 2 ^ 31)%Z /\
  exists found,
    Legacy.findVideoFile readdir (Some uri) = Some found /\
    In found (Extractor.findAllVideoFiles readdir).
Proof.
  split.
  { unfold Legacy.simpleHash.
    assert (H0 : (- 2 ^ 31 <= 0 < 2 ^ 31)%Z) by lia.
    pose proof (@hash_fold_range (chars uri) 0%Z H0) as H. lia. }
  assert (Hfiles : In file (Extractor.findAllVideoFiles readdir)).
  { rewrite Hdir. unfold Extractor.findAllVideoFiles. apply filter_In. now split. }
  unfold Legacy.findVideoFile.
  apply String.eqb_neq in Huri. rewrite Huri.
  destruct (Extractor.findAllVideoFiles readdir) as [| f rest] eqn:Hall; [contradiction |].
  destruct (match Legacy.first_match Extractor.date_stamp (chars uri) with
            | Some timestamp => find (fun file => includes timestamp (chars file)) (f :: rest)
            | None => None
            end) as [found |] eqn:Hstamp.
  { exists found. split; [reflexivity |].
    destruct (Legacy.first_match Extractor.date_stamp (chars uri)); [| discriminate].
    apply find_some in Hstamp. tauto. }
  destruct (match Legacy.baseName (chars uri) with
            | [] => None
            | _ :: _ => find _ (f :: rest)
            end) as [found |] eqn:Hbase.
  { exists found. split; [reflexivity |].
    destruct (Legacy.baseName (chars uri)); [discriminate |].
    apply find_some in Hbase. tauto. }
  destruct (nth_error (f :: rest)
              (Z.to_nat (Legacy.simpleHash (chars uri) mod Z.of_nat (List.length (f :: rest)))))
    as [found |] eqn:Hnth.
  { exists found. split; [reflexivity |]. eapply nth_error_In; eassumption. }
  exfalso. apply nth_error_None in Hnth.
  assert (H : (0 < Z.of_nat (List.length (f :: rest)))%Z) by (cbn [List.length]; lia).
  pose proof (Z.mod_pos_bound (Legacy.simpleHash (chars uri))
                (Z.of_nat (List.length (f :: rest))) H) as Hb.
  lia.
Qed.

Lemma legacy_findVideoFile_always_answers_witness :
  (0 <= Legacy.simpleHash (chars "s3://kb/transcripts/budget.json") <= 2 ^ 31)%Z /\
  exists found,
    Legacy.findVideoFile (Some ["alpha.mp4"; "beta.mp4"; "gamma.mp4"]%string)
      (Some "s3://kb/transcripts/budget.json"%string) = Some found /\
    In found (Extractor.findAllVideoFiles
                (Some ["alpha.mp4"; "beta.mp4"; "gamma.mp4"]%string)).
Proof.
  apply (@legacy_findVideoFile_always_answers
           (Some ["alpha.mp4"; "beta.mp4"; "gamma.mp4"]%string)
           "s3://kb/transcripts/budget.json"
           ["alpha.mp4"; "beta.mp4"; "gamma.mp4"]%string "alpha.mp4"%string).
  - discriminate.
  - reflexivity.
  - now left.
  - reflexivity.
Defined.

End LegacyFacts.

(** ** The final selection of the first extractor *)

Module SelectionFacts.
Import LegacySelection.
Import Statements Notions.

Lemma abs_difference_sym (x y : num) :
  (abs (x - y) <? Fin 10)%num = (abs (y - x) <? Fin 10)%num.
Proof.
  destruct x as [| | | p], y as [| | | q]; try reflexivity.
  cbn [JSNum.sub JSNum.neg JSNum.add JSNum.abs JSNum.ltb].
  change (p + - q)%Q with (p - q)%Q. change (q + - p)%Q with (q - p)%Q.
  now rewrite Qabs_Qminus.
Qed.

Lemma near_sym (a b : Clip) : near a b = near b a.
Proof.
  unfold near. now rewrite String.eqb_sym, abs_difference_sym,
    (abs_difference_sym (endTime a)).
Qed.

Lemma keep_step_apart (filtered : list Clip) (clip : Clip) :
  apart filtered -> apart (keep_step filtered clip).
Proof.
  intro H. unfold keep_step.
  destruct (existsb (fun existing => near existing clip) filtered) eqn:E; [exact H |].
  assert (Hfar : forall x, In x filtered -> near x clip = false).
  { intros x Hx. destruct (near x clip) eqn:En; [| reflexivity].
    assert (existsb (fun existing => near existing clip) filtered = true)
      by (apply existsb_exists; now exists x).
    congruence. }
  intros a b Ha Hb Hab. apply in_app_or in Ha. apply in_app_or in Hb.
  destruct Ha as [Ha | [<- | []]], Hb as [Hb | [<- | []]].
  - now apply H.
  - now apply Hfar.
  - rewrite near_sym. now apply Hfar.
  - congruence.
Qed.

Lemma keep_step_incl (source filtered : list Clip) (clip : Clip) :
  incl filtered source -> In clip source -> incl (keep_step filtered clip) source.
Proof.
  intros H Hc. unfold keep_step. destruct (existsb _ filtered); [exact H |].
  intros x Hx. apply in_app_or in Hx. destruct Hx as [Hx | [<- | []]]; auto.
Qed.

Lemma filtered_sound (source : list Clip) (todo : list Clip) :
  forall filtered,
    incl todo source -> incl filtered source -> apart filtered ->
    incl (fold_left keep_step todo filtered) source /\
    apart (fold_left keep_step todo filtered).
Proof.
  induction todo as [| clip rest IH]; intros filtered Htodo Hincl Hapart;
    cbn [fold_left]; [now split |].
  apply IH.
  - intros x Hx. apply Htodo. now right.
  - apply keep_step_incl; [assumption | apply Htodo; now left].
  - now apply keep_step_apart.
Qed.

Lemma by_video_add_keys (clip : Clip) (groups : list (string * list Clip)) (k : string) :
  In k (map fst (by_video_add clip groups)) ->
  k = videoPath clip \/ In k (map fst groups).
Proof.
  induction groups as [| [key cs] rest IH]; cbn [by_video_add map fst].
  - intros [<- | []]. now left.
  - destruct (String.eqb key (videoPath clip)); cbn [map fst In].
    + tauto.
    + intros [<- | H]; [right; now left |].
      destruct (IH H); [now left | right; now right].
Qed.

Lemma by_video_add_grouped (source : list Clip) (clip : Clip)
    (groups : list (string * list Clip)) :
  In clip source -> grouped source groups -> grouped source (by_video_add clip groups).
Proof.
  intros Hc [Hnd Hall]. induction groups as [| [key cs] rest IH]; cbn [by_video_add].
  - split; [repeat constructor; intros [] |].
    repeat constructor; cbn [fst snd]; auto.
  - cbn [map fst] in Hnd. inversion Hnd as [| ? ? Hkey Hrest]; subst.
    inversion Hall as [| ? ? Hcs Hothers]; subst. cbn [fst snd] in Hcs.
    destruct (String.eqb key (videoPath clip)) eqn:E.
    + apply String.eqb_eq in E. split; [exact Hnd |].
      constructor; [| assumption]. cbn [fst snd].
      apply ParserFacts.Forall_snoc; [assumption | now split].
    + destruct (IH Hrest Hothers) as [Hnd' Hall']. split.
      * cbn [map fst]. constructor; [| assumption].
        intro Hin. apply by_video_add_keys in Hin. destruct Hin as [-> | Hin].
        -- rewrite String.eqb_refl in E. discriminate.
        -- contradiction.
      * constructor; assumption.
Qed.

Lemma grouping_thrown (todo : list Clip) :
  fold_left group_step todo None = None.
Proof. induction todo as [| clip rest IH]; [reflexivity | exact IH]. Qed.

Lemma by_video_grouped (source : list Clip) (todo : list Clip) :
  forall groups,
    incl todo source -> grouped source groups ->
    match fold_left group_step todo (Some groups) with
    | Some clipsByVideo => grouped source clipsByVideo
    | None => exists clip, In clip todo /\ In (videoPath clip) inherited
    end.
Proof.
  induction todo as [| clip rest IH]; intros groups Htodo Hg; cbn [fold_left];
    [assumption |].
  cbn [group_step]. destruct (is_inherited (videoPath clip)) eqn:E.
  - rewrite grouping_thrown. exists clip. split; [now left |].
    unfold is_inherited in E. apply existsb_exists in E.
    destruct E as (name & Hname & Heq). apply String.eqb_eq in Heq. now subst.
  - assert (Hrest : incl rest source) by (intros x Hx; apply Htodo; now right).
    assert (Hg' : grouped source (by_video_add clip groups))
      by (apply by_video_add_grouped; [apply Htodo; now left | assumption]).
    specialize (IH _ Hrest Hg').
    destruct (fold_left group_step rest (Some (by_video_add clip groups)));
      [assumption |].
    destruct IH as (c & Hc & Hname). exists c. split; [now right | assumption].
Qed.

Lemma grouped_permutation (source : list Clip) (a b : list (string * list Clip)) :
  Permutation a b -> grouped source a -> grouped source b.
Proof.
  intros Hp [Hnd Hall]. split.
  - eapply Permutation_NoDup; [| exact Hnd]. now apply Permutation_map.
  - eapply Permutation_Forall; eassumption.
Qed.

Lemma partition_permutation (A : Type) (p : A -> bool) (l : list A) :
  Permutation l (filter p l ++ filter (fun x => negb (p x)) l).
Proof.
  induction l as [| x l IH]; [constructor |].
  cbn [filter]. destruct (p x); cbn [negb app].
  - now constructor.
  - now apply Permutation_cons_app.
Qed.

Lemma own_keys_permutation (groups : list (string * list Clip)) :
  Permutation groups (own_keys groups).
Proof.
  unfold own_keys. etransitivity; [apply (partition_permutation is_index) |].
  apply Permutation_app_tail. apply SortFacts.js_sort_permutation.
Qed.

Lemma sorted_grouped (source : list Clip) (groups : list (string * list Clip)) :
  grouped source groups -> grouped source (js_sort more_clips (own_keys groups)).
Proof.
  apply grouped_permutation.
  etransitivity; [apply own_keys_permutation | apply SortFacts.js_sort_permutation].
Qed.

Lemma push_clips_length (videoClips : list Clip) :
  forall final,
    (List.length final <= totalMaxClips)%nat ->
    (List.length (push_clips final videoClips) <= totalMaxClips)%nat.
Proof.
  unfold push_clips. induction videoClips as [| clip rest IH]; intros final H;
    cbn [fold_left]; [assumption |].
  apply IH. destruct (List.length final <? totalMaxClips)%nat eqn:E; [| assumption].
  apply Nat.ltb_lt in E. rewrite length_app. cbn [List.length]. lia.
Qed.

Lemma push_clips_incl (source : list Clip) (videoClips : list Clip) :
  forall final,
    incl final source -> incl videoClips source ->
    incl (push_clips final videoClips) source.
Proof.
  unfold push_clips. induction videoClips as [| clip rest IH]; intros final Hf Hv;
    cbn [fold_left]; [assumption |].
  apply IH; [| intros x Hx; apply Hv; now right].
  destruct (List.length final <? totalMaxClips)%nat; [| assumption].
  intros x Hx. apply in_app_or in Hx. destruct Hx as [Hx | [<- | []]];
    [now apply Hf | apply Hv; now left].
Qed.

Lemma clips_of_video_app (path : string) (a b : list Clip) :
  clips_of_video path (a ++ b) = (clips_of_video path a + clips_of_video path b)%nat.
Proof. unfold clips_of_video. now rewrite filter_app, length_app. Qed.

Lemma push_clips_count (path : string) (videoClips : list Clip) :
  forall final,
    (clips_of_video path (push_clips final videoClips)
     <= clips_of_video path final + clips_of_video path videoClips)%nat.
Proof.
  unfold push_clips. induction videoClips as [| clip rest IH]; intros final;
    cbn [fold_left]; [lia |].
  specialize (IH (if (List.length final <? totalMaxClips)%nat
                  then final ++ [clip] else final)).
  change (clip :: rest) with ([clip] ++ rest)%list.
  rewrite clips_of_video_app.
  destruct (List.length final <? totalMaxClips)%nat;
    [rewrite clips_of_video_app in IH |]; lia.
Qed.

Lemma clips_of_other_video (path key : string) (videoClips : list Clip) :
  Forall (fun c => videoPath c = key) videoClips -> key <> path ->
  clips_of_video path videoClips = 0%nat.
Proof.
  intros H Hne. unfold clips_of_video.
  induction H as [| c rest Hc Hrest IH]; [reflexivity |].
  cbn [filter]. rewrite Hc.
  destruct (String.eqb key path) eqn:E; [apply String.eqb_eq in E; congruence | exact IH].
Qed.

Lemma clips_of_video_le (path : string) (clips : list Clip) :
  (clips_of_video path clips <= List.length clips)%nat.
Proof. unfold clips_of_video. apply filter_length_le. Qed.

Lemma clips_of_video_permutation (path : string) (a b : list Clip) :
  Permutation a b -> clips_of_video path a = clips_of_video path b.
Proof.
  unfold clips_of_video. induction 1 as [| x a b _ IH | x y a | a b c _ IH1 _ IH2].
  - reflexivity.
  - cbn [filter]. destruct (String.eqb (videoPath x) path); cbn [List.length]; congruence.
  - cbn [filter]. destruct (String.eqb (videoPath x) path),
      (String.eqb (videoPath y) path); reflexivity.
  - congruence.
Qed.

Lemma best_of_video (source : list Clip) (video : string * list Clip) :
  Forall (fun c => videoPath c = fst video /\ In c source) (snd video) ->
  Forall (fun c => videoPath c = fst video /\ In c source)
    (firstn maxClipsPerVideo (js_sort less_relevant (snd video))).
Proof.
  intro H. apply RankFacts.firstn_Forall. now apply ParserFacts.js_sort_Forall.
Qed.

Lemma final_clips_sound (source : list Clip) (path : string)
    (groups : list (string * list Clip)) :
  forall final,
    grouped source groups -> incl final source ->
    (List.length final <= totalMaxClips)%nat ->
    let finalClips :=
      fold_left
        (fun final video =>
           push_clips final (firstn maxClipsPerVideo (js_sort less_relevant (snd video))))
        groups final in
    incl finalClips source /\
    (List.length finalClips <= totalMaxClips)%nat /\
    (clips_of_video path finalClips <= clips_of_video path final + maxClipsPerVideo)%nat /\
    (~ In path (map fst groups) ->
     (clips_of_video path finalClips <= clips_of_video path final)%nat).
Proof.
  induction groups as [| video rest IH]; intros final [Hnd Hall] Hincl Hlen;
    cbn [fold_left]; cbn zeta.
  - repeat split; [assumption | assumption | lia | lia].
  - cbn [map] in Hnd. inversion Hnd as [| ? ? Hkey Hrest]; subst.
    inversion Hall as [| ? ? Hcs Hothers]; subst.
    pose proof (@best_of_video source video Hcs) as Hbest.
    set (best := firstn maxClipsPerVideo (js_sort less_relevant (snd video))) in *.
    assert (Hbest_incl : incl best source).
    { intros x Hx. rewrite Forall_forall in Hbest. now apply Hbest. }
    assert (Hbest_len : (clips_of_video path best <= maxClipsPerVideo)%nat).
    { etransitivity; [apply clips_of_video_le |]. apply firstn_le_length. }
    pose proof (push_clips_count path best final) as Hcount.
    destruct (IH (push_clips final best) (conj Hrest Hothers)
                (@push_clips_incl source best final Hincl Hbest_incl)
                (@push_clips_length best final Hlen))
      as (H1 & H2 & H3 & H4).
    split; [exact H1 |]. split; [exact H2 |]. split.
    + destruct (String.eqb (fst video) path) eqn:E.
      * apply String.eqb_eq in E. subst path. specialize (H4 Hkey). lia.
      * assert (clips_of_video path best = 0%nat).
        { apply clips_of_other_video with (key := fst video).
          - eapply Forall_impl; [| exact Hbest]. now intros c [Hc _].
          - intro Heq. rewrite Heq, String.eqb_refl in E. discriminate. }
        lia.
    + intro Hnot. cbn [map In] in Hnot.
      assert (clips_of_video path best = 0%nat).
      { apply clips_of_other_video with (key := fst video).
        - eapply Forall_impl; [| exact Hbest]. now intros c [Hc _].
        - tauto. }
      assert (~ In path (map fst rest)) by tauto.
      specialize (H4 H0). lia.
Qed.

Lemma selection_sound (clips : list Clip) (path : string) :
  match filterAndImproveClips clips with
  | Some selection =>
      incl selection (fold_left keep_step clips []) /\
      (List.length selection <= totalMaxClips)%nat /\
      (clips_of_video path selection <= maxClipsPerVideo)%nat
  | None =>
      exists clip,
        In clip (fold_left keep_step clips []) /\ In (videoPath clip) inherited
  end.
Proof.
  unfold filterAndImproveClips.
  set (filtered := fold_left keep_step clips []).
  assert (Hg : grouped filtered []) by (split; constructor).
  pose proof (@by_video_grouped filtered filtered [] (incl_refl _) Hg) as Hgroups.
  destruct (fold_left group_step filtered (Some [])) as [clipsByVideo |];
    [| exact Hgroups].
  apply sorted_grouped in Hgroups.
  destruct (@final_clips_sound filtered path _ [] Hgroups (incl_nil_l _) (Nat.le_0_l _))
    as (H1 & H2 & H3 & _).
  cbn zeta in *. split; [| split].
  - intros x Hx. apply SortFacts.js_sort_In in Hx. now apply H1.
  - now rewrite SortFacts.js_sort_length.
  - rewrite <- (clips_of_video_permutation path (SortFacts.js_sort_permutation _ _)).
    exact H3.
Qed.

(** X28.  The selection [filterAndImproveClips] returns holds at most
    four clips, at most two of any one video, every one of them a clip
    of the input, and no two different selected clips are of the same
    video with starts and ends both less than ten seconds apart. When
    the function throws instead, some clip of the input has a video
    path that names a property every object inherits, such as
    [constructor]. *)
Theorem filterAndImproveClips_selection (clips : list Clip) :
  match filterAndImproveClips clips with
  | Some selection =>
      (List.length selection <= 4)%nat /\
      (forall path, (clips_of_video path selection <= 2)%nat) /\
      incl selection clips /\
      apart selection
  | None => exists clip, In clip clips /\ In (videoPath clip) inherited
  end.
Proof.
  destruct (@filtered_sound clips clips [] (incl_refl _) (incl_nil_l _))
    as [Hincl Hapart].
  { intros a b []. }
  pose proof (selection_sound clips) as H.
  destruct (filterAndImproveClips clips) as [selection |].
  - split; [apply (H EmptyString) |].
    split; [intro path; apply (H path) |].
    split.
    + intros x Hx. apply Hincl. now apply (H EmptyString).
    + intros a b Ha Hb Hab. apply Hapart; [| | assumption]; now apply (H EmptyString).
  - destruct (H EmptyString) as (clip & Hin & Hname).
    exists clip. split; [now apply Hincl | assumption].
Qed.

End SelectionFacts.
